(** * FeatherPad: shell line lexer, language classifier and UTF-8 validation

    A shallow embedding of
    - [encoding.cpp]   ([validateUTF8], [detectCharset]),
    - [syntax.cpp]     ([languageForExtension] and the other lookups,
      [setProgLang], [syntaxHighlighting], [formatTextRect]),
    - [highlighter/highlighter-sh.cpp] ([SH_MultiLineQuote], [formatInsideCommand]
      and its helpers, [SH_CmndSubstVar]),
    - [vscrollbar.cpp] ([VScrollBar::wheelEvent]),
    - [fpwin.cpp]      ([trailingSpaces], [removeTrailingSpaces], [appendEmptyLine],
      [writeToFile] and the trailing-space pass of [saveAllFiles]),
    followed by the properties proved about them.

    Conventions: a C++ [int] is a [Z].  In the lexer, positions and
    counts are bounded by line lengths far below 2^31, so no wrap-around
    is reachable; in [vscrollbar.cpp], where the deltas are whatever
    [int]s the event carries, the wrap-around is written out.  A
    [QString] is a [list ascii]; a [QSet<int>] is a [gset Z];
    [unsigned char] data is a [list byte] read through [uchar]. *)

From stdpp Require Import base decidable option list gmap sets strings.
From Stdlib Require Import ZArith Lia.
From Stdlib.Strings Require Import Byte Ascii.

Open Scope Z_scope.

(* ===================================================================== *)
(** * Part I: definitions                                                 *)
(* ===================================================================== *)

(** ** Strings *)

Abbreviation QString := (list ascii).

Definition str (s : string) : QString := String.list_ascii_of_string s.

(* ------------------------------------------------------------------- *)
(** ** encoding.cpp                                                      *)
(* ------------------------------------------------------------------- *)

(** The value of an [unsigned char]. *)
Definition uchar (b : byte) : Z := Z.of_N (Byte.to_N b).

(** [validateUTF8]: [p] is the unread rest of the array; reading [*p++]
    is the head pattern, [end - p < n] is a too short tail. *)
Fixpoint validateUTF8 (p : list byte) : bool :=
  match p with
  | [] => true
  | c0 :: p =>
    let c := uchar c0 in
    if c <? 0x80 then validateUTF8 p
    else if (0xC2 <=? c) && (c <=? 0xDF) then
      match p with
      | [] => false
      | p0 :: p' =>
        if negb (Z.land (uchar p0) 0xC0 =? 0x80) then false
        else validateUTF8 p'
      end
    else if (0xE0 <=? c) && (c <=? 0xEF) then
      match p with
      | p0 :: p1 :: p' =>
        if negb (Z.land (uchar p0) 0xC0 =? 0x80) || negb (Z.land (uchar p1) 0xC0 =? 0x80)
        then false
        else if (c =? 0xE0) && (uchar p0 <? 0xA0) then false
        else if (c =? 0xED) && (uchar p0 >? 0x9F) then false
        else
          let code := Z.lor (Z.lor (Z.shiftl (Z.land c 0x0F) 12)
                                   (Z.shiftl (Z.land (uchar p0) 0x3F) 6))
                            (Z.land (uchar p1) 0x3F) in
          if (0xD800 <=? code) && (code <=? 0xDFFF) then false
          else validateUTF8 p'
      | _ => false
      end
    else if (0xF0 <=? c) && (c <=? 0xF4) then
      match p with
      | p0 :: p1 :: p2 :: p' =>
        if negb (Z.land (uchar p0) 0xC0 =? 0x80) || negb (Z.land (uchar p1) 0xC0 =? 0x80)
           || negb (Z.land (uchar p2) 0xC0 =? 0x80)
        then false
        else if (c =? 0xF0) && (uchar p0 <? 0x90) then false
        else if (c =? 0xF4) && (uchar p0 >? 0x8F) then false
        else
          let code := Z.lor (Z.lor (Z.lor (Z.shiftl (Z.land c 0x07) 18)
                                          (Z.shiftl (Z.land (uchar p0) 0x3F) 12))
                                   (Z.shiftl (Z.land (uchar p1) 0x3F) 6))
                            (Z.land (uchar p2) 0x3F) in
          if code >? 0x10FFFF then false
          else validateUTF8 p'
      | _ => false
      end
    else false
  end.

Definition detectCharset (byteArray : list byte) : QString :=
  if validateUTF8 byteArray then str "UTF-8" else str "ISO-8859-1".

(** *** Well-formed UTF-8, stated independently of the validator

    A byte sequence is well-formed UTF-8 when it is the concatenation of
    the shortest-form encodings of Unicode scalar values (code points
    0..0x10FFFF outside the surrogate range 0xD800..0xDFFF). *)

Definition isScalarValue (cp : Z) : Prop :=
  0 <= cp < 0xD800 \/ 0xE000 <= cp <= 0x10FFFF.

Definition byteOf (z : Z) : byte := default x00 (Byte.of_N (Z.to_N z)).

Definition utf8Encode (cp : Z) : list byte :=
  if cp <? 0x80 then [byteOf cp]
  else if cp <? 0x800 then
    [byteOf (0xC0 + cp / 64); byteOf (0x80 + cp mod 64)]
  else if cp <? 0x10000 then
    [byteOf (0xE0 + cp / 4096); byteOf (0x80 + (cp / 64) mod 64);
     byteOf (0x80 + cp mod 64)]
  else
    [byteOf (0xF0 + cp / 262144); byteOf (0x80 + (cp / 4096) mod 64);
     byteOf (0x80 + (cp / 64) mod 64); byteOf (0x80 + cp mod 64)].

Definition WellFormedUTF8 (bs : list byte) : Prop :=
  exists cps : list Z, Forall isScalarValue cps /\ bs = concat (map utf8Encode cps).

(** The number of continuation bytes a lead byte announces. *)
Definition continuationCount (c : Z) : nat :=
  if (0xC2 <=? c) && (c <=? 0xDF) then 1%nat
  else if (0xE0 <=? c) && (c <=? 0xEF) then 2%nat
  else if (0xF0 <=? c) && (c <=? 0xF4) then 3%nat
  else 0%nat.

Definition isContinuationByte (b : byte) : bool := Z.land (uchar b) 0xC0 =? 0x80.

Definition inRange (lo hi : Z) (b : byte) : bool := (lo <=? uchar b) && (uchar b <=? hi).

(** The ways a sequence starting with lead byte [c] and continuing with
    [rest] can be ill-formed (Unicode, table 3-7). *)
Inductive Malformed (c : byte) (rest : list byte) : Prop :=
| BadLead :
    0x80 <= uchar c <= 0xC1 \/ 0xF5 <= uchar c -> Malformed c rest
| Truncated :
    (length rest < continuationCount (uchar c))%nat -> Malformed c rest
| BadContinuation (i : nat) (b : byte) :
    (i < continuationCount (uchar c))%nat -> rest !! i = Some b ->
    isContinuationByte b = false -> Malformed c rest
| Overlong (p0 : byte) :
    rest !! 0%nat = Some p0 ->
    (uchar c = 0xE0 /\ uchar p0 < 0xA0) \/ (uchar c = 0xF0 /\ uchar p0 < 0x90) ->
    Malformed c rest
| Surrogate (p0 : byte) :
    rest !! 0%nat = Some p0 -> uchar c = 0xED -> 0xA0 <= uchar p0 -> Malformed c rest
| TooLarge (p0 : byte) :
    rest !! 0%nat = Some p0 -> uchar c = 0xF4 -> 0x8F < uchar p0 -> Malformed c rest.

(* ------------------------------------------------------------------- *)
(** ** syntax.cpp                                                        *)
(* ------------------------------------------------------------------- *)

(** *** QString operations used by the classifier

    Characters are modelled by [ascii]; [toLower] folds the letters A-Z
    and leaves every other character as it is. *)

Definition toLowerChar (c : ascii) : ascii :=
  let n := nat_of_ascii c in
  if ((65 <=? n) && (n <=? 90))%nat then ascii_of_nat (n + 32) else c.

Definition toLower (s : QString) : QString := map toLowerChar s.

Definition isEmpty (s : QString) : bool := bool_decide (s = []).

(** [QString::endsWith] and [QString::startsWith], case-sensitive. *)
Definition endsWith (s ending : QString) : bool := bool_decide (ending `suffix_of` s).

Definition startsWith (s start : QString) : bool := bool_decide (start `prefix_of` s).

(** [QString::endsWith(..., Qt::CaseInsensitive)]. *)
Definition endsWithCaseInsensitive (s ending : QString) : bool :=
  endsWith (toLower s) (toLower ending).

(** *** The three lookup tables *)

Record ExtensionEntry := mkExtensionEntry {
  extension : QString;    (* e.g. ".cpp", ".py" *)
  caseSensitive : bool;   (* whether matching is case-sensitive *)
  language : QString      (* e.g. "cpp", "python" *)
}.

Global Instance ExtensionEntry_eq_dec : EqDecision ExtensionEntry.
Proof. solve_decision. Defined.

Definition mkExt (e : string) (cs : bool) (l : string) : ExtensionEntry :=
  mkExtensionEntry (str e) cs (str l).

Definition extensionLanguageMap : list ExtensionEntry :=
  [
   mkExt ".cpp" true "cpp"; mkExt ".cxx" true "cpp"; mkExt ".h" true "cpp";
   mkExt ".c" true "c"; mkExt ".sh" true "sh"; mkExt ".ebuild" true "sh";
   mkExt ".eclass" true "sh"; mkExt ".zsh" true "sh"; mkExt ".rb" true "ruby";
   mkExt ".lua" true "lua"; mkExt ".nelua" true "lua"; mkExt ".py" true "python";
   mkExt ".pl" true "perl"; mkExt ".pro" true "qmake"; mkExt ".pri" true "qmake";
   mkExt ".tr" true "troff"; mkExt ".t" true "troff"; mkExt ".roff" true "troff";
   mkExt ".tex" true "LaTeX"; mkExt ".ltx" true "LaTeX"; mkExt ".latex" true "LaTeX";
   mkExt ".lyx" true "LaTeX"; mkExt ".xml" false "xml"; mkExt ".svg" false "xml";
   mkExt ".qrc" true "xml"; mkExt ".rdf" true "xml"; mkExt ".docbook" true "xml";
   mkExt ".fnx" true "xml"; mkExt ".ts" true "xml"; mkExt ".menu" true "xml";
   mkExt ".kml" false "xml"; mkExt ".xspf" false "xml"; mkExt ".asx" false "xml";
   mkExt ".nfo" true "xml"; mkExt ".dae" true "xml"; mkExt ".css" true "css";
   mkExt ".qss" true "css"; mkExt ".scss" true "scss"; mkExt ".p" true "pascal";
   mkExt ".pas" true "pascal"; mkExt ".desktop" true "desktop"; mkExt ".desktop.in" true "desktop";
   mkExt ".directory" true "desktop"; mkExt ".kvconfig" true "config"; mkExt ".service" true "config";
   mkExt ".mount" true "config"; mkExt ".timer" true "config"; mkExt ".pls" false "config";
   mkExt ".js" true "javascript"; mkExt ".hx" true "javascript"; mkExt ".java" true "java";
   mkExt ".json" true "json"; mkExt ".qml" true "qml"; mkExt ".log" false "log";
   mkExt ".php" true "php"; mkExt ".diff" true "diff"; mkExt ".patch" true "diff";
   mkExt ".srt" true "srt"; mkExt ".theme" true "theme"; mkExt ".fountain" true "fountain";
   mkExt ".yml" true "yaml"; mkExt ".yaml" true "yaml"; mkExt ".m3u" false "m3u";
   mkExt ".htm" false "html"; mkExt ".html" false "html"; mkExt ".markdown" true "markdown";
   mkExt ".md" true "markdown"; mkExt ".mkd" true "markdown"; mkExt ".rst" true "reST";
   mkExt ".dart" true "dart"; mkExt ".go" true "go"; mkExt ".rs" true "rust";
   mkExt ".tcl" true "tcl"; mkExt ".tk" true "tcl"; mkExt ".toml" true "toml"
  ].

Definition kv (k v : string) : QString * QString := (str k, str v).

(** A [QHash<QString, QString>] is a finite map. *)
Definition specialFilenamesMap : gmap QString QString :=
  list_to_map [
   kv "makefile" "makefile"; kv "makefile.am" "makefile"; kv "makelist" "makefile";
   kv "pkgbuild" "sh"; kv "fstab" "sh"; kv "changelog" "changelog";
   kv "gtkrc" "gtkrc"; kv "control" "deb"; kv "mirrorlist" "config";
   kv "themerc" "openbox"; kv "bashrc" "sh"; kv "bash_profile" "sh";
   kv "bash_functions" "sh"; kv "bash_logout" "sh"; kv "bash_aliases" "sh";
   kv "xprofile" "sh"; kv "profile" "sh"; kv "mkshrc" "sh";
   kv "zprofile" "sh"; kv "zlogin" "sh"; kv "zshrc" "sh";
   kv "zshenv" "sh"; kv "cmakelists.txt" "cmake"
  ].

Definition mimeLanguageMap : gmap QString QString :=
  list_to_map [
   kv "text/x-c++" "cpp"; kv "text/x-c++src" "cpp";
   kv "text/x-c++hdr" "cpp"; kv "text/x-chdr" "cpp";
   kv "text/x-c" "c"; kv "text/x-csrc" "c";
   kv "application/x-shellscript" "sh"; kv "text/x-shellscript" "sh";
   kv "application/x-ruby" "ruby"; kv "text/x-lua" "lua";
   kv "application/x-perl" "perl"; kv "text/x-makefile" "makefile";
   kv "text/x-cmake" "cmake"; kv "application/vnd.nokia.qt.qmakeprofile" "qmake";
   kv "text/troff" "troff"; kv "application/x-troff-man" "troff";
   kv "text/x-tex" "LaTeX"; kv "application/x-lyx" "LaTeX";
   kv "text/html" "html"; kv "application/xhtml+xml" "html";
   kv "application/xml" "xml"; kv "application/xml-dtd" "xml";
   kv "text/feathernotes-fnx" "xml"; kv "audio/x-ms-asx" "xml";
   kv "text/x-nfo" "xml"; kv "text/css" "css";
   kv "text/x-scss" "scss"; kv "text/x-pascal" "pascal";
   kv "text/x-changelog" "changelog"; kv "application/x-desktop" "desktop";
   kv "audio/x-scpls" "config"; kv "application/vnd.kde.kcfgc" "config";
   kv "application/javascript" "javascript"; kv "text/javascript" "javascript";
   kv "text/x-java" "java"; kv "application/json" "json";
   kv "application/schema+json" "json"; kv "text/x-qml" "qml";
   kv "text/x-log" "log"; kv "application/x-php" "php";
   kv "text/x-php" "php"; kv "application/x-theme" "theme";
   kv "text/x-diff" "diff"; kv "text/x-patch" "diff";
   kv "text/markdown" "markdown"; kv "audio/x-mpegurl" "m3u";
   kv "application/vnd.apple.mpegurl" "m3u"; kv "text/x-go" "go";
   kv "text/rust" "rust"; kv "text/x-tcl" "tcl";
   kv "text/tcl" "tcl"; kv "application/toml" "toml"
  ].

(** *** Lookups *)

(** [languageForSpecialFilename]: the key is the lower-cased base name;
    an empty result stands for the null [QString()]. *)
Definition languageForSpecialFilename (baseName : QString) : QString :=
  let key := toLower baseName in
  match specialFilenamesMap !! key with
  | Some lang => lang
  | None => []
  end.

(** [languageForExtension], over an arbitrary table: the range-for loop
    returns at the first entry that matches. *)
Fixpoint languageForExtensionIn (table : list ExtensionEntry) (fname : QString) : QString :=
  match table with
  | [] => []
  | entry :: rest =>
    if caseSensitive entry then
      if endsWith fname (extension entry) then language entry
      else languageForExtensionIn rest fname
    else
      if endsWith (toLower fname) (extension entry) then language entry
      else languageForExtensionIn rest fname
  end.

Definition languageForExtension (fname : QString) : QString :=
  languageForExtensionIn extensionLanguageMap fname.

(** Whether an entry matches a file name, with the entry's own case rule. *)
Definition entryMatches (fname : QString) (entry : ExtensionEntry) : bool :=
  if caseSensitive entry then endsWith fname (extension entry)
  else endsWith (toLower fname) (extension entry).

(** What [QFileInfo] and [QMimeDatabase] report about a path: an input of
    the classifier, supplied by the file system. *)
Record QFileInfo := mkFileInfo {
  fileExists : bool;
  isSymLink : bool;
  canonicalFilePath : QString;
  symLinkTarget : QString;
  mimeTypeName : QString;
  parentMimeTypes : list QString
}.

Definition FileSystem := QString -> QFileInfo.

(** First parent media type known to the table, as the loop finds it. *)
Fixpoint firstKnownMime (parents : list QString) : QString :=
  match parents with
  | [] => []
  | parentMime :: rest =>
    match mimeLanguageMap !! parentMime with
    | Some lang => lang
    | None => firstKnownMime rest
    end
  end.

Definition languageForMime (mimeType : QFileInfo) : QString :=
  match mimeLanguageMap !! mimeTypeName mimeType with
  | Some lang => lang
  | None => firstKnownMime (parentMimeTypes mimeType)
  end.

Definition resolvedFilePath (fs : FileSystem) (filename : QString) : QString :=
  let info := fs filename in
  if negb (fileExists info) then filename
  else if isSymLink info then
    let finalTarget := canonicalFilePath info in
    if negb (isEmpty finalTarget) then finalTarget else symLinkTarget info
  else filename.

(** [QFileInfo(fname).fileName()]: what follows the last '/'. *)
Fixpoint fileName (path : QString) : QString :=
  match path with
  | [] => []
  | c :: rest =>
    if bool_decide ("/"%char ∈ rest) then fileName rest
    else if bool_decide (c = "/"%char) then rest else path
  end.

(** The part of a [TextEdit] the classifier reads and writes. *)
Record TextEdit := mkTextEdit {
  getFileName : QString;
  getProg : QString
}.

Definition setProg (lang : QString) (textEdit : TextEdit) : TextEdit :=
  mkTextEdit (getFileName textEdit) lang.

(** [FPwin::setProgLang] on a non-null [TextEdit]; the returns without a
    [setProg] leave the editor as it is. *)
Definition setProgLang (fs : FileSystem) (textEdit : TextEdit) : TextEdit :=
  let fname := getFileName textEdit in
  if isEmpty fname then textEdit
  else
    let fname := resolvedFilePath fs fname in
    if endsWithCaseInsensitive fname (str ".sub") then textEdit
    else
      let baseName := fileName fname in
      let lang := languageForSpecialFilename baseName in
      if negb (isEmpty lang) then setProg lang textEdit
      else
        let lang := languageForExtension fname in
        if negb (isEmpty lang) then setProg lang textEdit
        else
          let fInfo := fs fname in
          let lang :=
            if fileExists fInfo then
              if startsWith (mimeTypeName fInfo) (str "text/x-python") then str "python"
              else languageForMime fInfo
            else str "url" in
          let lang := if isEmpty lang then str "url" else lang in
          setProg lang textEdit.

(** *** formatTextRect

    A call either returns or leaves by an exception, which a C++ caller
    without a handler passes on.  Either way the document is left in
    some state: [Thrown a] carries the state at the moment the exception
    leaves. *)
Inductive Outcome (A : Type) : Type :=
| Returned (a : A)
| Thrown (a : A).
Arguments Returned {A} a.
Arguments Thrown {A} a.

(** One block of the document, as far as [formatTextRect] looks at it:
    its user data, if any, with the [isHighlighted] flag. *)
Record TextBlock := mkTextBlock {
  userDataHighlighted : option bool
}.

Definition Document := list TextBlock.

Section FormatTextRect.

(** [QSyntaxHighlighter::rehighlightBlock] with this repository's
    [highlightBlock] behind it: it may change the document or throw. *)
Variable rehighlightBlock : nat -> Document -> Outcome Document.

(** The [while] loop over the visible blocks; [k] counts the block
    numbers left up to [end.blockNumber()], [n] is [block.blockNumber()]. *)
Fixpoint formatVisibleBlocks (k n : nat) (doc : Document) : Outcome Document :=
  match k with
  | O => Returned doc
  | S k' =>
    match doc !! n with
    | None => Returned doc                      (* !block.isValid() *)
    | Some block =>
      match userDataHighlighted block with
      | Some false =>
        match rehighlightBlock n doc with
        | Returned doc' => formatVisibleBlocks k' (S n) doc'
        | Thrown doc' => Thrown doc'
        end
      | _ => formatVisibleBlocks k' (S n) doc
      end
    end
  end.

(** [FPwin::formatTextRect]: [hasHighlighter] is false when there is no
    current tab page or no highlighter; [startBlock] and [endBlock] are
    the block numbers of the cursors at the top left and bottom right of
    the viewport. *)
Definition formatTextRect (hasHighlighter : bool) (startBlock endBlock : nat)
           (doc : Document) : Outcome Document :=
  if negb hasHighlighter then Returned doc
  else formatVisibleBlocks (S endBlock - startBlock) startBlock doc.

End FormatTextRect.

(** What the failure policy of the specification asks of the pass: it
    returns, and the block whose classification failed is marked clean. *)
Definition failureContained (result : Outcome Document) (n : nat) : Prop :=
  exists doc' : Document,
    result = Returned doc' /\
    exists block, doc' !! n = Some block /\ userDataHighlighted block = Some true.

(* ------------------------------------------------------------------- *)
(** ** highlighter/highlighter-sh.cpp                                    *)
(* ------------------------------------------------------------------- *)

(** *** Formats and spans *)

(** Modelled from the spec: the [QTextCharFormat] members of the
    highlighter are declared in [highlighter.h] and set up in
    [highlighter.cpp], which are not among the sources.  The model has one
    constructor for each of the six formats this file names, the
    categories of specification section 3, and [defaultFormat] for the
    empty [QTextCharFormat()] of a position nothing was written to. *)
Inductive Format : Type :=
| defaultFormat
| neutralFormat
| commentFormat
| urlFormat
| quoteFormat
| altQuoteFormat
| urlInsideQuoteFormat.

Global Instance Format_eq_dec : EqDecision Format.
Proof. solve_decision. Defined.

(** The categories of a [FormatSpan] (specification, section 3). *)
Inductive Category : Type :=
| Neutral
| Comment
| DoubleQuoted
| SingleQuoted
| Url
| UrlInsideQuote.

Global Instance Category_eq_dec : EqDecision Category.
Proof. solve_decision. Defined.

(** Text that carries no format of its own is presented as neutral. *)
Definition categoryOf (f : Format) : Category :=
  match f with
  | defaultFormat | neutralFormat => Neutral
  | commentFormat => Comment
  | urlFormat => Url
  | quoteFormat => DoubleQuoted
  | altQuoteFormat => SingleQuoted
  | urlInsideQuoteFormat => UrlInsideQuote
  end.

Record FormatSpan := mkSpan {
  startOffset : nat;
  spanLength : nat;
  category : Category
}.

(** The spans of a line: the maximal runs of one category in the
    per-character formats, from position [pos] on. *)
Fixpoint spansFrom (pos : nat) (formats : list Format) : list FormatSpan :=
  match formats with
  | [] => []
  | f :: rest =>
    match spansFrom (S pos) rest with
    | sp :: more =>
      if decide (category sp = categoryOf f)
      then mkSpan pos (S (spanLength sp)) (categoryOf f) :: more
      else mkSpan pos 1 (categoryOf f) :: sp :: more
    | [] => [mkSpan pos 1 (categoryOf f)]
    end
  end.

Definition spansOf (formats : list Format) : list FormatSpan := spansFrom 0 formats.

(** [tiles from spans to]: the spans follow one another without gap or
    overlap from offset [from] to offset [to], none of them empty. *)
Fixpoint tiles (from : nat) (spans : list FormatSpan) (to : nat) : Prop :=
  match spans with
  | [] => from = to
  | sp :: rest =>
    startOffset sp = from /\ (0 < spanLength sp)%nat
    /\ tiles (from + spanLength sp) rest to
  end.

Definition totalLength (spans : list FormatSpan) : nat :=
  foldr (fun sp n => (spanLength sp + n)%nat) 0%nat spans.

(** *** Block states, block data and the highlighter *)

(** The block states this file names.  The enumeration is declared in
    [highlighter.h]; its values are a parameter of the model. *)
Class BlockStates := {
  doubleQuoteState : Z;
  singleQuoteState : Z;
  SH_DoubleQuoteState : Z;
  SH_SingleQuoteState : Z;
  SH_MixedDoubleQuoteState : Z;
  SH_MixedSingleQuoteState : Z;
  endState : Z
}.

(** Modelled from the spec: [TextBlockData] is declared in
    [highlighter.h], not among the sources.  The record holds the part
    this file reads and writes: [openNestCount], [openQuoteSet],
    [pendingHeredocLabel] and [continuesAmbiguousQuote] of the
    specification (section 3), under the names of their accessors; the
    setters store what they are given, [insertOpenQuotes] adds the given
    depths. *)
Record TextBlockData := mkTextBlockData {
  openNests : Z;
  openQuotes : gset Z;
  labelInfo : QString;
  getProperty : bool
}.

Definition setProperty (p : bool) (d : TextBlockData) : TextBlockData :=
  mkTextBlockData (openNests d) (openQuotes d) (labelInfo d) p.

Definition insertNestInfo (nests : Z) (d : TextBlockData) : TextBlockData :=
  mkTextBlockData nests (openQuotes d) (labelInfo d) (getProperty d).

Definition insertOpenQuotes (q : gset Z) (d : TextBlockData) : TextBlockData :=
  mkTextBlockData (openNests d) (openQuotes d ∪ q) (labelInfo d) (getProperty d).

(** A freshly created [TextBlockData]. *)
Definition newTextBlockData : TextBlockData := mkTextBlockData 0 ∅ [] false.

(** The highlighter while it formats one block: what it knows of the
    previous block, the formats written so far (one per character, as
    [QSyntaxHighlighter] keeps them), the state and the user data of the
    current block. *)
Record Highlighter := mkHighlighter {
  progLan : QString;
  previousBlockState : Z;
  previousBlockData : option TextBlockData;
  formatChanges : list Format;
  currentBlockState : Z;
  currentBlockData : option TextBlockData
}.

Definition setCurrentBlockState (s : Z) (h : Highlighter) : Highlighter :=
  mkHighlighter (progLan h) (previousBlockState h) (previousBlockData h)
                (formatChanges h) s (currentBlockData h).

Definition setCurrentBlockData (d : option TextBlockData) (h : Highlighter) : Highlighter :=
  mkHighlighter (progLan h) (previousBlockState h) (previousBlockData h)
                (formatChanges h) (currentBlockState h) d.

Definition setFormatChanges (l : list Format) (h : Highlighter) : Highlighter :=
  mkHighlighter (progLan h) (previousBlockState h) (previousBlockData h)
                l (currentBlockState h) (currentBlockData h).

(** [QSyntaxHighlighter::format]: the empty format outside the line. *)
Definition format (h : Highlighter) (pos : Z) : Format :=
  if (pos <? 0) || (Z.of_nat (length (formatChanges h)) <=? pos) then defaultFormat
  else default defaultFormat (formatChanges h !! Z.to_nat pos).

(** Writing [f] to the positions [start .. stop - 1] of the formats. *)
Definition fillFormats (start stop : nat) (f : Format) (l : list Format) : list Format :=
  take start l ++ replicate (stop - start) f ++ drop (start + (stop - start)) l.

(** [QSyntaxHighlighter::setFormat]: nothing when [start] lies outside the
    line, otherwise the range clipped to the end of the line. *)
Definition setFormat (start count : Z) (f : Format) (h : Highlighter) : Highlighter :=
  let size := Z.of_nat (length (formatChanges h)) in
  if (start <? 0) || (size <=? start) then h
  else
    let stop := Z.min (start + count) size in
    setFormatChanges (fillFormats (Z.to_nat start) (Z.to_nat stop) f (formatChanges h)) h.

(** *** Text access and searches *)

Definition textLength (text : QString) : Z := Z.of_nat (length text).

(** [text.at(i)], defined inside the line. *)
Definition charAt (text : QString) (i : Z) : option ascii :=
  if i <? 0 then None else text !! Z.to_nat i.

(** [text.mid(pos, n)] for [pos], [n] not negative. *)
Definition mid (text : QString) (pos n : Z) : QString :=
  take (Z.to_nat n) (drop (Z.to_nat pos) text).

(** [QChar::isSpace] on the characters of the model. *)
Definition isSpace (c : ascii) : bool :=
  let n := nat_of_ascii c in
  ((9 <=? n) && (n <=? 13) || (n =? 32) || (n =? 133) || (n =? 160))%nat.

(** First position not before [from] whose character satisfies [p], or
    -1; [pos] is the offset of the head of [l]. *)
Fixpoint findFrom (p : ascii -> bool) (l : QString) (pos from : Z) : Z :=
  match l with
  | [] => -1
  | c :: l' => if (from <=? pos) && p c then pos else findFrom p l' (pos + 1) from
  end.

(** Modelled from the spec: the quote markers of the grammar
    ([quoteMark], [singleQuoteMark], [mixedQuoteMark]) are regular
    expressions set up in [highlighter.cpp], not among the sources; for
    the shell they are the double quote, the single quote, and either of
    them, each matching one character. *)
Inductive QuoteExpression : Type :=
| mixedQuoteMark
| quoteMark
| singleQuoteMark.

Global Instance QuoteExpression_eq_dec : EqDecision QuoteExpression.
Proof. solve_decision. Defined.

(** The double quote character. *)
Definition doubleQuoteChar : ascii := "034"%char.

Definition isDoubleQuoteChar (c : ascii) : bool := bool_decide (c = doubleQuoteChar).
Definition isSingleQuoteChar (c : ascii) : bool := bool_decide (c = "'"%char).

Definition quoteMatches (q : QuoteExpression) (c : ascii) : bool :=
  match q with
  | mixedQuoteMark => isDoubleQuoteChar c || isSingleQuoteChar c
  | quoteMark => isDoubleQuoteChar c
  | singleQuoteMark => isSingleQuoteChar c
  end.

(** [text.indexOf(quoteExpression, from)]. *)
Definition indexOfQuote (q : QuoteExpression) (text : QString) (from : Z) : Z :=
  findFrom (quoteMatches q) text 0 from.

(** [text.at(index) == quoteMark.pattern().at(0)]. *)
Definition isDoubleQuoteAt (text : QString) (index : Z) : bool :=
  match charAt text index with
  | Some c => isDoubleQuoteChar c
  | None => false
  end.

(** [text.indexOf(codeBlockStart, from)] for the literal "$(". *)
Fixpoint findCodeBlockStart (l : QString) (pos from : Z) : Z :=
  match l with
  | c :: l' =>
    match l' with
    | d :: _ =>
      if (from <=? pos) && bool_decide (c = "$"%char) && bool_decide (d = "("%char)
      then pos
      else findCodeBlockStart l' (pos + 1) from
    | [] => -1
    end
  | [] => -1
  end.

Definition indexOfCodeBlockStart (text : QString) (from : Z) : Z :=
  findCodeBlockStart text 0 from.

(** A regular expression the sources do not define is given by what it
    matches: [re text pos = Some n] when it matches [n] characters of
    [text] starting at offset [pos]. *)
Definition Regex := QString -> Z -> option Z.

Fixpoint scanRegex (re : Regex) (text : QString) (n : nat) (pos : Z) : option (Z * Z) :=
  match n with
  | O => None
  | S n' =>
    match re text pos with
    | Some captured => Some (pos, captured)
    | None => scanRegex re text n' (pos + 1)
    end
  end.

(** [text.indexOf(re, from, &match)]: the offset of the first match not
    before [from] with its captured length, or -1. *)
Definition indexOfRegex (re : Regex) (text : QString) (from : Z) : Z * Z :=
  let from := Z.max 0 from in
  match scanRegex re text (Z.to_nat (textLength text + 1 - from)) from with
  | Some r => r
  | None => (-1, 0)
  end.

(** *** Loops

    A [while] loop runs on fuel: [None] means the fuel ran out. *)
Inductive LoopStep (S : Type) : Type :=
| Continue (s : S)
| Break (s : S).
Arguments Continue {S} s.
Arguments Break {S} s.

Fixpoint while {S : Type} (fuel : nat) (cond : S -> bool)
         (body : S -> option (LoopStep S)) (s : S) : option S :=
  match fuel with
  | O => None
  | S fuel' =>
    if cond s then
      match body s with
      | Some (Continue s') => while fuel' cond body s'
      | Some (Break s') => Some s'
      | None => None
      end
    else Some s
  end.

(** A loop whose body neither fails nor breaks. *)
Definition whileDo {S : Type} (fuel : nat) (cond : S -> bool) (body : S -> S) (s : S)
  : option S :=
  while fuel cond (fun s => Some (Continue (body s))) s.

(** *** Helpers defined outside this file

    [isEscapedQuote], [isEscapedChar], [isQuoted] and
    [setFormatWithoutOverwrite] are members of the highlighter defined in
    [highlighter.cpp]; [hereDocDelimiter] and [urlPattern] are regular
    expressions set up there.  None of them is among the sources: they
    are parameters of the model.  The predicates may read the
    highlighter. *)
Class Helpers := {
  isEscapedQuote : Highlighter -> QString -> Z -> bool -> bool;
  isEscapedChar : Highlighter -> QString -> Z -> bool;
  isQuoted : Highlighter -> QString -> Z -> bool -> bool;
  setFormatWithoutOverwrite : Z -> Z -> Format -> Format -> Highlighter -> Highlighter;
  hereDocDelimiter : Regex;
  urlPattern : Regex
}.

Section ShellLexer.

Context {states : BlockStates} {helpers : Helpers}.

(** [SH_SkipQuote] *)
Definition SH_SkipQuote (h : Highlighter) (text : QString) (pos : Z) (isStartQuote : bool)
  : bool :=
  if isEscapedQuote h text pos isStartQuote then true
  else
    let fmt := format h pos in
    bool_decide (fmt = neutralFormat) || bool_decide (fmt = commentFormat)
    || bool_decide (fmt = urlFormat) || bool_decide (fmt = quoteFormat)
    || bool_decide (fmt = altQuoteFormat) || bool_decide (fmt = urlInsideQuoteFormat).

(** [highlightUrlsWithinQuote]; the loop state is [urlIndex] and the
    highlighter, the loop ends when [indexOf] finds nothing. *)
Definition highlightUrlsWithinQuote (fuel : nat) (text : QString) (start length : Z)
           (h : Highlighter) : option Highlighter :=
  let segment := mid text start length in
  r ← while fuel (fun _ => true)
        (fun '(urlIndex, h) =>
           let '(found, captured) := indexOfRegex urlPattern segment urlIndex in
           if found >? -1
           then Some (Continue (found + captured,
                                setFormat (start + found) captured urlInsideQuoteFormat h))
           else Some (Break (found, h)))
        (0, h);
  Some (snd r).

(** The position of the here-doc delimiter of the current line, when
    the block carries a label (lines 36-45). *)
Definition findHereDocDelimPos (fuel : nat) (text : QString) (h : Highlighter) : option Z :=
  match currentBlockData h with
  | Some curData =>
    if negb (isEmpty (labelInfo curData)) then
      whileDo fuel
              (fun pos => (pos >? -1) && isQuoted h text pos true)
              (fun pos => fst (indexOfRegex hereDocDelimiter text (pos + 2)))
              (fst (indexOfRegex hereDocDelimiter text 0))
    else Some (-1)
  | None => Some (-1)
  end.

(** [while (SH_SkipQuote(text, index, isStart)) index = text.indexOf(q, index + 1);] *)
Definition skipQuotes (fuel : nat) (h : Highlighter) (text : QString)
           (q : QuoteExpression) (isStartQuote : bool) (index : Z) : option Z :=
  whileDo fuel (fun i => SH_SkipQuote h text i isStartQuote)
          (fun i => indexOfQuote q text (i + 1)) index.

(** The state written when no closing quote is found (lines 112-117). *)
Definition unterminatedQuoteState (quoteExpression : QuoteExpression) (initialState : Z) : Z :=
  if decide (quoteExpression = quoteMark) then
    if initialState =? SH_DoubleQuoteState then SH_MixedDoubleQuoteState
    else if initialState =? SH_SingleQuoteState then SH_MixedSingleQuoteState
    else doubleQuoteState
  else singleQuoteState.

(** The search for the end quote that belongs to the quote at [index]
    (lines 91-105). *)
Definition findEndQuote (fuel : nat) (text : QString) (wasQuoted : bool) (h : Highlighter)
           (index : Z) (quoteExpression : QuoteExpression) : option Z :=
  let endIndex :=
    if (index =? 0) && wasQuoted then indexOfQuote quoteExpression text 0
    else indexOfQuote quoteExpression text (index + 1) in
  skipQuotes fuel h text quoteExpression false endIndex.

(** One iteration of the main loop of [SH_MultiLineQuote] (lines
    80-152); the loop state is [index], [quoteExpression] and the
    highlighter. *)
Definition quoteLoopBody (fuel : nat) (text : QString) (wasQuoted : bool)
           (initialState hereDocDelimPos : Z)
           (st : Z * QuoteExpression * Highlighter)
  : option (LoopStep (Z * QuoteExpression * Highlighter)) :=
  let '(index, quoteExpression, h) := st in
  let quoteExpression :=
    if decide (quoteExpression = mixedQuoteMark) then
      if isDoubleQuoteAt text index then quoteMark else singleQuoteMark
    else quoteExpression in
  endIndex ← findEndQuote fuel text wasQuoted h index quoteExpression;
  let '(quoteLength, h) :=
    if endIndex =? -1 then
      let h :=
        if negb (bool_decide (quoteExpression = quoteMark)) || (hereDocDelimPos =? -1) then
          setCurrentBlockState (unterminatedQuoteState quoteExpression initialState) h
        else
          match currentBlockData h with
          | Some curData =>
            if openNests curData >? 0
            then setCurrentBlockData (Some (setProperty true curData)) h
            else h
          | None => h
          end in
      (textLength text - index, h)
    else (endIndex - index + 1, h) in
  let h :=
    if decide (quoteExpression = quoteMark)
    then setFormatWithoutOverwrite index quoteLength quoteFormat neutralFormat h
    else setFormat index quoteLength altQuoteFormat h in
  h ← highlightUrlsWithinQuote fuel text index quoteLength h;
  index ← skipQuotes fuel h text mixedQuoteMark true
          (indexOfQuote mixedQuoteMark text (index + quoteLength));
  let index :=
    if (hereDocDelimPos >? -1) && (index >? hereDocDelimPos) then -1 else index in
  Some (Continue (index, mixedQuoteMark, h)).

(** Whether the previous block leaves a quote open (lines 21-33). *)
Definition wasDoubleQuotedBefore (h : Highlighter) : bool :=
  let prevState := previousBlockState h in
  let wasDoubleQuoted :=
    (prevState =? doubleQuoteState) || (prevState =? SH_MixedDoubleQuoteState)
    || (prevState =? SH_MixedSingleQuoteState) in
  match previousBlockData h with
  | Some prevData => if getProperty prevData then true else wasDoubleQuoted
  | None => wasDoubleQuoted
  end.

Definition wasQuotedBefore (h : Highlighter) : bool :=
  let prevState := previousBlockState h in
  let wasDoubleQuoted :=
    (prevState =? doubleQuoteState) || (prevState =? SH_MixedDoubleQuoteState)
    || (prevState =? SH_MixedSingleQuoteState) in
  let wasQuoted := wasDoubleQuoted || (prevState =? singleQuoteState) in
  match previousBlockData h with
  | Some prevData => if getProperty prevData then true else wasQuoted
  | None => wasQuoted
  end.

(** Where the main loop starts and with which marker (lines 49-77). *)
Definition firstQuote (fuel : nat) (text : QString) (hereDocDelimPos : Z) (h : Highlighter)
  : option (Z * QuoteExpression) :=
  if negb (wasQuotedBefore h) then
    index ← skipQuotes fuel h text mixedQuoteMark true (indexOfQuote mixedQuoteMark text 0);
    let index :=
      if (index >=? 0) && (hereDocDelimPos >? -1) && (index >? hereDocDelimPos)
      then -1 else index in
    if index >=? 0 then
      Some (index, if isDoubleQuoteAt text index then quoteMark else singleQuoteMark)
    else Some (index, mixedQuoteMark)
  else
    Some (0, if wasDoubleQuotedBefore h then quoteMark else singleQuoteMark).

(** [Highlighter::SH_MultiLineQuote] *)
Definition SH_MultiLineQuote (fuel : nat) (text : QString) (h : Highlighter)
  : option Highlighter :=
  let initialState := currentBlockState h in
  let wasQuoted := wasQuotedBefore h in
  hereDocDelimPos ← findHereDocDelimPos fuel text h;
  '(index, quoteExpression) ← firstQuote fuel text hereDocDelimPos h;
  r ← while fuel (fun '(index, _, _) => index >=? 0)
        (quoteLoopBody fuel text wasQuoted initialState hereDocDelimPos)
        (index, quoteExpression, h);
  Some (snd r).

(** *** formatInsideCommand and its helpers *)

(** [handleSingleQuote]; the reference parameter [nestCount] is not
    used by the body. The result is the new [currentIndex] and the
    highlighter. *)
Definition handleSingleQuote (fuel : nat) (text : QString) (currentIndex : Z)
           (inComment doubleQuoted isHereDocStart : bool) (h : Highlighter)
  : option (Z * Highlighter) :=
  if inComment then Some (currentIndex + 1, setFormat currentIndex 1 commentFormat h)
  else if doubleQuoted then Some (currentIndex + 1, setFormat currentIndex 1 quoteFormat h)
  else if isEscapedQuote h text currentIndex true then Some (currentIndex + 1, h)
  else
    end_ ← whileDo fuel (fun e => isEscapedQuote h text e false)
                   (fun e => indexOfQuote singleQuoteMark text (e + 1))
                   (indexOfQuote singleQuoteMark text (currentIndex + 1));
    if end_ =? -1 then
      let h := setFormat currentIndex (textLength text - currentIndex) altQuoteFormat h in
      let h := if negb isHereDocStart then setCurrentBlockState SH_SingleQuoteState h else h in
      Some (textLength text, h)
    else
      Some (end_ + 1, setFormat currentIndex (end_ - currentIndex + 1) altQuoteFormat h).

(** [handleDoubleQuote]: new [currentIndex], new [doubleQuoted]. *)
Definition handleDoubleQuote (text : QString) (currentIndex : Z)
           (inComment doubleQuoted : bool) (h : Highlighter) : Z * bool * Highlighter :=
  if inComment then (currentIndex + 1, doubleQuoted, setFormat currentIndex 1 commentFormat h)
  else if negb (isEscapedQuote h text currentIndex true) then
    (currentIndex + 1, negb doubleQuoted, setFormat currentIndex 1 quoteFormat h)
  else (currentIndex + 1, doubleQuoted, h).

(** What a call of [formatInsideCommand] gives back: the returned index
    and the reference parameters [nestCount] and [quotes]. *)
Definition CommandResult : Type := Z * Z * gset Z * Highlighter.

(** [handleDollarSign]; [recurse minOpenNests nestCount quotes index h]
    stands for the call of [formatInsideCommand]. The reference
    parameter [parenDepth] is not used by the body. *)
Definition handleDollarSign
           (recurse : Z -> Z -> gset Z -> Z -> Highlighter -> option CommandResult)
           (text : QString) (currentIndex : Z) (inComment doubleQuoted : bool)
           (nestCount : Z) (quotes : gset Z) (h : Highlighter) : option CommandResult :=
  if inComment then
    Some (currentIndex + 1, nestCount, quotes, setFormat currentIndex 1 commentFormat h)
  else if bool_decide (mid text currentIndex 2 = str "$(") then
    let h := setFormat currentIndex 2 neutralFormat h in
    let nestCount := nestCount + 1 in
    recurse (nestCount - 1) nestCount quotes (currentIndex + 2) h
  else
    let h := if doubleQuoted then setFormat currentIndex 1 quoteFormat h
             else setFormat currentIndex 1 neutralFormat h in
    Some (currentIndex + 1, nestCount, quotes, h).

(** [handleOpenParenthesis]: new [currentIndex], new [parenDepth]. *)
Definition handleOpenParenthesis (text : QString) (currentIndex : Z)
           (doubleQuoted inComment : bool) (parenDepth : Z) (h : Highlighter)
  : Z * Z * Highlighter :=
  if doubleQuoted then (currentIndex + 1, parenDepth, setFormat currentIndex 1 quoteFormat h)
  else if inComment then
    (currentIndex + 1, parenDepth, setFormat currentIndex 1 commentFormat h)
  else
    let h := setFormat currentIndex 1 neutralFormat h in
    let parenDepth := if negb (isEscapedChar h text currentIndex) then parenDepth + 1
                      else parenDepth in
    (currentIndex + 1, parenDepth, h).

(** The reference parameters of [handleCloseParenthesis] and its
    result. The assignment to the by-value parameter [initialOpenNests]
    has no effect on the caller. *)
Record CloseParenthesis := mkCloseParenthesis {
  closedBlock : bool;
  cpIndex : Z;
  cpParenDepth : Z;
  cpNestCount : Z;
  cpQuotes : gset Z;
  cpHighlighter : Highlighter
}.

Definition handleCloseParenthesis (text : QString) (currentIndex : Z)
           (doubleQuoted inComment : bool) (parenDepth nestCount initialOpenNests : Z)
           (quotes : gset Z) (h : Highlighter) : CloseParenthesis :=
  if doubleQuoted then
    mkCloseParenthesis false (currentIndex + 1) parenDepth nestCount quotes
                       (setFormat currentIndex 1 quoteFormat h)
  else if negb (isEscapedChar h text currentIndex) then
    let parenDepth := parenDepth - 1 in
    if parenDepth <? 0 then
      mkCloseParenthesis true (currentIndex + 1) 0 (nestCount - 1)
                         (quotes ∖ {[initialOpenNests]})
                         (setFormat currentIndex 1 neutralFormat h)
    else if inComment then
      mkCloseParenthesis false (currentIndex + 1) parenDepth nestCount quotes
                         (setFormat currentIndex 1 commentFormat h)
    else
      mkCloseParenthesis false (currentIndex + 1) parenDepth nestCount quotes
                         (setFormat currentIndex 1 neutralFormat h)
  else if inComment then
    mkCloseParenthesis false (currentIndex + 1) parenDepth nestCount quotes
                       (setFormat currentIndex 1 commentFormat h)
  else
    mkCloseParenthesis false (currentIndex + 1) parenDepth nestCount quotes
                       (setFormat currentIndex 1 neutralFormat h).

(** [handleCommentSign]: new [currentIndex], new [inComment]. *)
Definition handleCommentSign (text : QString) (currentIndex : Z)
           (inComment doubleQuoted : bool) (h : Highlighter) : Z * bool * Highlighter :=
  if inComment then (currentIndex + 1, inComment, setFormat currentIndex 1 commentFormat h)
  else if doubleQuoted then
    (currentIndex + 1, inComment, setFormat currentIndex 1 quoteFormat h)
  else if (currentIndex =? 0)
          || ((currentIndex >? 0)
              && match charAt text (currentIndex - 1) with
                 | Some c => isSpace c
                 | None => false
                 end)
  then (currentIndex + 1, true, setFormat currentIndex 1 commentFormat h)
  else (currentIndex + 1, inComment, setFormat currentIndex 1 neutralFormat h).

(** [handleDefaultChar] *)
Definition handleDefaultChar (currentIndex : Z) (inComment doubleQuoted : bool)
           (h : Highlighter) : Z * Highlighter :=
  if inComment then (currentIndex + 1, setFormat currentIndex 1 commentFormat h)
  else if doubleQuoted then (currentIndex + 1, setFormat currentIndex 1 quoteFormat h)
  else (currentIndex + 1, setFormat currentIndex 1 neutralFormat h).

(** The variables of one activation of [formatInsideCommand]: the
    locals [currentIndex], [parenDepth], [doubleQuoted], [inComment],
    the reference parameters [nestCount] and [quotes], and the
    highlighter. *)
Record CommandScan := mkCommandScan {
  currentIndex : Z;
  nestCount : Z;
  quotes : gset Z;
  parenDepth : Z;
  doubleQuoted : bool;
  inComment : bool;
  scanHighlighter : Highlighter
}.

(** Entry of [formatInsideCommand] (lines 195-201). *)
Definition startCommandScan (nestCount : Z) (quotes : gset Z) (index : Z) (h : Highlighter)
  : CommandScan :=
  mkCommandScan index nestCount quotes 0 (bool_decide (nestCount ∈ quotes)) false h.

(** Exit of [formatInsideCommand] (lines 256-272). *)
Definition finishCommandScan (minOpenNests initialOpenNests : Z) (isHereDocStart : bool)
           (s : CommandScan) : CommandResult :=
  let nestCount := if nestCount s <? minOpenNests then minOpenNests else nestCount s in
  let h := scanHighlighter s in
  if doubleQuoted s then
    let h :=
      if negb isHereDocStart && negb (currentBlockState h =? SH_SingleQuoteState)
      then setCurrentBlockState SH_DoubleQuoteState h else h in
    (currentIndex s, nestCount, quotes s ∪ {[initialOpenNests]}, h)
  else
    (currentIndex s, nestCount, quotes s ∖ {[initialOpenNests]}, h).

(** [while (currentIndex < textLen && format(currentIndex) == commentFormat) ++currentIndex;] *)
Definition skipCommentFormats (fuel : nat) (text : QString) (h : Highlighter) (index : Z)
  : option Z :=
  whileDo fuel
          (fun i => (i <? textLength text) && bool_decide (format h i = commentFormat))
          (fun i => i + 1) index.

(** One iteration of the scan loop of [formatInsideCommand] (lines
    204-253), entered with the loop condition true. *)
Definition commandStep
           (recurse : Z -> Z -> gset Z -> Z -> Highlighter -> option CommandResult)
           (fuel : nat) (text : QString) (initialOpenNests : Z) (isHereDocStart : bool)
           (s : CommandScan) : option (LoopStep CommandScan) :=
  let h := scanHighlighter s in
  index ← skipCommentFormats fuel text h (currentIndex s);
  if index >=? textLength text then
    Some (Break (mkCommandScan index (nestCount s) (quotes s) (parenDepth s)
                               (doubleQuoted s) (inComment s) h))
  else
    match charAt text index with
    | None => None
    | Some c =>
      if bool_decide (c = "'"%char) then
        '(index, h) ← handleSingleQuote fuel text index (inComment s) (doubleQuoted s)
                                        isHereDocStart h;
        Some (Continue (mkCommandScan index (nestCount s) (quotes s) (parenDepth s)
                                      (doubleQuoted s) (inComment s) h))
      else if bool_decide (c = doubleQuoteChar) then
        let '(index, dq, h) := handleDoubleQuote text index (inComment s) (doubleQuoted s) h in
        Some (Continue (mkCommandScan index (nestCount s) (quotes s) (parenDepth s)
                                      dq (inComment s) h))
      else if bool_decide (c = "$"%char) then
        '(index, nests, qs, h) ← handleDollarSign recurse text index (inComment s)
                                  (doubleQuoted s) (nestCount s) (quotes s) h;
        Some (Continue (mkCommandScan index nests qs (parenDepth s)
                                      (doubleQuoted s) (inComment s) h))
      else if bool_decide (c = "("%char) then
        let '(index, depth, h) :=
          handleOpenParenthesis text index (doubleQuoted s) (inComment s) (parenDepth s) h in
        Some (Continue (mkCommandScan index (nestCount s) (quotes s) depth
                                      (doubleQuoted s) (inComment s) h))
      else if bool_decide (c = ")"%char) then
        let r := handleCloseParenthesis text index (doubleQuoted s) (inComment s)
                                        (parenDepth s) (nestCount s) initialOpenNests
                                        (quotes s) h in
        Some (Continue (mkCommandScan (cpIndex r) (cpNestCount r) (cpQuotes r)
                                      (cpParenDepth r) (doubleQuoted s) (inComment s)
                                      (cpHighlighter r)))
      else if bool_decide (c = "#"%char) then
        let '(index, ic, h) := handleCommentSign text index (inComment s) (doubleQuoted s) h in
        Some (Continue (mkCommandScan index (nestCount s) (quotes s) (parenDepth s)
                                      (doubleQuoted s) ic h))
      else
        let '(index, h) := handleDefaultChar index (inComment s) (doubleQuoted s) h in
        Some (Continue (mkCommandScan index (nestCount s) (quotes s) (parenDepth s)
                                      (doubleQuoted s) (inComment s) h))
    end.

Definition commandLoopCondition (text : QString) (minOpenNests : Z) (s : CommandScan) : bool :=
  (nestCount s >? minOpenNests) && (currentIndex s <? textLength text).

(** The scan loop of [formatInsideCommand]; a nested "$(" runs the
    whole function again, on one unit of fuel less. [loopFuel] is the
    fuel handed to the inner loops of the helpers. *)
Fixpoint scanCommand (loopFuel fuel : nat) (text : QString)
         (minOpenNests initialOpenNests : Z) (isHereDocStart : bool) (s : CommandScan)
  : option CommandScan :=
  match fuel with
  | O => None
  | S fuel' =>
    if commandLoopCondition text minOpenNests s then
      match commandStep
              (fun minOpenNests' nestCount' quotes' index' h' =>
                 s' ← scanCommand loopFuel fuel' text minOpenNests' nestCount' isHereDocStart
                                  (startCommandScan nestCount' quotes' index' h');
                 Some (finishCommandScan minOpenNests' nestCount' isHereDocStart s'))
              loopFuel text initialOpenNests isHereDocStart s with
      | Some (Continue s') =>
        scanCommand loopFuel fuel' text minOpenNests initialOpenNests isHereDocStart s'
      | Some (Break s') => Some s'
      | None => None
      end
    else Some s
  end.

(** [Highlighter::formatInsideCommand] *)
Definition formatInsideCommand (fuel : nat) (text : QString) (minOpenNests nestCount : Z)
           (quotes : gset Z) (isHereDocStart : bool) (index : Z) (h : Highlighter)
  : option CommandResult :=
  s ← scanCommand fuel fuel text minOpenNests nestCount isHereDocStart
                  (startCommandScan nestCount quotes index h);
  Some (finishCommandScan minOpenNests nestCount isHereDocStart s).

(** [closeOpenQuoteFromPreviousBlock] *)
Definition closeOpenQuoteFromPreviousBlock (fuel : nat) (text : QString) (prevState : Z)
           (isHereDocStart : bool) (h : Highlighter) : option (Z * Highlighter) :=
  if (prevState =? SH_SingleQuoteState) || (prevState =? SH_MixedSingleQuoteState) then
    end_ ← whileDo fuel (fun e => isEscapedQuote h text e false)
                   (fun e => indexOfQuote singleQuoteMark text (e + 1))
                   (indexOfQuote singleQuoteMark text 0);
    if end_ =? -1 then
      let h := setFormat 0 (textLength text) altQuoteFormat h in
      let h := if negb isHereDocStart then setCurrentBlockState SH_SingleQuoteState h else h in
      Some (textLength text, h)
    else Some (end_ + 1, setFormat 0 (end_ + 1) altQuoteFormat h)
  else Some (0, h).

(** One iteration of the loop of [SH_CmndSubstVar] (lines 512-527) over
    [startIndex], [nestCount], [openQuotes] and the highlighter. *)
Definition substLoopBody (fuel : nat) (text : QString) (isHereDocStart : bool)
           (st : CommandResult) : option (LoopStep CommandResult) :=
  let '(startIndex, nestCount, openQuotes, h) := st in
  if nestCount =? 0 then
    let foundPos := indexOfCodeBlockStart text startIndex in
    if (foundPos =? -1) || bool_decide (format h foundPos = commentFormat) then
      Some (Break st)
    else
      let nestCount := nestCount + 1 in
      let h := setFormat foundPos 2 neutralFormat h in
      let startIndex := foundPos + 2 in
      r ← formatInsideCommand fuel text 0 nestCount openQuotes isHereDocStart startIndex h;
      Some (Continue r)
  else
    r ← formatInsideCommand fuel text 0 nestCount openQuotes isHereDocStart startIndex h;
    Some (Continue r).

(** What [SH_CmndSubstVar] leaves behind: the highlighter, the block
    data it was handed, the locals [nestCount] and [openQuotes] at the
    end, and the returned flag. *)
Record CmndSubst := mkCmndSubst {
  substHighlighter : Highlighter;
  substBlockData : TextBlockData;
  substNestCount : Z;
  substOpenQuotes : gset Z;
  rehighlightNext : bool
}.

(** [SH_CmndSubstVar] past its guard (lines 489-547), on the block data
    [currentBlockData] points to. *)
Definition substituteCommands (fuel : nat) (text : QString) (blockData : TextBlockData)
           (oldOpenNests : Z) (oldOpenQuotes : gset Z) (h : Highlighter)
  : option CmndSubst :=
  let prevState := previousBlockState h in
  let curState := currentBlockState h in
  let isHereDocStart := (curState <? -1) || (curState >=? endState) in
  let nestCount := match previousBlockData h with
                   | Some prevData => openNests prevData
                   | None => 0
                   end in
  let openQuotes := match previousBlockData h with
                    | Some prevData => openQuotes prevData
                    | None => ∅
                    end in
  '(startIndex, h) ←
    (if (nestCount >? 0)
        && ((prevState =? SH_SingleQuoteState) || (prevState =? SH_DoubleQuoteState)
            || (prevState =? SH_MixedDoubleQuoteState)
            || (prevState =? SH_MixedSingleQuoteState))
     then closeOpenQuoteFromPreviousBlock fuel text prevState isHereDocStart h
     else Some (0, h));
  '(startIndex, nestCount, openQuotes, h) ←
    while fuel (fun '(startIndex, _, _, _) => startIndex <? textLength text)
          (substLoopBody fuel text isHereDocStart)
          (startIndex, nestCount, openQuotes, h);
  let blockData :=
    if negb (bool_decide (openQuotes = ∅)) then insertOpenQuotes openQuotes blockData
    else blockData in
  let blockData := if nestCount >? 0 then insertNestInfo nestCount blockData else blockData in
  let h :=
    if (nestCount >? 0) && isHereDocStart then
      setCurrentBlockState
        (if curState >? 0 then curState + 2 * (nestCount + 3)
         else curState - 2 * (nestCount + 3)) h
    else h in
  Some (mkCmndSubst h blockData nestCount openQuotes
                    (negb (bool_decide (nestCount = oldOpenNests))
                     || negb (bool_decide (openQuotes = oldOpenQuotes)))).

(** What the caller of [SH_CmndSubstVar] sees: the flag, the
    highlighter and the block data behind the pointer. *)
Definition SH_CmndSubstVar (fuel : nat) (text : QString)
           (currentBlockData : option TextBlockData)
           (oldOpenNests : Z) (oldOpenQuotes : gset Z) (h : Highlighter)
  : option (bool * Highlighter * option TextBlockData) :=
  match currentBlockData with
  | Some blockData =>
    if negb (bool_decide (progLan h = str "sh")) then Some (false, h, currentBlockData)
    else
      r ← substituteCommands fuel text blockData oldOpenNests oldOpenQuotes h;
      Some (rehighlightNext r, substHighlighter r, Some (substBlockData r))
  | None => Some (false, h, None)
  end.

End ShellLexer.

(** The fuel that is enough for every loop over a line. *)
Definition lineFuel (text : QString) : nat := S (S (S (length text))).

(** What the proofs ask of the helpers defined outside this file. *)
Class HelpersSound `{Helpers} : Prop := {
  (** no quote is escaped at the position -1 of a failed search *)
  isEscapedQuote_notFound :
    forall h text isStartQuote, isEscapedQuote h text (-1) isStartQuote = false;
  (** a URL is not empty *)
  urlPattern_nonempty :
    forall text pos captured, urlPattern text pos = Some captured -> 0 < captured;
  (** [setFormatWithoutOverwrite] writes formats of the current line and
      nothing else *)
  setFormatWithoutOverwrite_length :
    forall start count f old h,
      length (formatChanges (setFormatWithoutOverwrite start count f old h))
      = length (formatChanges h);
  setFormatWithoutOverwrite_frame :
    forall start count f old h,
      setFormatWithoutOverwrite start count f old h
      = setFormatChanges (formatChanges (setFormatWithoutOverwrite start count f old h)) h
}.

(** *** Notions used by the statements about the shell lexer *)

(** Enough fuel for the loops over [text]. *)
Definition enoughFuel (text : QString) (fuel : nat) : Prop := (lineFuel text <= fuel)%nat.

(** The positions the main loop of [SH_MultiLineQuote] can stand at: the
    start of a quote inside the line, or the start of the line when the
    quote is continued from the previous block. *)
Definition quotePosition (text : QString) (index : Z) : Prop :=
  0 <= index /\ (index < textLength text \/ index = 0).

(** What a call of [formatInsideCommand] entered at [index] with the
    highlighter [h] guarantees of its result. *)
Definition commandResultOk (text : QString) (minOpenNests index : Z) (h : Highlighter)
           (r : Z * Z * gset Z * Highlighter) : Prop :=
  let '(index', nestCount', _, h') := r in
  index <= index' /\ index' <= Z.max index (textLength text)
  /\ minOpenNests <= nestCount'
  /\ length (formatChanges h') = length (formatChanges h).

(** A recursive call is sound up to [bound] characters left to scan. *)
Definition recursionSound (text : QString) (bound : Z)
           (recurse : Z -> Z -> gset Z -> Z -> Highlighter
                      -> option (Z * Z * gset Z * Highlighter)) : Prop :=
  forall (minOpenNests nestCount : Z) (quotes : gset Z) (index : Z) (h : Highlighter),
    0 <= index -> index <= textLength text -> textLength text - index < bound ->
    exists r, recurse minOpenNests nestCount quotes index h = Some r
              /\ commandResultOk text minOpenNests index h r.

(** A span covers the positions from its start offset on, as many as
    its length. *)
Definition covers (sp : FormatSpan) (i : nat) : Prop :=
  (startOffset sp <= i < startOffset sp + spanLength sp)%nat.

Definition coveredOnce (spans : list FormatSpan) (i : nat) : Prop :=
  exists sp, sp ∈ spans /\ covers sp i
             /\ forall sp', sp' ∈ spans -> covers sp' i -> sp' = sp.

(** The spans of a line of [n] characters are contiguous and do not
    overlap, their lengths sum to [n], and every position of the line
    lies in exactly one of them. *)
Definition spanCoverage (spans : list FormatSpan) (n : nat) : Prop :=
  tiles 0 spans n /\ totalLength spans = n
  /\ forall i, (i < n)%nat -> coveredOnce spans i.

(** The state a loop iteration ends in. *)
Definition stepState {S : Type} (r : LoopStep S) : S :=
  match r with
  | Continue s => s
  | Break s => s
  end.

(** [QSyntaxHighlighter] hands the state a block was left in to the next
    block as its [previousBlockState()], and the block's user data as the
    data of the previous block. *)
Definition enterNextBlock (h : Highlighter) (nextText : QString) : Highlighter :=
  mkHighlighter (progLan h) (currentBlockState h) (currentBlockData h)
                (replicate (length nextText) defaultFormat) 0 (Some newTextBlockData).

(** *** Blocks that open a here-document *)

Definition insertInfo (label : QString) (d : TextBlockData) : TextBlockData :=
  mkTextBlockData (openNests d) (openQuotes d) label (getProperty d).

Section ShellLine.

Context {states : BlockStates}.

(** Modelled from the spec: the here-doc detection ([isHereDocument])
    is not among the sources.  Following specification 4.1, a line with
    a here-doc delimiter records the pending label, and its state
    becomes a here-doc continuation marker: a state from [endState] on
    (line 491). *)
Definition openHereDoc (label : QString) (h : Highlighter) : Highlighter :=
  setCurrentBlockState (endState + 1)
    (setCurrentBlockData (option_map (insertInfo label) (currentBlockData h)) h).

End ShellLine.

(** *** Sample parameters and inputs for the shell lexer *)

(** Values for the block states, to run the model on examples: distinct
    positive numbers below [endState]. *)
Definition sampleStates : BlockStates := {|
  doubleQuoteState := 3;
  singleQuoteState := 4;
  SH_DoubleQuoteState := 5;
  SH_SingleQuoteState := 6;
  SH_MixedDoubleQuoteState := 7;
  SH_MixedSingleQuoteState := 8;
  endState := 47
|}.

(** The number of backslashes at the head of a reversed prefix. *)
Fixpoint leadingBackslashes (reversed : QString) : nat :=
  match reversed with
  | c :: rest => if bool_decide (c = "\"%char) then S (leadingBackslashes rest) else O
  | [] => O
  end.

(** A sample escape rule: a character is escaped when an odd number of
    backslashes stands right before it. *)
Definition sampleIsEscaped (text : QString) (pos : Z) : bool :=
  if pos <? 0 then false
  else Nat.odd (leadingBackslashes (reverse (take (Z.to_nat pos) text))).

Definition isWordChar (c : ascii) : bool :=
  let n := nat_of_ascii c in
  ((48 <=? n) && (n <=? 57) || (65 <=? n) && (n <=? 90) || (97 <=? n) && (n <=? 122)
   || (n =? 95))%nat.

Fixpoint countWhile (p : ascii -> bool) (l : QString) : nat :=
  match l with
  | c :: rest => if p c then S (countWhile p rest) else O
  | [] => O
  end.

(** A sample here-doc delimiter: "<<" and a word. *)
Definition sampleHereDocDelimiter : Regex :=
  fun text pos =>
    if pos <? 0 then None
    else
      let rest := drop (Z.to_nat pos) text in
      if bool_decide (take 2 rest = str "<<") then
        let n := countWhile isWordChar (drop 2 rest) in
        if (0 <? n)%nat then Some (2 + Z.of_nat n) else None
      else None.

(** A sample URL pattern: "http://" and what follows up to a space or a
    quote. *)
Definition sampleUrlPattern : Regex :=
  fun text pos =>
    if pos <? 0 then None
    else
      let rest := drop (Z.to_nat pos) text in
      if bool_decide (take 7 rest = str "http://") then
        Some (7 + Z.of_nat (countWhile
                              (fun c => negb (isSpace c || isDoubleQuoteChar c
                                              || isSingleQuoteChar c))
                              (drop 7 rest)))
      else None.

(** A sample [setFormatWithoutOverwrite]: the format goes to the
    positions of the range that do not carry the format to keep. *)
Definition sampleSetFormatWithoutOverwrite (start count : Z) (f old : Format)
           (h : Highlighter) : Highlighter :=
  setFormatChanges
    (imap (fun i x =>
             if (start <=? Z.of_nat i) && (Z.of_nat i <? start + count)
                && negb (bool_decide (x = old))
             then f else x)
          (formatChanges h)) h.

Definition sampleHelpers : Helpers := {|
  isEscapedQuote := fun _ text pos _ => sampleIsEscaped text pos;
  isEscapedChar := fun _ text pos => sampleIsEscaped text pos;
  isQuoted := fun _ _ _ _ => false;
  setFormatWithoutOverwrite := sampleSetFormatWithoutOverwrite;
  hereDocDelimiter := sampleHereDocDelimiter;
  urlPattern := sampleUrlPattern
|}.

(** Modelled from the spec: the entry of [highlightBlock] is not among
    the sources.  The highlighter enters a block of the shell grammar
    with nothing formatted yet, fresh block data and the Normal state,
    for which the model takes 0, a value apart from the named states. *)
Definition enterBlock (prevState : Z) (prevData : option TextBlockData) (text : QString)
  : Highlighter :=
  mkHighlighter (str "sh") prevState prevData (replicate (length text) defaultFormat) 0
                (Some newTextBlockData).

(** A line that opens a command substitution, and the same line after a
    single quote has been typed into it. *)
Definition lineEchoAbc : QString := str "$(echo abc".
Definition lineEchoQuoteAbc : QString := str "$(echo 'abc".

(** Scenario B: VAR= followed by a double quote and abc. *)
Definition scenarioB : QString := str "VAR=" ++ [doubleQuoteChar] ++ str "abc".

(** A line of stray closers. *)
Definition strayClosers : QString := str ")))))".

(** Scenario C: VAR= followed by a double quote and $(cat<<EOF, then
    some text, then EOF followed by a double quote. *)
Definition scenarioC1 : QString := str "VAR=" ++ [doubleQuoteChar] ++ str "$(cat<<EOF".
Definition scenarioC2 : QString := str "some text".


(** A line with a quoted URL. *)
Definition lineWithUrl : QString := str "echo 'see http://a.b/c now' x".




(** *** Sample inputs for the classifier and the viewport pass *)

(** A file system without any file. *)
Definition emptyFileSystem : FileSystem :=
  fun _ => mkFileInfo false false [] [] [] [].

(** A file system where [/home/u/notes.sub] is a symbolic link to a
    makefile. *)
Definition symlinkFileSystem : FileSystem :=
  fun path =>
    if bool_decide (path = str "/home/u/notes.sub")
    then mkFileInfo true true (str "/home/u/project/Makefile") (str "project/Makefile")
                    (str "text/x-makefile") [str "text/plain"]
    else emptyFileSystem path.

(** A highlighter whose classification fails on every block, before
    anything is written. *)
Definition failingRehighlight : nat -> Document -> Outcome Document :=
  fun _ doc => Thrown doc.

(** A highlighter that marks the block highlighted and never fails. *)
Definition markingRehighlight : nat -> Document -> Outcome Document :=
  fun n doc => Returned (<[n := mkTextBlock (Some true)]> doc).

Definition twoDirtyBlocks : Document :=
  [mkTextBlock (Some false); mkTextBlock (Some false)].

(** A highlighter that marks a block that waits to be highlighted and
    fails on any other block. *)
Definition dirtyOnlyRehighlight : nat -> Document -> Outcome Document :=
  fun n doc =>
    match doc !! n with
    | Some block =>
      match userDataHighlighted block with
      | Some false => markingRehighlight n doc
      | _ => Thrown doc
      end
    | None => Thrown doc
    end.

(** Four blocks: one that waits, one that is highlighted, one without
    user data, one that waits. *)
Definition mixedBlocks : Document :=
  [mkTextBlock (Some false); mkTextBlock (Some true); mkTextBlock None;
   mkTextBlock (Some false)].
(* ------------------------------------------------------------------- *)
(** ** vscrollbar.cpp                                                    *)
(* ------------------------------------------------------------------- *)

(** An [int] is a [Z] between [-2^31] and [2^31 - 1].  The additions of
    [VScrollBar::wheelEvent] are written with the wrap-around of the
    compiled code, and [std::abs] of the smallest [int] is that [int]
    again. *)
Definition isInt (z : Z) : Prop := - 2 ^ 31 <= z < 2 ^ 31.

Definition wrapInt (z : Z) : Z := (z + 2 ^ 31) mod 2 ^ 32 - 2 ^ 31.

Definition absInt (z : Z) : Z := wrapInt (Z.abs z).

(** What [VScrollBar::wheelEvent] reads when a wheel event arrives: the
    event itself and where the pointer is.  The two angle deltas are
    [int]s. *)
Record Wheel := mkWheel {
  underMouse : bool;
  spontaneous : bool;
  notSynthesized : bool;     (* event->source() == Qt::MouseEventNotSynthesized *)
  cursorInside : bool;       (* rect().contains(mapFromGlobal(QCursor::pos())) *)
  angleDeltaX : Z;
  angleDeltaY : Z;
  shiftModifier : bool       (* event->modifiers() & Qt::ShiftModifier *)
}.

(** The slider behind the scroll bar; its four values are [int]s. *)
Record ScrollBar := mkScrollBar {
  sliderPosition : Z;
  pageStep : Z;
  minimum : Z;
  maximum : Z
}.

(** [QAbstractSlider::setSliderPosition] keeps the position inside the
    range of the slider. *)
Definition setSliderPosition (position : Z) (bar : ScrollBar) : ScrollBar :=
  mkScrollBar (Z.max (minimum bar) (Z.min (maximum bar) position))
              (pageStep bar) (minimum bar) (maximum bar).

(** The delta the handler looks at: the larger of the two components. *)
Definition wheelDelta (w : Wheel) : Z :=
  if absInt (angleDeltaX w) >? absInt (angleDeltaY w) then angleDeltaX w else angleDeltaY w.

(** Whether the event is left to [QScrollBar::wheelEvent]. *)
Definition leftToBaseClass (w : Wheel) : bool :=
  negb (underMouse w) || negb (spontaneous w) || negb (notSynthesized w)
  || negb (cursorInside w).

Section VScrollBar.

(** [QScrollBar::wheelEvent], the handler of the base class. *)
Variable baseWheelEvent : Wheel -> ScrollBar -> ScrollBar.

(** [VScrollBar::wheelEvent]; the state is the function's static
    [_effectiveDelta] and the slider. *)
Definition wheelEvent (w : Wheel) (st : Z * ScrollBar) : Z * ScrollBar :=
  let '(effectiveDelta, bar) := st in
  if leftToBaseClass w then (effectiveDelta, baseWheelEvent w bar)
  else
    let delta := wheelDelta w in
    let effectiveDelta := wrapInt (effectiveDelta + delta) in
    if absInt effectiveDelta <? 120 then (effectiveDelta, bar)
    else
      let step :=
        (if effectiveDelta <? 0 then 1 else -1)
        * Z.max (Z.quot (pageStep bar) (if shiftModifier w then 2 else 1)) 1 in
      (0, setSliderPosition (wrapInt (sliderPosition bar + step)) bar).

(** The events of a session, one after the other; [_effectiveDelta]
    starts at 0. *)
Definition wheelEvents (ws : list Wheel) (st : Z * ScrollBar) : Z * ScrollBar :=
  foldl (fun st w => wheelEvent w st) st ws.

End VScrollBar.

(** An event the scroll bar handles itself, with the given vertical
    delta. *)
Definition ownWheel (delta : Z) (shift : bool) : Wheel :=
  mkWheel true true true true 0 delta shift.

(* ------------------------------------------------------------------- *)
(** ** fpwin.cpp: what saving does to the text                           *)
(* ------------------------------------------------------------------- *)

(** [trailingSpaces]: the loop counts [i] up from the end of the string
    and returns at the first character that is not white space. *)
Definition trailingSpaces (fuel : nat) (s : QString) : option Z :=
  while fuel (fun i => i <? textLength s)
        (fun i =>
           match charAt s (textLength s - 1 - i) with
           | Some c => if negb (isSpace c) then Some (Break i) else Some (Continue (i + 1))
           | None => None
           end)
        0.

(** The cursor is put at the end of the block, moved back [n] characters
    with the anchor kept, and the selection is removed: the block loses
    its last [n] characters. *)
Definition removeLastCharacters (n : Z) (blockText : QString) : QString :=
  take (Z.to_nat (textLength blockText - n)) blockText.

(** An editor with the text of its document, block by block. *)
Record EditedText := mkEditedText {
  editor : TextEdit;
  getLang : QString;
  blocks : list QString
}.

Definition setBlocks (bs : list QString) (t : EditedText) : EditedText :=
  mkEditedText (editor t) (getLang t) bs.

(** [FPwin::removeTrailingSpaces], the pass of [saveFile]. *)
Definition removeTrailingSpaces (fuel : nat) (t : EditedText) : option EditedText :=
  let lang := if isEmpty (getFileName (editor t)) then getLang t
              else getProg (editor t) in
  if negb (bool_decide (lang = str "diff"))
     && negb (endsWith (getFileName (editor t)) (str "/locale.gen"))
  then
    bs ← mapM (fun blockText =>
                 numTrailing ← trailingSpaces fuel blockText;
                 Some (if numTrailing >? 0
                       then removeLastCharacters numTrailing blockText
                       else blockText))
              (blocks t);
    Some (setBlocks bs t)
  else Some t.

(** The pass over the blocks in [FPwin::saveAllFiles] (lines 5292-5328):
    Markdown and Fountain keep two trailing spaces, LaTeX keeps one. *)
Definition saveAllTrailingSpaces (fuel : nat) (getRemoveTrailingSpaces : bool)
           (t : EditedText) : option EditedText :=
  let prog := getProg (editor t) in
  let removeSpaces :=
    getRemoveTrailingSpaces && negb (bool_decide (prog = str "diff"))
    && negb (endsWith (getFileName (editor t)) (str "/locale.gen")) in
  if removeSpaces then
    let doubleSpace := bool_decide (prog = str "markdown")
                       || bool_decide (prog = str "fountain") in
    let singleSpace := bool_decide (prog = str "LaTeX") in
    bs ← mapM (fun blockText =>
                 numTrailing ← trailingSpaces fuel blockText;
                 if numTrailing =? 0 then Some blockText
                 else if doubleSpace then
                   let toRemove := Z.max 0 (numTrailing - 2) in
                   Some (if toRemove >? 0 then removeLastCharacters toRemove blockText
                         else blockText)
                 else if singleSpace then
                   let toRemove := numTrailing - 1 in
                   Some (if toRemove >? 0 then removeLastCharacters toRemove blockText
                         else blockText)
                 else Some (removeLastCharacters numTrailing blockText))
              (blocks t);
    Some (setBlocks bs t)
  else Some t.

(** [FPwin::appendEmptyLine] *)
Definition appendEmptyLine (bs : list QString) : list QString :=
  match last bs with
  | Some lastBlock => if isEmpty lastBlock then bs else bs ++ [[]]
  | None => bs
  end.

(** [QString::replace(before, after)] for a [before] that is not empty:
    every occurrence found from left to right is replaced, and the search
    goes on behind it; [skip] counts the characters of an occurrence
    still to be passed over. *)
Fixpoint replaceFrom (before after : QString) (skip : nat) (s : QString) : QString :=
  match s with
  | [] => []
  | c :: rest =>
    match skip with
    | S k => replaceFrom before after k rest
    | O =>
      if startsWith s before
      then after ++ replaceFrom before after (length before - 1) rest
      else c :: replaceFrom before after 0 rest
    end
  end.

Definition replace (before after s : QString) : QString := replaceFrom before after 0 s.

Definition CR : ascii := "013"%char.
Definition LF : ascii := "010"%char.

(** The four replacements of [writeToFile] for [MSWinLineEnd]. *)
Definition msWinLineEnds (contents : QString) : QString :=
  replace [LF] [CR; LF]
          (replace [CR] [LF]
                   (replace [LF; CR] [LF]
                            (replace [CR; LF] [LF] contents))).

Inductive EncodingType : Type :=
| Utf8
| Utf16
| Iso88591.

Section WriteToFile.

(** [FPwin::writeEncodedFile] opens the file and writes. *)
Variable writeEncodedFile : QString -> QString -> EncodingType -> bool.

(** [FPwin::writeToFile]; [encoding] is what [checkToEncoding] returns,
    [contents] the plain text of the document. *)
Definition writeToFile (encoding fname contents : QString) (MSWinLineEnd : bool) : bool :=
  let contents := if MSWinLineEnd then msWinLineEnds contents else contents in
  if bool_decide (encoding = str "UTF-16") then writeEncodedFile fname contents Utf16
  else if bool_decide (encoding = str "ISO-8859-1")
       then writeEncodedFile fname contents Iso88591
       else writeEncodedFile fname contents Utf8.

End WriteToFile.

(** Every line end of [s] is a carriage return followed by a line feed:
    neither of the two characters stands alone. *)
Fixpoint onlyCRLF (s : QString) : bool :=
  match s with
  | [] => true
  | c :: rest =>
    if bool_decide (c = CR) then
      match rest with
      | d :: rest' => bool_decide (d = LF) && onlyCRLF rest'
      | [] => false
      end
    else if bool_decide (c = LF) then false
    else onlyCRLF rest
  end.

(** A line feed becomes a carriage return and a line feed. *)
Definition lineFeedToCRLF (c : ascii) : QString :=
  if bool_decide (c = LF) then [CR; LF] else [c].

(** [n] is the number of white-space characters [s] ends with. *)
Definition countsTrailing (s : QString) (n : Z) : Prop :=
  0 <= n <= textLength s
  /\ (forall j, textLength s - n <= j < textLength s ->
                exists c, charAt s j = Some c /\ isSpace c = true)
  /\ (n < textLength s ->
      exists c, charAt s (textLength s - 1 - n) = Some c /\ isSpace c = false).

(* ------------------------------------------------------------------- *)
(** ** Further notions for highlighter/highlighter-sh.cpp                *)
(* ------------------------------------------------------------------- *)

(** The nest count [SH_CmndSubstVar] starts from: that of the previous
    block's data (lines 494-502). *)
Definition inheritedNests (h : Highlighter) : Z :=
  match previousBlockData h with
  | Some prevData => openNests prevData
  | None => 0
  end.

(** The test [curState < -1 || curState >= endState] of line 491. *)
Definition isHereDocStartState `{BlockStates} (curState : Z) : bool :=
  (curState <? -1) || (curState >=? endState).

(** The block states the scan of command substitutions can leave behind
    when it found the state [before]: that state, or, unless the block
    starts a here-document, one of the two open-quote states. *)
Definition stateAfterCommands `{BlockStates} (isHereDocStart : bool) (before after : Z)
  : Prop :=
  after = before
  \/ (isHereDocStart = false
      /\ (after = SH_SingleQuoteState \/ after = SH_DoubleQuoteState)).

(** [h'] is [h] with other formats: the state, the data and what is
    known of the previous block are the same. *)
Definition sameBlock (h h' : Highlighter) : Prop :=
  h' = setFormatChanges (formatChanges h') h.

(** The open-quote states [SH_MultiLineQuote] writes. *)
Definition isOpenQuoteState `{BlockStates} (s : Z) : Prop :=
  s = doubleQuoteState \/ s = singleQuoteState
  \/ s = SH_MixedDoubleQuoteState \/ s = SH_MixedSingleQuoteState.

(** What one call of [formatInsideCommand], entered with the nest count
    [nests] and the highlighter [h], does to the nest count and to the
    block state: only a closing parenthesis lowers the count, only a
    dollar sign raises it. *)
Definition commandFacts `{BlockStates} (text : QString) (isHereDocStart : bool)
           (minOpenNests nests : Z) (h : Highlighter)
           (r : Z * Z * gset Z * Highlighter) : Prop :=
  let '(_, nests', _, h') := r in
  minOpenNests <= nests'
  /\ (")"%char ∉ text -> nests <= nests')
  /\ ("$"%char ∉ text -> nests' <= Z.max nests minOpenNests)
  /\ stateAfterCommands isHereDocStart (currentBlockState h) (currentBlockState h').

(** The same for the loop of [SH_CmndSubstVar], which starts from the
    nest count [nest0] of the previous block. *)
Definition substFacts `{BlockStates} (text : QString) (isHereDocStart : bool) (nest0 : Z)
           (h : Highlighter) (st : Z * Z * gset Z * Highlighter) : Prop :=
  let '(_, n, _, h') := st in
  (")"%char ∉ text -> nest0 <= n)
  /\ ("$"%char ∉ text -> 0 <= nest0 -> n <= nest0)
  /\ stateAfterCommands isHereDocStart (currentBlockState h) (currentBlockState h').

(** What the quote pass [SH_MultiLineQuote] keeps of the highlighter [h]
    it started from: what is known of the previous block; the block
    state, unless an open-quote state was written; the block data, up to
    the here-doc marker, which may have been set. *)
Definition quotePassKeeps `{BlockStates} (h h' : Highlighter) : Prop :=
  progLan h' = progLan h
  /\ previousBlockState h' = previousBlockState h
  /\ previousBlockData h' = previousBlockData h
  /\ (currentBlockState h' = currentBlockState h \/ isOpenQuoteState (currentBlockState h'))
  /\ match currentBlockData h, currentBlockData h' with
     | Some d, Some d' => d' = d \/ d' = setProperty true d
     | None, None => True
     | _, _ => False
     end.

(** The formats of the positions before [index] are in [h'] what they
    are in [h]. *)
Definition keepsFormatsBefore (index : Z) (h h' : Highlighter) : Prop :=
  take (Z.to_nat index) (formatChanges h') = take (Z.to_nat index) (formatChanges h).

(* ------------------------------------------------------------------- *)
(** ** syntax.cpp: installing and removing the highlighter               *)
(* ------------------------------------------------------------------- *)

(** The settings [syntaxHighlighting] reads from [Config]; a colour
    table is a [QHash] from names to colours. *)
Record Config := mkConfig {
  getMaxSHSize : Z;
  getShowWhiteSpace : bool;
  getShowEndings : bool;
  getVLineDistance : Z;
  getWhiteSpaceValue : Z;
  customSyntaxColors : gmap QString Z;
  darkSyntaxColors : gmap QString Z;
  lightSyntaxColors : gmap QString Z
}.

(** What [new Highlighter(...)] is given. *)
Record InstalledHighlighter := mkInstalledHighlighter {
  highlighterLang : QString;
  limitStart : Z;
  limitEnd : Z;
  darkColorScheme : bool;
  showWhiteSpace : bool;
  showEndings : bool;
  whiteSpaceValue : Z;
  syntaxColors : gmap QString Z
}.

(** The signals of an editor and its document that the window connects
    to its slots once highlighting is on. *)
Inductive Connection : Type :=
| UpdateBracketMatching    (* TextEdit::updateBracketMatching -> matchBrackets *)
| BlockCountChanged        (* blockCountChanged -> formatOnBlockChange *)
| UpdateRect               (* TextEdit::updateRect -> formatTextRect *)
| Resized                  (* TextEdit::resized -> formatTextRect *)
| ContentsChange.          (* contentsChange -> formatOnTextChange *)

Global Instance Connection_eq_dec : EqDecision Connection.
Proof. solve_decision. Defined.

(** What a call does beyond the values the [TextEdit] hands out: what
    [QTimer::singleShot] is asked to run later, which is the warning that
    the size limit is exceeded or the function that formats the visible
    text and makes the five connections; and the highlighter object that
    [delete] destroys. *)
Inductive Effect : Type :=
| SizeLimitWarning
| ConnectSignals
| HighlighterDeleted (highlighter : InstalledHighlighter).

(** The part of a [TextEdit] that [syntaxHighlighting] reads and
    writes; an extra selection is known by its position. *)
Record EditorWidget := mkEditorWidget {
  edited : EditedText;
  isUneditable : bool;
  getSize : Z;
  hasDarkScheme : bool;
  topLeftCursor : Z;           (* cursorForPosition(QPoint(0, 0)) *)
  bottomRightCursor : Z;       (* cursorForPosition(QPoint(width(), height())) *)
  getHighlighter : option InstalledHighlighter;
  extraSelections : list Z;
  getRedSel : list Z;
  drawIndetLines : bool;
  vLineDistance : Z;
  connections : list Connection
}.

(** [disconnect]: no connection of this kind is left. *)
Definition disconnect (c : Connection) (cs : list Connection) : list Connection :=
  filter (fun c' => c' <> c) cs.

(** [while (n > 0 && !es.isEmpty()) { es.removeLast(); --n; }] *)
Fixpoint removeBracketSelections (n : nat) (es : list Z) : list Z :=
  match n with
  | O => es
  | S n' =>
    match es with
    | [] => es
    | _ :: _ => removeBracketSelections n' (removelast es)
    end
  end.

(** [FPwin::syntaxHighlighting] on a [TextEdit] that is not null: the
    editor afterwards, and what was handed to [QTimer::singleShot] or
    deleted.  Turning highlighting off deletes the highlighter object and
    makes no call of [setHighlighter]: the pointer the editor holds is
    not written. *)
Definition syntaxHighlighting (config : Config) (w : EditorWidget) (highlight : bool)
           (lang : QString) : EditorWidget * list Effect :=
  if isUneditable w then (w, [])
  else if highlight then
    let progLan := if isEmpty lang then getProg (editor (edited w)) else lang in
    if isEmpty progLan || bool_decide (progLan = str "help") then (w, [])
    else
      let textSize := getSize w in
      let maxSize := getMaxSHSize config * 1024 * 1024 in
      if textSize >? maxSize then (w, [SizeLimitWarning])
      else
        match getHighlighter w with
        | None =>
          let highlighter :=
            mkInstalledHighlighter
              progLan (topLeftCursor w) (bottomRightCursor w) (hasDarkScheme w)
              (getShowWhiteSpace config) (getShowEndings config) (getWhiteSpaceValue config)
              (if bool_decide (customSyntaxColors config = ∅)
               then (if hasDarkScheme w then darkSyntaxColors config
                     else lightSyntaxColors config)
               else customSyntaxColors config) in
          (mkEditorWidget (edited w) (isUneditable w) (getSize w) (hasDarkScheme w)
                          (topLeftCursor w) (bottomRightCursor w) (Some highlighter)
                          (extraSelections w) (getRedSel w)
                          (getShowWhiteSpace config) (getVLineDistance config)
                          (connections w),
           [ConnectSignals])
        | Some _ => (w, [ConnectSignals])
        end
  else
    match getHighlighter w with
    | Some highlighter =>
      let cs := disconnect UpdateBracketMatching
                  (disconnect BlockCountChanged
                     (disconnect UpdateRect
                        (disconnect Resized
                           (disconnect ContentsChange (connections w))))) in
      let es := removeBracketSelections (length (getRedSel w)) (extraSelections w) in
      (mkEditorWidget (edited w) (isUneditable w) (getSize w) (hasDarkScheme w)
                      (topLeftCursor w) (bottomRightCursor w) (getHighlighter w)
                      es [] false 0 cs,
       [HighlighterDeleted highlighter])
    | None => (w, [])
    end.
(* ===================================================================== *)
(** * Part II: properties                                                 *)
(* ===================================================================== *)

(** ** encoding.cpp *)

Lemma uchar_range (b : byte) : 0 <= uchar b < 256.
Proof.
  unfold uchar. pose proof (Byte.to_N_bounded b). lia.
Qed.

Lemma byteOf_uchar (b : byte) : byteOf (uchar b) = b.
Proof.
  unfold byteOf, uchar. rewrite N2Z.id, Byte.of_to_N. reflexivity.
Qed.

Lemma byteOf_eq (z : Z) (b : byte) : z = uchar b -> byteOf z = b.
Proof. intros ->. apply byteOf_uchar. Qed.

Lemma uchar_byteOf (z : Z) : 0 <= z < 256 -> uchar (byteOf z) = z.
Proof.
  intros Hz. unfold byteOf, uchar.
  destruct (Byte.of_N (Z.to_N z)) as [b|] eqn:E.
  - apply Byte.to_of_N in E. simpl. rewrite E. lia.
  - pose proof (Byte.to_of_N_option_map (Z.to_N z)) as H.
    rewrite E in H. simpl in H.
    destruct (N.leb_spec (Z.to_N z) 255); [discriminate | lia].
Qed.

Lemma continuation_range (b : byte) :
  (Z.land (uchar b) 0xC0 =? 0x80) = (0x80 <=? uchar b) && (uchar b <=? 0xBF).
Proof. destruct b; reflexivity. Qed.

(** Bit arithmetic used by the code-point reconstruction. *)

Lemma lor_shiftl_add (hi lo n : Z) :
  0 <= n -> 0 <= lo < 2 ^ n -> Z.lor (Z.shiftl hi n) lo = hi * 2 ^ n + lo.
Proof.
  intros Hn Hlo. rewrite Z.shiftl_mul_pow2 by assumption.
  symmetry. apply Z.add_nocarry_lor.
  apply Z.bits_inj'. intros k Hk.
  rewrite Z.land_spec, Z.bits_0.
  destruct (Z.lt_ge_cases k n) as [Hkn | Hkn].
  - rewrite Z.mul_pow2_bits_low by assumption. reflexivity.
  - destruct (Z.eq_dec lo 0) as [-> | Hne].
    + rewrite Z.bits_0. apply andb_false_r.
    + rewrite (Z.bits_above_log2 lo k); [apply andb_false_r | lia |].
      apply Z.log2_lt_pow2; [lia |].
      apply Z.lt_le_trans with (2 ^ n); [lia |].
      apply Z.pow_le_mono_r; lia.
Qed.

Lemma land_low4 (a : Z) : Z.land a 0x0F = a mod 16.
Proof. change 0x0F with (Z.ones 4). rewrite Z.land_ones by lia. reflexivity. Qed.

Lemma land_low3 (a : Z) : Z.land a 0x07 = a mod 8.
Proof. change 0x07 with (Z.ones 3). rewrite Z.land_ones by lia. reflexivity. Qed.

Lemma land_low6 (a : Z) : Z.land a 0x3F = a mod 64.
Proof. change 0x3F with (Z.ones 6). rewrite Z.land_ones by lia. reflexivity. Qed.

Ltac zdiv := Z.to_euclidean_division_equations; lia.

Lemma code3_arith (a b c : Z) :
  Z.lor (Z.lor (Z.shiftl (Z.land a 0x0F) 12) (Z.shiftl (Z.land b 0x3F) 6))
        (Z.land c 0x3F)
  = (a mod 16) * 4096 + (b mod 64) * 64 + c mod 64.
Proof.
  rewrite land_low4, !land_low6.
  assert (H1 : Z.lor (Z.shiftl (a mod 16) 12) (Z.shiftl (b mod 64) 6)
               = Z.shiftl (a mod 16 * 64 + b mod 64) 6).
  { replace (Z.shiftl (a mod 16) 12) with (Z.shiftl (Z.shiftl (a mod 16) 6) 6)
      by (rewrite Z.shiftl_shiftl by lia; reflexivity).
    rewrite <- Z.shiftl_lor. f_equal.
    rewrite lor_shiftl_add by zdiv. reflexivity. }
  rewrite H1.
  rewrite lor_shiftl_add by zdiv.
  change (2 ^ 6) with 64. lia.
Qed.

Lemma code4_arith (a b c d : Z) :
  Z.lor (Z.lor (Z.lor (Z.shiftl (Z.land a 0x07) 18) (Z.shiftl (Z.land b 0x3F) 12))
               (Z.shiftl (Z.land c 0x3F) 6))
        (Z.land d 0x3F)
  = (a mod 8) * 262144 + (b mod 64) * 4096 + (c mod 64) * 64 + d mod 64.
Proof.
  rewrite land_low3, !land_low6.
  assert (H1 : Z.lor (Z.shiftl (a mod 8) 18) (Z.shiftl (b mod 64) 12)
               = Z.shiftl (a mod 8 * 64 + b mod 64) 12).
  { replace (Z.shiftl (a mod 8) 18) with (Z.shiftl (Z.shiftl (a mod 8) 6) 12)
      by (rewrite Z.shiftl_shiftl by lia; reflexivity).
    rewrite <- Z.shiftl_lor. f_equal.
    rewrite lor_shiftl_add by zdiv. reflexivity. }
  rewrite H1.
  assert (H2 : Z.lor (Z.shiftl (a mod 8 * 64 + b mod 64) 12) (Z.shiftl (c mod 64) 6)
               = Z.shiftl ((a mod 8 * 64 + b mod 64) * 64 + c mod 64) 6).
  { replace (Z.shiftl (a mod 8 * 64 + b mod 64) 12)
      with (Z.shiftl (Z.shiftl (a mod 8 * 64 + b mod 64) 6) 6)
      by (rewrite Z.shiftl_shiftl by lia; reflexivity).
    rewrite <- Z.shiftl_lor. f_equal.
    rewrite lor_shiftl_add by zdiv. reflexivity. }
  rewrite H2.
  rewrite lor_shiftl_add by zdiv.
  change (2 ^ 6) with 64. lia.
Qed.

Ltac zcmp :=
  repeat (match goal with
          | |- context [Z.gtb ?a ?b] => rewrite (Z.gtb_ltb a b)
          | H : context [Z.gtb ?a ?b] |- _ => rewrite (Z.gtb_ltb a b) in H
          | |- context [Z.ltb ?a ?b] => destruct (Z.ltb_spec a b)
          | |- context [Z.leb ?a ?b] => destruct (Z.leb_spec a b)
          | |- context [Z.eqb ?a ?b] => destruct (Z.eqb_spec a b)
          | H : context [Z.ltb ?a ?b] |- _ => destruct (Z.ltb_spec a b)
          | H : context [Z.leb ?a ?b] |- _ => destruct (Z.leb_spec a b)
          | H : context [Z.eqb ?a ?b] |- _ => destruct (Z.eqb_spec a b)
          end; cbn [andb orb negb] in *; try discriminate; try lia).

(** One step of the validator, per class of lead byte, with the
    masks and the code-point tests turned into byte ranges. *)

Lemma validate_ascii (c : byte) (p : list byte) :
  uchar c < 0x80 -> validateUTF8 (c :: p) = validateUTF8 p.
Proof. intros H. cbn [validateUTF8]. zcmp. reflexivity. Qed.

Lemma validate_lead2 (c p0 : byte) (p : list byte) :
  0xC2 <= uchar c <= 0xDF ->
  validateUTF8 (c :: p0 :: p) = inRange 0x80 0xBF p0 && validateUTF8 p.
Proof.
  intros H. cbn [validateUTF8]. rewrite continuation_range. unfold inRange.
  pose proof (uchar_range p0). zcmp; reflexivity.
Qed.

Lemma validate_lead3 (c p0 p1 : byte) (p : list byte) :
  0xE0 <= uchar c <= 0xEF ->
  validateUTF8 (c :: p0 :: p1 :: p)
  = inRange (if uchar c =? 0xE0 then 0xA0 else 0x80)
            (if uchar c =? 0xED then 0x9F else 0xBF) p0
    && inRange 0x80 0xBF p1 && validateUTF8 p.
Proof.
  intros H. cbn [validateUTF8]. rewrite !continuation_range, code3_arith.
  unfold inRange.
  pose proof (uchar_range p0). pose proof (uchar_range p1).
  zcmp; try reflexivity; zdiv.
Qed.

Lemma validate_lead4 (c p0 p1 p2 : byte) (p : list byte) :
  0xF0 <= uchar c <= 0xF4 ->
  validateUTF8 (c :: p0 :: p1 :: p2 :: p)
  = inRange (if uchar c =? 0xF0 then 0x90 else 0x80)
            (if uchar c =? 0xF4 then 0x8F else 0xBF) p0
    && inRange 0x80 0xBF p1 && inRange 0x80 0xBF p2 && validateUTF8 p.
Proof.
  intros H. cbn [validateUTF8]. rewrite !continuation_range, code4_arith.
  unfold inRange.
  pose proof (uchar_range p0). pose proof (uchar_range p1). pose proof (uchar_range p2).
  zcmp; try reflexivity; zdiv.
Qed.

Lemma validate_encode (cp : Z) (rest : list byte) :
  isScalarValue cp -> validateUTF8 (utf8Encode cp ++ rest) = validateUTF8 rest.
Proof.
  intros Hs. unfold isScalarValue in Hs. unfold utf8Encode.
  destruct (Z.ltb_spec cp 0x80);
    [| destruct (Z.ltb_spec cp 0x800); [| destruct (Z.ltb_spec cp 0x10000)]];
    cbn [app].
  - apply validate_ascii. rewrite uchar_byteOf; lia.
  - assert (E0 : uchar (byteOf (0xC0 + cp / 64)) = 0xC0 + cp / 64)
      by (apply uchar_byteOf; zdiv).
    assert (E1 : uchar (byteOf (0x80 + cp mod 64)) = 0x80 + cp mod 64)
      by (apply uchar_byteOf; zdiv).
    rewrite validate_lead2 by (rewrite E0; zdiv).
    unfold inRange. rewrite E1. zcmp; try reflexivity; zdiv.
  - assert (E0 : uchar (byteOf (0xE0 + cp / 4096)) = 0xE0 + cp / 4096)
      by (apply uchar_byteOf; zdiv).
    assert (E1 : uchar (byteOf (0x80 + (cp / 64) mod 64)) = 0x80 + (cp / 64) mod 64)
      by (apply uchar_byteOf; zdiv).
    assert (E2 : uchar (byteOf (0x80 + cp mod 64)) = 0x80 + cp mod 64)
      by (apply uchar_byteOf; zdiv).
    rewrite validate_lead3 by (rewrite E0; zdiv).
    unfold inRange. rewrite E0, E1, E2. zcmp; try reflexivity; zdiv.
  - assert (E0 : uchar (byteOf (0xF0 + cp / 262144)) = 0xF0 + cp / 262144)
      by (apply uchar_byteOf; zdiv).
    assert (E1 : uchar (byteOf (0x80 + (cp / 4096) mod 64)) = 0x80 + (cp / 4096) mod 64)
      by (apply uchar_byteOf; zdiv).
    assert (E2 : uchar (byteOf (0x80 + (cp / 64) mod 64)) = 0x80 + (cp / 64) mod 64)
      by (apply uchar_byteOf; zdiv).
    assert (E3 : uchar (byteOf (0x80 + cp mod 64)) = 0x80 + cp mod 64)
      by (apply uchar_byteOf; zdiv).
    rewrite validate_lead4 by (rewrite E0; zdiv).
    unfold inRange. rewrite E0, E1, E2, E3. zcmp; try reflexivity; zdiv.
Qed.

Lemma wellFormed_valid (bs : list byte) : WellFormedUTF8 bs -> validateUTF8 bs = true.
Proof.
  intros (cps & Hall & ->). induction Hall as [| cp cps Hcp _ IH]; [reflexivity |].
  cbn [map concat]. rewrite validate_encode by assumption. exact IH.
Qed.

Lemma validate_bad_lead (c : byte) (p : list byte) :
  0x80 <= uchar c <= 0xC1 \/ 0xF5 <= uchar c -> validateUTF8 (c :: p) = false.
Proof. intros H. cbn [validateUTF8]. zcmp. Qed.

Lemma validate_truncated (c : byte) (p : list byte) :
  (length p < continuationCount (uchar c))%nat -> validateUTF8 (c :: p) = false.
Proof.
  unfold continuationCount. intros H. cbn [validateUTF8].
  destruct p as [| p0 [| p1 [| p2 p]]]; cbn [length] in H; zcmp; try reflexivity; lia.
Qed.

Lemma wellFormed_cons (cp : Z) (rest : list byte) :
  isScalarValue cp -> WellFormedUTF8 rest -> WellFormedUTF8 (utf8Encode cp ++ rest).
Proof.
  intros Hcp (cps & Hall & ->). exists (cp :: cps). split; [constructor; assumption | reflexivity].
Qed.

Lemma decode1 (c : byte) : uchar c < 0x80 -> utf8Encode (uchar c) = [c].
Proof.
  intros H. unfold utf8Encode. zcmp. rewrite byteOf_uchar. reflexivity.
Qed.

Lemma decode2 (c p0 : byte) :
  0xC2 <= uchar c <= 0xDF -> 0x80 <= uchar p0 <= 0xBF ->
  utf8Encode ((uchar c - 0xC0) * 64 + (uchar p0 - 0x80)) = [c; p0].
Proof.
  intros Hc H0. unfold utf8Encode. zcmp.
  f_equal; [| f_equal]; apply byteOf_eq; zdiv.
Qed.

Lemma decode3 (c p0 p1 : byte) :
  0xE0 <= uchar c <= 0xEF -> 0x80 <= uchar p0 <= 0xBF -> 0x80 <= uchar p1 <= 0xBF ->
  (uchar c = 0xE0 -> 0xA0 <= uchar p0) ->
  utf8Encode ((uchar c - 0xE0) * 4096 + (uchar p0 - 0x80) * 64 + (uchar p1 - 0x80))
  = [c; p0; p1].
Proof.
  intros Hc H0 H1 Hmin. unfold utf8Encode. zcmp.
  f_equal; [| f_equal; [| f_equal]]; apply byteOf_eq; zdiv.
Qed.

Lemma decode4 (c p0 p1 p2 : byte) :
  0xF0 <= uchar c <= 0xF4 -> 0x80 <= uchar p0 <= 0xBF -> 0x80 <= uchar p1 <= 0xBF ->
  0x80 <= uchar p2 <= 0xBF ->
  (uchar c = 0xF0 -> 0x90 <= uchar p0) ->
  utf8Encode ((uchar c - 0xF0) * 262144 + (uchar p0 - 0x80) * 4096
              + (uchar p1 - 0x80) * 64 + (uchar p2 - 0x80))
  = [c; p0; p1; p2].
Proof.
  intros Hc H0 H1 H2 Hmin. unfold utf8Encode. zcmp.
  f_equal; [| f_equal; [| f_equal; [| f_equal]]]; apply byteOf_eq; zdiv.
Qed.

Lemma valid_wellFormed_bounded (n : nat) :
  forall bs : list byte, (length bs <= n)%nat -> validateUTF8 bs = true -> WellFormedUTF8 bs.
Proof.
  induction n as [| n IH]; intros bs Hlen Hv.
  - destruct bs; [| cbn in Hlen; lia]. exists []. split; [constructor | reflexivity].
  - destruct bs as [| c p]; [exists []; split; [constructor | reflexivity] |].
    cbn [length] in Hlen. pose proof (uchar_range c) as Hc.
    destruct (Z.lt_ge_cases (uchar c) 0x80) as [Ha | Ha].
    { rewrite validate_ascii in Hv by assumption.
      change (c :: p) with ([c] ++ p). rewrite <- decode1 by assumption.
      apply wellFormed_cons; [left; lia | apply IH; [lia | assumption]]. }
    destruct (Z.lt_ge_cases (uchar c) 0xC2) as [Hb | Hb].
    { rewrite validate_bad_lead in Hv by lia. discriminate. }
    destruct (Z.le_gt_cases (uchar c) 0xDF) as [H2 | H2].
    { destruct p as [| p0 p]; [rewrite validate_truncated in Hv; [discriminate |] |].
      { unfold continuationCount. zcmp. cbn. lia. }
      rewrite validate_lead2 in Hv by lia. unfold inRange in Hv.
      apply andb_prop in Hv as [Hr Hv]. cbn [length] in Hlen.
      change (c :: p0 :: p) with ([c; p0] ++ p).
      rewrite <- decode2 by (zcmp; lia).
      apply wellFormed_cons; [left; zcmp; lia | apply IH; [lia | assumption]]. }
    destruct (Z.le_gt_cases (uchar c) 0xEF) as [H3 | H3].
    { destruct p as [| p0 [| p1 p]];
        try (rewrite validate_truncated in Hv;
             [discriminate | unfold continuationCount; zcmp; cbn; lia]).
      rewrite validate_lead3 in Hv by lia. unfold inRange in Hv.
      apply andb_prop in Hv as [Hr Hv]. cbn [length] in Hlen.
      change (c :: p0 :: p1 :: p) with ([c; p0; p1] ++ p).
      rewrite <- decode3 by (zcmp; lia).
      apply wellFormed_cons; [unfold isScalarValue; zcmp; lia | apply IH; [lia | assumption]]. }
    destruct (Z.le_gt_cases (uchar c) 0xF4) as [H4 | H4].
    { destruct p as [| p0 [| p1 [| p2 p]]];
        try (rewrite validate_truncated in Hv;
             [discriminate | unfold continuationCount; zcmp; cbn; lia]).
      rewrite validate_lead4 in Hv by lia. unfold inRange in Hv.
      apply andb_prop in Hv as [Hr Hv]. cbn [length] in Hlen.
      change (c :: p0 :: p1 :: p2 :: p) with ([c; p0; p1; p2] ++ p).
      rewrite <- decode4 by (zcmp; lia).
      apply wellFormed_cons; [unfold isScalarValue; zcmp; lia | apply IH; [lia | assumption]]. }
    rewrite validate_bad_lead in Hv by lia. discriminate.
Qed.

Lemma valid_wellFormed (bs : list byte) : validateUTF8 bs = true -> WellFormedUTF8 bs.
Proof. apply (valid_wellFormed_bounded (length bs)). lia. Qed.

Lemma validate_app (pre s : list byte) :
  validateUTF8 pre = true -> validateUTF8 (pre ++ s) = validateUTF8 s.
Proof.
  intros H. apply valid_wellFormed in H as (cps & Hall & ->).
  induction Hall as [| cp cps Hcp _ IH]; [reflexivity |].
  cbn [map concat]. rewrite <- app_assoc, validate_encode by assumption. exact IH.
Qed.

Lemma validate_malformed (c : byte) (rest : list byte) :
  Malformed c rest -> validateUTF8 (c :: rest) = false.
Proof.
  intros [H | H | i b Hi Hb Hc | p0 Hp H | p0 Hp Hc H0 | p0 Hp Hc H0].
  - apply validate_bad_lead, H.
  - apply validate_truncated, H.
  - unfold continuationCount in Hi. unfold isContinuationByte in Hc.
    cbn [validateUTF8].
    destruct rest as [| q0 [| q1 [| q2 rest]]];
      destruct i as [| [| [| i]]]; cbn in Hb; try discriminate;
      try (injection Hb as ->); try rewrite Hc; cbn [negb orb];
      zcmp; try reflexivity; rewrite ?orb_true_r; reflexivity.
  - destruct rest as [| q0 rest]; [discriminate |]. injection Hp as ->.
    cbn [validateUTF8]. destruct rest as [| q1 [| q2 rest]]; zcmp; try reflexivity;
      repeat (match goal with |- context [if ?b then false else _] => destruct b end);
      reflexivity.
  - destruct rest as [| q0 rest]; [discriminate |]. injection Hp as ->.
    cbn [validateUTF8]. destruct rest as [| q1 rest]; zcmp; try reflexivity;
      repeat (match goal with |- context [if ?b then false else _] => destruct b end);
      reflexivity.
  - destruct rest as [| q0 rest]; [discriminate |]. injection Hp as ->.
    cbn [validateUTF8]. destruct rest as [| q1 [| q2 rest]]; zcmp; try reflexivity;
      repeat (match goal with |- context [if ?b then false else _] => destruct b end);
      reflexivity.
Qed.

(** C10. [validateUTF8] returns true exactly on well-formed UTF-8 (the
    concatenation of shortest-form encodings of Unicode scalar values).
    After any accepted prefix it rejects a sequence that is truncated, has
    a continuation byte not of the form 10xxxxxx, is overlong (E0 then a
    byte below A0, F0 then a byte below 90), encodes a surrogate (ED then
    a byte from A0 on), exceeds 0x10FFFF (F4 then a byte above 8F) or
    starts with a lead byte in 80..C1 or F5..FF.  [detectCharset] is total
    and answers "UTF-8" exactly on well-formed input and "ISO-8859-1"
    exactly otherwise. *)
Theorem validateUTF8_exactly_wellformed (bs : list byte) :
  (validateUTF8 bs = true <-> WellFormedUTF8 bs)
  /\ (forall (pre : list byte) (c : byte) (rest : list byte),
         bs = pre ++ c :: rest -> validateUTF8 pre = true -> Malformed c rest ->
         validateUTF8 bs = false)
  /\ (detectCharset bs = str "UTF-8" \/ detectCharset bs = str "ISO-8859-1")
  /\ (detectCharset bs = str "UTF-8" <-> WellFormedUTF8 bs)
  /\ (detectCharset bs = str "ISO-8859-1" <-> ~ WellFormedUTF8 bs).
Proof.
  assert (Hiff : validateUTF8 bs = true <-> WellFormedUTF8 bs)
    by (split; [apply valid_wellFormed | apply wellFormed_valid]).
  split; [exact Hiff |]. split.
  { intros pre c rest -> Hpre Hbad.
    rewrite validate_app by assumption. apply validate_malformed, Hbad. }
  unfold detectCharset.
  destruct (validateUTF8 bs) eqn:E.
  - split; [left; reflexivity |]. split.
    + split; [intros _; apply Hiff; reflexivity | reflexivity].
    + split; [discriminate | intros Hn; exfalso; apply Hn, Hiff; reflexivity].
  - split; [right; reflexivity |]. split.
    + split; [discriminate | intros Hw; apply Hiff in Hw; discriminate].
    + split; [intros _ Hw; apply Hiff in Hw; discriminate | reflexivity].
Qed.

Lemma validateUTF8_exactly_wellformed_witness :
  validateUTF8 [xc3; xa9; xe0; x80; x80] = false.
Proof.
  apply (proj1 (proj2 (validateUTF8_exactly_wellformed [xc3; xa9; xe0; x80; x80]))
           [xc3; xa9] xe0 [x80; x80] eq_refl eq_refl).
  apply (Overlong xe0 [x80; x80] x80 eq_refl).
  left. split; [reflexivity | reflexivity].
Defined.

(** ** syntax.cpp: the extension step *)

Lemma endsWith_suffix (s ending : QString) :
  endsWith s ending = true <-> ending `suffix_of` s.
Proof. unfold endsWith. apply bool_decide_eq_true. Qed.

Lemma toLower_suffix (a b : QString) :
  a `suffix_of` b -> toLower a `suffix_of` toLower b.
Proof.
  intros [k ->]. exists (toLower k). unfold toLower. apply map_app.
Qed.

(** Every extension of the table is already in lower case. *)
Lemma table_lowercase (e : ExtensionEntry) :
  e ∈ extensionLanguageMap -> toLower (extension e) = extension e.
Proof.
  assert (H : forallb (fun e => bool_decide (toLower (extension e) = extension e))
                      extensionLanguageMap = true) by (vm_compute; reflexivity).
  rewrite forallb_forall in H. intros He.
  apply list_elem_of_In, H in He. apply bool_decide_eq_true in He. exact He.
Qed.

(** No extension of the table ends with another one. *)
Lemma table_suffix_free (e1 e2 : ExtensionEntry) :
  e1 ∈ extensionLanguageMap -> e2 ∈ extensionLanguageMap ->
  extension e2 `suffix_of` extension e1 -> e1 = e2.
Proof.
  assert (H : forallb (fun e1 =>
                forallb (fun e2 =>
                  implb (endsWith (extension e1) (extension e2)) (bool_decide (e1 = e2)))
                  extensionLanguageMap)
                extensionLanguageMap = true) by (vm_compute; reflexivity).
  rewrite forallb_forall in H. intros H1 H2 Hs.
  apply list_elem_of_In, H in H1. rewrite forallb_forall in H1.
  apply list_elem_of_In, H1 in H2.
  apply endsWith_suffix in Hs. rewrite Hs in H2. cbn in H2.
  apply bool_decide_eq_true in H2. exact H2.
Qed.

Lemma match_lower_suffix (fname : QString) (e : ExtensionEntry) :
  e ∈ extensionLanguageMap -> entryMatches fname e = true ->
  extension e `suffix_of` toLower fname.
Proof.
  intros He Hm. unfold entryMatches in Hm.
  destruct (caseSensitive e); apply endsWith_suffix in Hm.
  - rewrite <- (table_lowercase e He). apply toLower_suffix, Hm.
  - exact Hm.
Qed.

(** A file name matches at most one entry of the table. *)
Lemma table_match_unique (fname : QString) (e1 e2 : ExtensionEntry) :
  e1 ∈ extensionLanguageMap -> e2 ∈ extensionLanguageMap ->
  entryMatches fname e1 = true -> entryMatches fname e2 = true -> e1 = e2.
Proof.
  intros H1 H2 M1 M2.
  pose proof (match_lower_suffix fname e1 H1 M1) as S1.
  pose proof (match_lower_suffix fname e2 H2 M2) as S2.
  destruct (suffix_weak_total _ _ _ S1 S2) as [S | S].
  - symmetry. apply table_suffix_free; assumption.
  - apply table_suffix_free; assumption.
Qed.

(** The loop returns the language of the first matching entry. *)
Lemma languageForExtensionIn_first (table : list ExtensionEntry) (fname : QString) :
  ((forall e, e ∈ table -> entryMatches fname e = false)
   /\ languageForExtensionIn table fname = [])
  \/ (exists e, e ∈ table /\ entryMatches fname e = true
                /\ languageForExtensionIn table fname = language e).
Proof.
  induction table as [| entry rest IH].
  - left. split; [intros e He; inversion He | reflexivity].
  - destruct (entryMatches fname entry) eqn:Hm.
    + right. exists entry. split; [left |]. split; [exact Hm |].
      unfold entryMatches in Hm. cbn [languageForExtensionIn].
      destruct (caseSensitive entry); rewrite Hm; reflexivity.
    + assert (Hstep : languageForExtensionIn (entry :: rest) fname
                      = languageForExtensionIn rest fname).
      { unfold entryMatches in Hm. cbn [languageForExtensionIn].
        destruct (caseSensitive entry); rewrite Hm; reflexivity. }
      rewrite Hstep. destruct IH as [[Hnone Hr] | (e & He & Hme & Hr)].
      * left. split; [| exact Hr].
        intros e He. apply elem_of_cons in He as [-> | He]; [exact Hm | apply Hnone, He].
      * right. exists e. split; [right; exact He | split; assumption].
Qed.

(** C6. For every file name the extension step returns the language of
    the table entry with the longest suffix that matches the name, or the
    null string when no entry matches; an entry matches by a
    case-sensitive comparison of the ending when it is declared case
    sensitive and by a case-insensitive one otherwise; and the step
    returns the same for every reordering of the table. *)
Theorem languageForExtension_longest_suffix (fname : QString) :
  (((forall e, e ∈ extensionLanguageMap -> entryMatches fname e = false)
    /\ languageForExtension fname = [])
   \/ (exists e, e ∈ extensionLanguageMap /\ entryMatches fname e = true
         /\ languageForExtension fname = language e
         /\ forall e', e' ∈ extensionLanguageMap -> entryMatches fname e' = true ->
                       (length (extension e') <= length (extension e))%nat))
  /\ (forall e, e ∈ extensionLanguageMap ->
                entryMatches fname e
                = if caseSensitive e then endsWith fname (extension e)
                  else endsWithCaseInsensitive fname (extension e))
  /\ (forall table' : list ExtensionEntry,
         table' ≡ₚ extensionLanguageMap ->
         languageForExtensionIn table' fname = languageForExtension fname).
Proof.
  split; [| split].
  - unfold languageForExtension.
    destruct (languageForExtensionIn_first extensionLanguageMap fname)
      as [[Hnone Hr] | (e & He & Hm & Hr)].
    + left. split; assumption.
    + right. exists e. repeat split; try assumption.
      intros e' He' Hm'. rewrite (table_match_unique fname e' e He' He Hm' Hm). lia.
  - intros e He. unfold entryMatches, endsWithCaseInsensitive.
    rewrite (table_lowercase e He). reflexivity.
  - intros table' Hperm. unfold languageForExtension.
    destruct (languageForExtensionIn_first extensionLanguageMap fname)
      as [[Hnone Hr] | (e & He & Hm & Hr)];
      destruct (languageForExtensionIn_first table' fname)
        as [[Hnone' Hr'] | (e' & He' & Hm' & Hr')].
    + congruence.
    + rewrite Hperm in He'. rewrite (Hnone e' He') in Hm'. discriminate.
    + rewrite <- Hperm in He. rewrite (Hnone' e He) in Hm. discriminate.
    + rewrite Hperm in He'.
      rewrite Hr, Hr', (table_match_unique fname e' e He' He Hm' Hm). reflexivity.
Qed.

Lemma languageForExtension_longest_suffix_witness :
  languageForExtensionIn (reverse extensionLanguageMap) (str "panel.desktop.in")
  = languageForExtension (str "panel.desktop.in").
Proof.
  apply (proj2 (proj2 (languageForExtension_longest_suffix (str "panel.desktop.in")))).
  apply reverse_Permutation.
Defined.

(** The agreement with the longest suffix rests on the table: over another
    table the loop still answers with the first match. *)
Remark first_match_is_not_longest_in_general :
  languageForExtensionIn [mkExt ".in" true "config"; mkExt ".desktop.in" true "desktop"]
                         (str "panel.desktop.in") = str "config".
Proof. vm_compute. reflexivity. Qed.

(** ** syntax.cpp: the reserved ".sub" suffix *)

(** C7, as stated, fails: the suffix test is made on the path after the
    symbolic link has been followed, so a name ending in ".sub" that is a
    link to a makefile is classified as a makefile. *)
Lemma setProgLang_sub_counterexample :
  endsWithCaseInsensitive (str "/home/u/notes.sub") (str ".sub") = true
  /\ getProg (setProgLang symlinkFileSystem (mkTextEdit (str "/home/u/notes.sub") (str "url")))
     = str "makefile"
  /\ str "makefile" <> str "url".
Proof. vm_compute. repeat split; congruence. Qed.

(** C7, amended. When the path that results from following symbolic links
    ends in ".sub" in any letter case, an editor whose language is the
    default "url" keeps it, whatever the file system reports and whatever
    the tables hold for the name. *)
Theorem setProgLang_sub_keeps_default (fs : FileSystem) (textEdit : TextEdit) :
  endsWithCaseInsensitive (resolvedFilePath fs (getFileName textEdit)) (str ".sub") = true ->
  getProg textEdit = str "url" ->
  getProg (setProgLang fs textEdit) = str "url".
Proof.
  intros Hsub Hurl. unfold setProgLang.
  destruct (isEmpty (getFileName textEdit)); [exact Hurl |].
  rewrite Hsub. exact Hurl.
Qed.

Lemma setProgLang_sub_keeps_default_witness :
  getProg (setProgLang emptyFileSystem (mkTextEdit (str "/tmp/Makefile.SuB") (str "url")))
  = str "url".
Proof.
  apply (setProgLang_sub_keeps_default emptyFileSystem
           (mkTextEdit (str "/tmp/Makefile.SuB") (str "url"))).
  - vm_compute. reflexivity.
  - reflexivity.
Defined.

(** The early return sets nothing: after a rename to a ".sub" name an
    editor that had a language keeps it. *)
Remark setProgLang_sub_after_rename :
  getProg (setProgLang emptyFileSystem (mkTextEdit (str "/tmp/a.sub") (str "sh"))) = str "sh".
Proof. vm_compute. reflexivity. Qed.

(** ** syntax.cpp: formatTextRect *)

(** C8, as stated, fails: with a classification that fails, the pass
    over two dirty visible blocks does not return, so the failure is not
    contained; the document is left as it was, with the first block not
    marked clean and the second not visited. *)
Lemma formatTextRect_failure_counterexample :
  formatTextRect failingRehighlight true 0 1 twoDirtyBlocks = Thrown twoDirtyBlocks
  /\ ~ failureContained (formatTextRect failingRehighlight true 0 1 twoDirtyBlocks) 0.
Proof.
  split; [reflexivity |].
  intros (doc' & Hret & _). cbn in Hret. discriminate.
Qed.

Lemma formatVisibleBlocks_skip (rehighlightBlock : nat -> Document -> Outcome Document)
      (doc : Document) (j : nat) :
  forall k n : nat,
    (forall i, (n <= i < n + j)%nat ->
               exists b, doc !! i = Some b /\ userDataHighlighted b <> Some false) ->
    formatVisibleBlocks rehighlightBlock (j + k) n doc
    = formatVisibleBlocks rehighlightBlock k (n + j) doc.
Proof.
  induction j as [| j IH]; intros k n Hskip.
  - rewrite Nat.add_0_r. reflexivity.
  - cbn [Nat.add formatVisibleBlocks].
    destruct (Hskip n ltac:(lia)) as (b & Hb & Hclean). rewrite Hb.
    replace (n + S j)%nat with (S n + j)%nat by lia.
    destruct (userDataHighlighted b) as [[|] |]; try (apply IH; intros i Hi; apply Hskip; lia).
    congruence.
Qed.

Lemma formatVisibleBlocks_returns (rehighlightBlock : nat -> Document -> Outcome Document) :
  (forall n doc doc', rehighlightBlock n doc <> Thrown doc') ->
  forall (k n : nat) (doc : Document),
    exists doc', formatVisibleBlocks rehighlightBlock k n doc = Returned doc'.
Proof.
  intros Hok. induction k as [| k IH]; intros n doc; cbn [formatVisibleBlocks].
  - eauto.
  - destruct (doc !! n) as [b |]; [| eauto].
    destruct (userDataHighlighted b) as [[|] |]; try apply IH.
    destruct (rehighlightBlock n doc) as [doc' | doc'] eqn:E; [apply IH |].
    exfalso. apply (Hok n doc doc' E).
Qed.

(** The pass stops at the first visible block that waits to be
    highlighted when its classification fails, in the state the failed
    call left. *)
Lemma formatTextRect_stops (rehighlightBlock : nat -> Document -> Outcome Document)
      (startBlock endBlock n : nat) (doc doc' : Document) (block : TextBlock) :
  (startBlock <= n <= endBlock)%nat ->
  (forall i, (startBlock <= i < n)%nat ->
             exists b, doc !! i = Some b /\ userDataHighlighted b <> Some false) ->
  doc !! n = Some block -> userDataHighlighted block = Some false ->
  rehighlightBlock n doc = Thrown doc' ->
  formatTextRect rehighlightBlock true startBlock endBlock doc = Thrown doc'.
Proof.
  intros Hn Hskip Hb Hdirty Hthrow. unfold formatTextRect. cbn [negb].
  replace (S endBlock - startBlock)%nat
    with ((n - startBlock) + S (endBlock - n))%nat by lia.
  rewrite formatVisibleBlocks_skip by (intros i Hi; apply Hskip; lia).
  replace (startBlock + (n - startBlock))%nat with n by lia.
  cbn [formatVisibleBlocks]. rewrite Hb, Hdirty, Hthrow. reflexivity.
Qed.

(** C8, amended. [formatTextRect] has no failure boundary.  It goes
    through the visible blocks in order and rehighlights those that have
    user data and are not marked highlighted.  When the classification of
    the first such block fails, the failure leaves [formatTextRect] with
    the document exactly as the failed call left it: [formatTextRect]
    marks no block clean, the pass does not return, so the failure is not
    contained, and the highlighter is called on no later block, the
    outcome being the same for every highlighter that fails in this way
    on this block, whatever it does on other blocks.  When no
    classification fails, the pass returns. *)
Theorem formatTextRect_failure_propagates
        (rehighlightBlock : nat -> Document -> Outcome Document)
        (startBlock endBlock n : nat) (doc doc' : Document) (block : TextBlock) :
  ((startBlock <= n <= endBlock)%nat ->
   (forall i, (startBlock <= i < n)%nat ->
              exists b, doc !! i = Some b /\ userDataHighlighted b <> Some false) ->
   doc !! n = Some block -> userDataHighlighted block = Some false ->
   rehighlightBlock n doc = Thrown doc' ->
   formatTextRect rehighlightBlock true startBlock endBlock doc = Thrown doc'
   /\ ~ failureContained (formatTextRect rehighlightBlock true startBlock endBlock doc) n
   /\ (forall other : nat -> Document -> Outcome Document,
          other n doc = Thrown doc' ->
          formatTextRect other true startBlock endBlock doc = Thrown doc'))
  /\ ((forall i d d', rehighlightBlock i d <> Thrown d') ->
      exists returned,
        formatTextRect rehighlightBlock true startBlock endBlock doc = Returned returned).
Proof.
  split.
  - intros Hn Hskip Hb Hdirty Hthrow.
    pose proof (formatTextRect_stops rehighlightBlock startBlock endBlock n doc doc' block
                  Hn Hskip Hb Hdirty Hthrow) as Hstop.
    split; [exact Hstop |]. split.
    + rewrite Hstop. intros (returned & Hret & _). discriminate.
    + intros other Hother.
      exact (formatTextRect_stops other startBlock endBlock n doc doc' block
               Hn Hskip Hb Hdirty Hother).
  - intros Hok. unfold formatTextRect. cbn [negb].
    apply formatVisibleBlocks_returns, Hok.
Qed.

(** The first of two waiting blocks fails: both are left as they were,
    the first still waiting and the second not visited, although the
    marking highlighter would have marked it. *)
Lemma formatTextRect_failure_propagates_witness :
  formatTextRect failingRehighlight true 0 1 twoDirtyBlocks = Thrown twoDirtyBlocks
  /\ formatTextRect (fun n doc => if (n =? 0)%nat then Thrown doc else markingRehighlight n doc)
                    true 0 1 twoDirtyBlocks = Thrown twoDirtyBlocks
  /\ exists returned, formatTextRect markingRehighlight true 0 1 twoDirtyBlocks = Returned returned.
Proof.
  assert (Hrange : (0 <= 0 <= 1)%nat) by lia.
  assert (Hskip : forall i, (0 <= i < 0)%nat ->
                            exists b, twoDirtyBlocks !! i = Some b
                                      /\ userDataHighlighted b <> Some false)
    by (intros i Hi; lia).
  destruct (proj1 (formatTextRect_failure_propagates failingRehighlight 0 1 0 twoDirtyBlocks
                     twoDirtyBlocks (mkTextBlock (Some false)))
                  Hrange Hskip eq_refl eq_refl eq_refl) as (Hstop & _ & Hother).
  split; [exact Hstop |]. split.
  - apply Hother. reflexivity.
  - apply (proj2 (formatTextRect_failure_propagates markingRehighlight 0 1 0 twoDirtyBlocks
                    twoDirtyBlocks (mkTextBlock (Some false)))).
    intros i d d'. unfold markingRehighlight. discriminate.
Defined.

(** ** highlighter-sh.cpp: formats and searches *)

Lemma fillFormats_length (start stop : nat) (f : Format) (l : list Format) :
  (stop <= length l)%nat -> length (fillFormats start stop f l) = length l.
Proof.
  intros H. unfold fillFormats.
  rewrite !length_app, length_take, length_replicate, length_drop. lia.
Qed.

Lemma setFormat_length (start count : Z) (f : Format) (h : Highlighter) :
  length (formatChanges (setFormat start count f h)) = length (formatChanges h).
Proof.
  unfold setFormat.
  destruct ((start <? 0) || (Z.of_nat (length (formatChanges h)) <=? start)) eqn:E;
    [reflexivity |].
  cbn [setFormatChanges formatChanges]. apply fillFormats_length. lia.
Qed.

Lemma setCurrentBlockState_formats (s : Z) (h : Highlighter) :
  formatChanges (setCurrentBlockState s h) = formatChanges h.
Proof. reflexivity. Qed.

Lemma setCurrentBlockData_formats (d : option TextBlockData) (h : Highlighter) :
  formatChanges (setCurrentBlockData d h) = formatChanges h.
Proof. reflexivity. Qed.

Lemma format_outside (h : Highlighter) (pos : Z) : pos < 0 -> format h pos = defaultFormat.
Proof. intros H. unfold format. destruct (Z.ltb_spec pos 0); [reflexivity | lia]. Qed.

Lemma findFrom_range (p : ascii -> bool) (l : QString) :
  forall pos from : Z,
    0 <= pos ->
    findFrom p l pos from = -1
    \/ (from <= findFrom p l pos from /\ pos <= findFrom p l pos from
        /\ findFrom p l pos from < pos + Z.of_nat (length l)).
Proof.
  induction l as [| c l IH]; intros pos from Hpos; cbn [findFrom length].
  - left. reflexivity.
  - destruct ((from <=? pos) && p c) eqn:E.
    + right. apply andb_prop in E as [E _]. apply Z.leb_le in E. lia.
    + destruct (IH (pos + 1) from ltac:(lia)) as [H | H]; [left; exact H | right; lia].
Qed.

Lemma indexOfQuote_range (q : QuoteExpression) (text : QString) (from : Z) :
  indexOfQuote q text from = -1
  \/ (from <= indexOfQuote q text from /\ 0 <= indexOfQuote q text from
      /\ indexOfQuote q text from < textLength text).
Proof.
  unfold indexOfQuote, textLength.
  destruct (findFrom_range (quoteMatches q) text 0 from ltac:(lia)) as [H | H];
    [left; exact H | right; lia].
Qed.

Lemma findCodeBlockStart_range (l : QString) :
  forall pos from : Z,
    0 <= pos ->
    findCodeBlockStart l pos from = -1
    \/ (from <= findCodeBlockStart l pos from /\ pos <= findCodeBlockStart l pos from
        /\ findCodeBlockStart l pos from + 1 < pos + Z.of_nat (length l)).
Proof.
  induction l as [| c l IH]; intros pos from Hpos; cbn [findCodeBlockStart].
  - left. reflexivity.
  - destruct l as [| d l']; [left; reflexivity |].
    destruct ((from <=? pos) && bool_decide (c = "$"%char) && bool_decide (d = "("%char)) eqn:E.
    + right. apply andb_prop in E as [E _]. apply andb_prop in E as [E _].
      apply Z.leb_le in E. cbn [length]. lia.
    + destruct (IH (pos + 1) from ltac:(lia)) as [H | H]; [left; exact H |].
      right. cbn [length] in *. lia.
Qed.

Lemma scanRegex_range (re : Regex) (text : QString) (n : nat) :
  forall (pos p captured : Z),
    scanRegex re text n pos = Some (p, captured) ->
    pos <= p < pos + Z.of_nat n /\ re text p = Some captured.
Proof.
  induction n as [| n IH]; intros pos p captured H; cbn [scanRegex] in H; [discriminate |].
  destruct (re text pos) as [c |] eqn:E.
  - injection H as <- <-. split; [lia | exact E].
  - apply IH in H. split; [lia | apply H].
Qed.

Lemma indexOfRegex_range (re : Regex) (text : QString) (from : Z) :
  fst (indexOfRegex re text from) = -1
  \/ (from <= fst (indexOfRegex re text from) /\ 0 <= fst (indexOfRegex re text from)
      /\ fst (indexOfRegex re text from) <= textLength text
      /\ re text (fst (indexOfRegex re text from)) = Some (snd (indexOfRegex re text from))).
Proof.
  unfold indexOfRegex.
  destruct (scanRegex re text (Z.to_nat (textLength text + 1 - Z.max 0 from)) (Z.max 0 from))
    as [[p captured] |] eqn:E; [| left; reflexivity].
  apply scanRegex_range in E. right. cbn [fst snd]. split_and!; [lia | lia | lia | apply E].
Qed.

(** ** Loops: enough fuel gives a result *)

Lemma while_converges {S : Type} (measure : S -> nat) (Inv : S -> Prop)
      (cond : S -> bool) (body : S -> option (LoopStep S)) :
  (forall s, Inv s -> cond s = true ->
             exists r, body s = Some r /\
                       match r with
                       | Continue s' => Inv s' /\ (measure s' < measure s)%nat
                       | Break s' => Inv s'
                       end) ->
  forall (fuel : nat) (s : S),
    Inv s -> (measure s < fuel)%nat ->
    exists s', while fuel cond body s = Some s' /\ Inv s'.
Proof.
  intros Hbody. induction fuel as [| fuel IH]; intros s Hinv Hm; [lia |].
  cbn [while]. destruct (cond s) eqn:Hc; [| eauto].
  destruct (Hbody s Hinv Hc) as (r & -> & Hr).
  destruct r as [s' | s']; [| eauto].
  destruct Hr as [Hinv' Hlt]. apply IH; [exact Hinv' | lia].
Qed.

(** Any property the body keeps holds of the result of the loop. *)
Lemma while_invariant {S : Type} (Inv : S -> Prop)
      (cond : S -> bool) (body : S -> option (LoopStep S)) :
  (forall s r, Inv s -> cond s = true -> body s = Some r ->
               match r with Continue s' => Inv s' | Break s' => Inv s' end) ->
  forall (fuel : nat) (s s' : S),
    Inv s -> while fuel cond body s = Some s' -> Inv s'.
Proof.
  intros Hbody. induction fuel as [| fuel IH]; intros s s' Hinv H; [discriminate |].
  cbn [while] in H. destruct (cond s) eqn:Hc; [| injection H as <-; exact Hinv].
  destruct (body s) as [[s1 | s1] |] eqn:Hb; [| | discriminate].
  - apply (IH s1 s'); [| exact H]. apply (Hbody s _ Hinv Hc Hb).
  - injection H as <-. apply (Hbody s _ Hinv Hc Hb).
Qed.

Lemma whileDo_exit {S : Type} (cond : S -> bool) (body : S -> S) :
  forall (fuel : nat) (s r : S), whileDo fuel cond body s = Some r -> cond r = false.
Proof.
  unfold whileDo. induction fuel as [| fuel IH]; intros s r H; [discriminate |].
  cbn [while] in H. destruct (cond s) eqn:Hc.
  - apply (IH (body s)). exact H.
  - injection H as <-. exact Hc.
Qed.

Lemma while_stop {S : Type} (fuel : nat) (cond : S -> bool)
      (body : S -> option (LoopStep S)) (s : S) :
  (0 < fuel)%nat -> cond s = false -> while fuel cond body s = Some s.
Proof.
  intros Hfuel Hc. destruct fuel as [| fuel]; [lia |]. cbn [while]. rewrite Hc. reflexivity.
Qed.

Lemma while_break {S : Type} (fuel : nat) (cond : S -> bool)
      (body : S -> option (LoopStep S)) (s s' : S) :
  (0 < fuel)%nat -> cond s = true -> body s = Some (Break s') ->
  while fuel cond body s = Some s'.
Proof.
  intros Hfuel Hc Hb. destruct fuel as [| fuel]; [lia |]. cbn [while].
  rewrite Hc, Hb. reflexivity.
Qed.

Lemma while_one_round {S : Type} (fuel : nat) (cond : S -> bool)
      (body : S -> option (LoopStep S)) (s s' : S) :
  (1 < fuel)%nat -> cond s = true -> body s = Some (Continue s') -> cond s' = false ->
  while fuel cond body s = Some s'.
Proof.
  intros Hfuel Hc Hb Hc'. destruct fuel as [| fuel]; [lia |]. cbn [while].
  rewrite Hc, Hb. apply while_stop; [lia | exact Hc'].
Qed.

Lemma whileDo_stop {S : Type} (fuel : nat) (cond : S -> bool) (body : S -> S) (s : S) :
  (0 < fuel)%nat -> cond s = false -> whileDo fuel cond body s = Some s.
Proof. apply while_stop. Qed.

Lemma indexOfRegex_none (re : Regex) (text : QString) (from : Z) :
  (forall pos, re text pos = None) -> indexOfRegex re text from = (-1, 0).
Proof.
  intros Hnone. unfold indexOfRegex.
  destruct (scanRegex re text _ _) as [[p captured] |] eqn:E; [| reflexivity].
  apply scanRegex_range in E as [_ E]. rewrite Hnone in E. discriminate.
Qed.

(** The search loops: [test] is false on a failed search, [next] goes on
    to a later position of the line or fails. *)
Lemma whileDo_search (test : Z -> bool) (next : Z -> Z) (size : Z) :
  test (-1) = false ->
  (forall i, 0 <= i -> next i = -1 \/ (i < next i /\ next i < size)) ->
  forall (fuel : nat) (i : Z),
    (i = -1 \/ (0 <= i /\ i < size)) ->
    0 <= size -> size + 2 <= Z.of_nat fuel ->
    exists r, whileDo fuel test next i = Some r
              /\ (r = -1 \/ (0 <= i /\ i <= r /\ r < size))
              /\ test r = false.
Proof.
  intros Htest Hnext fuel i Hi Hsize Hfuel.
  destruct (while_converges
              (fun j => if j =? -1 then 0%nat else Z.to_nat (size + 1 - j))
              (fun j => (j = -1 \/ (0 <= i /\ i <= j /\ j < size)))
              test (fun s => Some (Continue (next s)))) with (fuel := fuel) (s := i)
    as (r & Hr & Hinv).
  - intros j Hj Hc. eexists. split; [reflexivity |]. cbn beta iota.
    destruct Hj as [-> | Hj]; [congruence |].
    destruct (Z.eqb_spec j (-1)); [lia |].
    destruct (Hnext j ltac:(lia)) as [-> | Hn].
    + split; [left; reflexivity | cbn; lia].
    + split; [right; lia |]. destruct (Z.eqb_spec (next j) (-1)); lia.
  - destruct Hi as [-> | Hi]; [left; reflexivity | right; lia].
  - destruct (Z.eqb_spec i (-1)); lia.
  - exists r. split; [exact Hr |]. split; [exact Hinv |].
    apply (whileDo_exit test next fuel i r Hr).
Qed.

(** ** highlighter-sh.cpp: the helpers of the two scans *)

Section ShellLexerFacts.

Context {states : BlockStates} {helpers : Helpers} {sound : HelpersSound}.

Variable text : QString.

Lemma enoughFuel_Z (fuel : nat) :
  enoughFuel text fuel -> textLength text + 3 <= Z.of_nat fuel.
Proof. unfold enoughFuel, lineFuel, textLength. lia. Qed.

Lemma textLength_nonneg : 0 <= textLength text.
Proof. unfold textLength. lia. Qed.

Lemma SH_SkipQuote_notFound (h : Highlighter) (isStartQuote : bool) :
  SH_SkipQuote h text (-1) isStartQuote = false.
Proof.
  unfold SH_SkipQuote. rewrite isEscapedQuote_notFound.
  rewrite format_outside by lia. reflexivity.
Qed.

Lemma skipQuotes_total (fuel : nat) (h : Highlighter) (q : QuoteExpression)
      (isStartQuote : bool) (index : Z) :
  enoughFuel text fuel ->
  (index = -1 \/ (0 <= index /\ index < textLength text)) ->
  exists r, skipQuotes fuel h text q isStartQuote index = Some r
            /\ (r = -1 \/ (0 <= index /\ index <= r /\ r < textLength text))
            /\ SH_SkipQuote h text r isStartQuote = false.
Proof.
  intros Hfuel Hindex. apply enoughFuel_Z in Hfuel. pose proof textLength_nonneg.
  unfold skipQuotes. apply whileDo_search with (size := textLength text); try lia.
  - apply SH_SkipQuote_notFound.
  - intros i Hi. destruct (indexOfQuote_range q text (i + 1)) as [E | E]; [left; exact E |].
    right. lia.
Qed.

(** The search for a closing single quote that is not escaped. *)
Lemma escapedSearch_total (fuel : nat) (h : Highlighter) (index : Z) :
  enoughFuel text fuel ->
  (index = -1 \/ (0 <= index /\ index < textLength text)) ->
  exists r, whileDo fuel (fun e => isEscapedQuote h text e false)
                    (fun e => indexOfQuote singleQuoteMark text (e + 1)) index = Some r
            /\ (r = -1 \/ (0 <= index /\ index <= r /\ r < textLength text)).
Proof.
  intros Hfuel Hindex. apply enoughFuel_Z in Hfuel. pose proof textLength_nonneg.
  destruct (whileDo_search (fun e => isEscapedQuote h text e false)
              (fun e => indexOfQuote singleQuoteMark text (e + 1)) (textLength text))
    with (fuel := fuel) (i := index) as (r & Hr & Hrange & _); try lia.
  - apply isEscapedQuote_notFound.
  - intros i Hi.
    destruct (indexOfQuote_range singleQuoteMark text (i + 1)) as [E | E];
      [left; exact E | right; lia].
  - exists r. split; assumption.
Qed.

Lemma findHereDocDelimPos_total (fuel : nat) (h : Highlighter) :
  enoughFuel text fuel ->
  exists pos, findHereDocDelimPos fuel text h = Some pos
              /\ (pos = -1 \/ (0 <= pos /\ pos <= textLength text)).
Proof.
  intros Hfuel. apply enoughFuel_Z in Hfuel. pose proof textLength_nonneg.
  unfold findHereDocDelimPos.
  destruct (currentBlockData h) as [curData |]; [| exists (-1); split; [reflexivity | lia]].
  destruct (negb (isEmpty (labelInfo curData))); [| exists (-1); split; [reflexivity | lia]].
  assert (Hnext : forall i, 0 <= i ->
                    fst (indexOfRegex hereDocDelimiter text (i + 2)) = -1
                    \/ (i < fst (indexOfRegex hereDocDelimiter text (i + 2))
                        /\ fst (indexOfRegex hereDocDelimiter text (i + 2)) < textLength text + 1)).
  { intros i Hi.
    destruct (indexOfRegex_range hereDocDelimiter text (i + 2)) as [E | E];
      [left; exact E | right; lia]. }
  assert (Hstart : fst (indexOfRegex hereDocDelimiter text 0) = -1
                   \/ (0 <= fst (indexOfRegex hereDocDelimiter text 0)
                       /\ fst (indexOfRegex hereDocDelimiter text 0) < textLength text + 1)).
  { destruct (indexOfRegex_range hereDocDelimiter text 0) as [E | E];
      [left; exact E | right; lia]. }
  destruct (whileDo_search (fun pos => (pos >? -1) && isQuoted h text pos true)
              (fun pos => fst (indexOfRegex hereDocDelimiter text (pos + 2)))
              (textLength text + 1) eq_refl Hnext fuel
              (fst (indexOfRegex hereDocDelimiter text 0)) Hstart ltac:(lia) ltac:(lia))
    as (r & Hr & Hrange & _).
  exists r. split; [exact Hr | lia].
Qed.

Lemma mid_length (pos n : Z) : textLength (mid text pos n) <= textLength text.
Proof.
  unfold mid, textLength. rewrite length_take, length_drop. lia.
Qed.

Lemma highlightUrlsWithinQuote_total (fuel : nat) (start length_ : Z) (h : Highlighter) :
  enoughFuel text fuel ->
  exists h', highlightUrlsWithinQuote fuel text start length_ h = Some h'
             /\ length (formatChanges h') = length (formatChanges h)
             /\ currentBlockState h' = currentBlockState h
             /\ currentBlockData h' = currentBlockData h.
Proof.
  intros Hfuel. apply enoughFuel_Z in Hfuel.
  pose proof (mid_length start length_) as Hmid.
  unfold highlightUrlsWithinQuote.
  set (segment := mid text start length_) in *.
  assert (Hseg : 0 <= textLength segment) by (unfold textLength; lia).
  destruct (while_converges
              (fun st : Z * Highlighter => Z.to_nat (textLength segment + 2 - fst st))
              (fun st : Z * Highlighter =>
                 (fst st = -1 \/ 0 <= fst st)
                 /\ length (formatChanges (snd st)) = length (formatChanges h)
                 /\ currentBlockState (snd st) = currentBlockState h
                 /\ currentBlockData (snd st) = currentBlockData h)
              (fun _ => true)
              (fun '(urlIndex, h) =>
                 let '(found, captured) := indexOfRegex urlPattern segment urlIndex in
                 if found >? -1
                 then Some (Continue (found + captured,
                                      setFormat (start + found) captured urlInsideQuoteFormat h))
                 else Some (Break (found, h))))
    with (fuel := fuel) (s := (0, h)) as (r & Hr & Hinv).
  - intros [urlIndex h0] (Hidx & Hlen & Hst & Hdata) _. cbn [fst snd] in *.
    pose proof (indexOfRegex_range urlPattern segment urlIndex) as Hrange.
    destruct (indexOfRegex urlPattern segment urlIndex) as [found captured] eqn:E.
    cbn [fst snd] in Hrange.
    destruct (Z.gtb_spec found (-1)) as [Hf | Hf].
    + eexists. split; [reflexivity |]. cbn [fst snd].
      destruct Hrange as [Hr | (H1 & H2 & H3 & H4)]; [lia |].
      apply urlPattern_nonempty in H4.
      split_and!; try lia.
      * rewrite setFormat_length. exact Hlen.
      * unfold setFormat.
        destruct ((start + found <? 0) || _); [exact Hst | exact Hst].
      * unfold setFormat.
        destruct ((start + found <? 0) || _); [exact Hdata | exact Hdata].
    + eexists. split; [reflexivity |]. cbn [fst snd].
      destruct Hrange as [-> | ?]; [| lia]. split_and!; auto.
  - cbn [fst snd]. split_and!; auto. right. lia.
  - cbn [fst]. lia.
  - rewrite Hr. cbn. exists (snd r). split; [reflexivity | apply Hinv].
Qed.

(** *** SH_MultiLineQuote *)


(** One iteration of the main loop returns, moves to a later quote or
    ends the loop, and keeps one format per character. *)
Lemma quoteLoopBody_total (fuel : nat) (wasQuoted : bool) (initialState hereDocDelimPos : Z)
      (index : Z) (q : QuoteExpression) (h : Highlighter) :
  enoughFuel text fuel -> quotePosition text index ->
  exists index' h',
    quoteLoopBody fuel text wasQuoted initialState hereDocDelimPos (index, q, h)
    = Some (Continue (index', mixedQuoteMark, h'))
    /\ (index' = -1 \/ (index < index' /\ index' < textLength text))
    /\ length (formatChanges h') = length (formatChanges h).
Proof.
  intros Hfuel [Hidx0 Hidx]. pose proof textLength_nonneg as Hlen.
  unfold quoteLoopBody, findEndQuote.
  set (qe := if decide (q = mixedQuoteMark)
             then if isDoubleQuoteAt text index then quoteMark else singleQuoteMark
             else q).
  set (endIndex0 := if (index =? 0) && wasQuoted then indexOfQuote qe text 0
                    else indexOfQuote qe text (index + 1)).
  assert (Hend0 : endIndex0 = -1 \/ (index <= endIndex0 /\ 0 <= endIndex0
                                     /\ endIndex0 < textLength text)).
  { unfold endIndex0. destruct ((index =? 0) && wasQuoted) eqn:E.
    - apply andb_prop in E as [E _]. apply Z.eqb_eq in E. subst index.
      destruct (indexOfQuote_range qe text 0) as [-> | ?]; [left; reflexivity | right; lia].
    - destruct (indexOfQuote_range qe text (index + 1)) as [-> | ?];
        [left; reflexivity | right; lia]. }
  destruct (skipQuotes_total fuel h qe false endIndex0 Hfuel ltac:(lia))
    as (endIndex & -> & Hend & _).
  cbn [mbind option_bind].
  set (r := if endIndex =? -1 then _ else _).
  assert (Hr : length (formatChanges (snd r)) = length (formatChanges h)
               /\ ((fst r = 0 /\ index = 0 /\ textLength text = 0)
                   \/ (0 < fst r /\ index + fst r <= textLength text))).
  { unfold r. destruct (Z.eqb_spec endIndex (-1)) as [-> | Hne]; cbn [fst snd].
    - split.
      + destruct (negb (bool_decide (qe = quoteMark)) || (hereDocDelimPos =? -1));
          [reflexivity |].
        destruct (currentBlockData h) as [curData |]; [| reflexivity].
        destruct (openNests curData >? 0); reflexivity.
      + lia.
    - split; [reflexivity | lia]. }
  destruct r as [quoteLength h1]. cbn [fst snd] in Hr. destruct Hr as [Hlen1 Hql].
  set (h2 := if decide (qe = quoteMark)
             then setFormatWithoutOverwrite index quoteLength quoteFormat neutralFormat h1
             else setFormat index quoteLength altQuoteFormat h1).
  assert (Hlen2 : length (formatChanges h2) = length (formatChanges h)).
  { unfold h2. destruct (decide (qe = quoteMark)).
    - rewrite setFormatWithoutOverwrite_length. exact Hlen1.
    - rewrite setFormat_length. exact Hlen1. }
  destruct (highlightUrlsWithinQuote_total fuel index quoteLength h2 Hfuel)
    as (h3 & -> & Hlen3 & _).
  cbn [mbind option_bind].
  set (index0 := indexOfQuote mixedQuoteMark text (index + quoteLength)).
  assert (Hindex0 : index0 = -1 \/ (index < index0 /\ 0 <= index0
                                    /\ index0 < textLength text)).
  { unfold index0.
    destruct (indexOfQuote_range mixedQuoteMark text (index + quoteLength)) as [-> | ?];
      [left; reflexivity |]. destruct Hql; [lia | right; lia]. }
  destruct (skipQuotes_total fuel h3 mixedQuoteMark true index0 Hfuel ltac:(lia))
    as (index1 & -> & Hindex1 & _).
  cbn [mbind option_bind].
  eexists _, h3. split; [reflexivity |]. split; [| congruence].
  destruct ((hereDocDelimPos >? -1) && (index1 >? hereDocDelimPos)); [left; reflexivity |].
  lia.
Qed.

Lemma firstQuote_total (fuel : nat) (hereDocDelimPos : Z) (h : Highlighter) :
  enoughFuel text fuel ->
  exists index q, firstQuote fuel text hereDocDelimPos h = Some (index, q)
                  /\ (index = -1 \/ quotePosition text index).
Proof.
  intros Hfuel. unfold firstQuote, quotePosition.
  destruct (negb (wasQuotedBefore h)).
  - destruct (indexOfQuote_range mixedQuoteMark text 0) as [E | E];
      destruct (skipQuotes_total fuel h mixedQuoteMark true
                  (indexOfQuote mixedQuoteMark text 0) Hfuel ltac:(lia))
      as (index & -> & Hindex & _); cbn [mbind option_bind].
    all: destruct ((index >=? 0) && (hereDocDelimPos >? -1) && (index >? hereDocDelimPos));
      [eexists _, _; split; [reflexivity | left; reflexivity] |].
    all: destruct (Z.geb_spec index 0); eexists _, _; (split; [reflexivity | lia]).
  - eexists _, _. split; [reflexivity |]. right. lia.
Qed.

Lemma SH_MultiLineQuote_total (fuel : nat) (h : Highlighter) :
  enoughFuel text fuel ->
  exists h', SH_MultiLineQuote fuel text h = Some h'
             /\ length (formatChanges h') = length (formatChanges h).
Proof.
  intros Hfuel. unfold SH_MultiLineQuote.
  destruct (findHereDocDelimPos_total fuel h Hfuel) as (hereDocDelimPos & -> & _).
  cbn [mbind option_bind].
  destruct (firstQuote_total fuel hereDocDelimPos h Hfuel) as (index & q & -> & Hindex).
  cbn [mbind option_bind].
  destruct (while_converges
              (fun st : Z * QuoteExpression * Highlighter =>
                 if fst (fst st) =? -1 then 0%nat
                 else Z.to_nat (textLength text + 1 - fst (fst st)))
              (fun st : Z * QuoteExpression * Highlighter =>
                 (fst (fst st) = -1 \/ quotePosition text (fst (fst st)))
                 /\ length (formatChanges (snd st)) = length (formatChanges h))
              (fun '(index, _, _) => index >=? 0)
              (quoteLoopBody fuel text (wasQuotedBefore h) (currentBlockState h)
                             hereDocDelimPos))
    with (fuel := fuel) (s := (index, q, h)) as (r & Hr & Hinv).
  - intros [[i qe] h0] [Hi Hl] Hc. cbn [fst snd] in *.
    apply Z.geb_le in Hc.
    destruct Hi as [-> | Hi]; [lia |].
    destruct (quoteLoopBody_total fuel (wasQuotedBefore h) (currentBlockState h)
                hereDocDelimPos i qe h0 Hfuel Hi) as (i' & h' & -> & Hi' & Hl').
    eexists. split; [reflexivity |]. cbn [fst snd]. unfold quotePosition in *.
    split; [split; [| congruence] |].
    + destruct Hi' as [-> | ?]; [left; reflexivity | right; lia].
    + pose proof textLength_nonneg.
      destruct (Z.eqb_spec i (-1)); [lia |].
      destruct (Z.eqb_spec i' (-1)); lia.
  - cbn [fst snd]. split; [exact Hindex | reflexivity].
  - cbn [fst snd]. apply enoughFuel_Z in Hfuel. unfold quotePosition in Hindex.
    pose proof textLength_nonneg.
    destruct (Z.eqb_spec index (-1)); lia.
  - rewrite Hr. cbn [mbind option_bind]. exists (snd r). split; [reflexivity | apply Hinv].
Qed.

(** *** formatInsideCommand *)

Lemma charAt_inside (i : Z) :
  0 <= i -> i < textLength text -> exists c, charAt text i = Some c.
Proof.
  intros H0 H1. unfold charAt, textLength in *.
  destruct (Z.ltb_spec i 0); [lia |].
  apply lookup_lt_is_Some_2. lia.
Qed.

Lemma skipCommentFormats_total (fuel : nat) (h : Highlighter) (index : Z) :
  enoughFuel text fuel -> 0 <= index ->
  exists r, skipCommentFormats fuel text h index = Some r
            /\ index <= r /\ r <= Z.max index (textLength text).
Proof.
  intros Hfuel Hindex. apply enoughFuel_Z in Hfuel. pose proof textLength_nonneg.
  unfold skipCommentFormats, whileDo.
  apply (while_converges
           (fun i => Z.to_nat (textLength text - i))
           (fun i => index <= i /\ i <= Z.max index (textLength text))).
  - intros i Hi Hc. apply andb_prop in Hc as [Hc _]. apply Z.ltb_lt in Hc.
    eexists. split; [reflexivity |]. cbn beta iota. lia.
  - lia.
  - lia.
Qed.

Lemma handleSingleQuote_total (fuel : nat) (index : Z)
      (inComment_ doubleQuoted_ isHereDocStart : bool) (h : Highlighter) :
  enoughFuel text fuel -> 0 <= index -> index < textLength text ->
  exists index' h',
    handleSingleQuote fuel text index inComment_ doubleQuoted_ isHereDocStart h
    = Some (index', h')
    /\ index < index' /\ index' <= textLength text
    /\ length (formatChanges h') = length (formatChanges h).
Proof.
  intros Hfuel H0 H1. unfold handleSingleQuote.
  destruct inComment_;
    [eexists _, _; split; [reflexivity | rewrite setFormat_length; lia] |].
  destruct doubleQuoted_;
    [eexists _, _; split; [reflexivity | rewrite setFormat_length; lia] |].
  destruct (isEscapedQuote h text index true);
    [eexists _, _; split; [reflexivity | lia] |].
  assert (Hstart : indexOfQuote singleQuoteMark text (index + 1) = -1
                   \/ (0 <= indexOfQuote singleQuoteMark text (index + 1)
                       /\ indexOfQuote singleQuoteMark text (index + 1) < textLength text))
    by (destruct (indexOfQuote_range singleQuoteMark text (index + 1)); [left | right]; lia).
  destruct (escapedSearch_total fuel h _ Hfuel Hstart) as (end_ & -> & Hend).
  cbn [mbind option_bind].
  destruct (Z.eqb_spec end_ (-1)).
  - eexists _, _. split; [reflexivity |].
    destruct (negb isHereDocStart); cbn [setCurrentBlockState formatChanges];
      rewrite setFormat_length; lia.
  - eexists _, _. split; [reflexivity |]. rewrite setFormat_length.
    destruct (indexOfQuote_range singleQuoteMark text (index + 1)); lia.
Qed.

Lemma handleDollarSign_total
      (recurse : Z -> Z -> gset Z -> Z -> Highlighter -> option CommandResult)
      (bound : Z) (index : Z) (inComment_ doubleQuoted_ : bool)
      (nests : Z) (qs : gset Z) (h : Highlighter) :
  recursionSound text bound recurse ->
  0 <= index -> index < textLength text -> textLength text - index < bound + 2 ->
  exists index' nests' qs' h',
    handleDollarSign recurse text index inComment_ doubleQuoted_ nests qs h
    = Some (index', nests', qs', h')
    /\ index < index' /\ index' <= textLength text /\ nests <= nests'
    /\ length (formatChanges h') = length (formatChanges h).
Proof.
  intros Hrec H0 H1 Hb. unfold handleDollarSign.
  destruct inComment_;
    [eexists _, _, _, _; split; [reflexivity | rewrite setFormat_length; lia] |].
  destruct (bool_decide (mid text index 2 = str "$(")) eqn:E.
  - apply bool_decide_eq_true in E.
    assert (Hlen : index + 2 <= textLength text).
    { apply (f_equal length) in E. unfold mid in E.
      rewrite length_take, length_drop in E. cbn in E. unfold textLength. lia. }
    destruct (Hrec (nests + 1 - 1) (nests + 1) qs (index + 2)
                   (setFormat index 2 neutralFormat h) ltac:(lia) ltac:(lia) ltac:(lia))
      as ([[[index' nests'] qs'] h'] & -> & Hok).
    unfold commandResultOk in Hok. rewrite setFormat_length in Hok.
    eexists _, _, _, _. split; [reflexivity | lia].
  - eexists _, _, _, _. split; [reflexivity |].
    destruct doubleQuoted_; rewrite setFormat_length; lia.
Qed.

(** One iteration of the scan loop returns and moves the scan forward;
    a close parenthesis takes at most one level off the nest count. *)
Lemma commandStep_advances
      (recurse : Z -> Z -> gset Z -> Z -> Highlighter -> option CommandResult)
      (bound : Z) (fuel : nat) (initialOpenNests : Z) (isHereDocStart : bool)
      (s : CommandScan) :
  enoughFuel text fuel -> recursionSound text bound recurse ->
  0 <= currentIndex s -> currentIndex s < textLength text ->
  textLength text - currentIndex s < bound + 2 ->
  exists r, commandStep recurse fuel text initialOpenNests isHereDocStart s = Some r
            /\ match r with
               | Continue s' =>
                 currentIndex s < currentIndex s' /\ currentIndex s' <= textLength text
                 /\ nestCount s - 1 <= nestCount s'
                 /\ length (formatChanges (scanHighlighter s'))
                    = length (formatChanges (scanHighlighter s))
               | Break s' =>
                 currentIndex s < currentIndex s' /\ currentIndex s' <= textLength text
                 /\ nestCount s' = nestCount s
                 /\ length (formatChanges (scanHighlighter s'))
                    = length (formatChanges (scanHighlighter s))
               end.
Proof.
  intros Hfuel Hrec H0 H1 Hb. unfold commandStep.
  destruct (skipCommentFormats_total fuel (scanHighlighter s) (currentIndex s) Hfuel H0)
    as (index & -> & Hi0 & Hi1).
  cbn [mbind option_bind].
  destruct (Z.geb_spec index (textLength text)) as [Hge | Hlt].
  { eexists. split; [reflexivity |]. cbn. lia. }
  destruct (charAt_inside index ltac:(lia) Hlt) as (c & ->).
  destruct (bool_decide (c = "'"%char)).
  { destruct (handleSingleQuote_total fuel index (inComment s) (doubleQuoted s)
                isHereDocStart (scanHighlighter s) Hfuel ltac:(lia) Hlt)
      as (index' & h' & -> & Hok).
    cbn [mbind option_bind]. eexists. split; [reflexivity |]. cbn. lia. }
  destruct (bool_decide (c = doubleQuoteChar)).
  { unfold handleDoubleQuote.
    destruct (inComment s); [| destruct (negb (isEscapedQuote _ _ _ _))];
      (eexists; split; [reflexivity |]); cbn; rewrite ?setFormat_length; lia. }
  destruct (bool_decide (c = "$"%char)).
  { destruct (handleDollarSign_total recurse bound index (inComment s) (doubleQuoted s)
                (nestCount s) (quotes s) (scanHighlighter s) Hrec ltac:(lia) Hlt ltac:(lia))
      as (index' & nests' & qs' & h' & -> & Hok).
    cbn [mbind option_bind]. eexists. split; [reflexivity |]. cbn. lia. }
  destruct (bool_decide (c = "("%char)).
  { unfold handleOpenParenthesis.
    destruct (doubleQuoted s); [| destruct (inComment s)];
      (eexists; split; [reflexivity |]); cbn; rewrite ?setFormat_length; lia. }
  destruct (bool_decide (c = ")"%char)).
  { eexists. split; [reflexivity |]. unfold handleCloseParenthesis.
    destruct (doubleQuoted s); [cbn; rewrite setFormat_length; lia |].
    destruct (negb (isEscapedChar _ _ _));
      [destruct (parenDepth s - 1 <? 0); [| destruct (inComment s)] | destruct (inComment s)];
      cbn; rewrite setFormat_length; lia. }
  destruct (bool_decide (c = "#"%char)).
  { unfold handleCommentSign.
    destruct (inComment s); [| destruct (doubleQuoted s); [| destruct (_ || _)]];
      (eexists; split; [reflexivity |]); cbn; rewrite ?setFormat_length; lia. }
  unfold handleDefaultChar.
  destruct (inComment s); [| destruct (doubleQuoted s)];
    (eexists; split; [reflexivity |]); cbn; rewrite ?setFormat_length; lia.
Qed.

Lemma finishCommandScan_ok (minOpenNests initialOpenNests : Z) (isHereDocStart : bool)
      (index : Z) (h : Highlighter) (s : CommandScan) :
  index <= currentIndex s -> currentIndex s <= Z.max index (textLength text) ->
  length (formatChanges (scanHighlighter s)) = length (formatChanges h) ->
  commandResultOk text minOpenNests index h
                  (finishCommandScan minOpenNests initialOpenNests isHereDocStart s).
Proof.
  intros H0 H1 Hl. unfold finishCommandScan, commandResultOk.
  destruct (doubleQuoted s).
  - destruct (negb isHereDocStart && _); cbn [setCurrentBlockState formatChanges];
      destruct (Z.ltb_spec (nestCount s) minOpenNests); lia.
  - destruct (Z.ltb_spec (nestCount s) minOpenNests); lia.
Qed.

(** The scan loop returns on fuel above the number of characters left,
    ends at or after the position it started from, keeps the nest count
    at or above the enclosing level, and keeps one format per
    character. *)
Lemma scanCommand_total (loopFuel : nat) :
  enoughFuel text loopFuel ->
  forall (fuel : nat) (minOpenNests initialOpenNests : Z) (isHereDocStart : bool)
         (s : CommandScan),
    0 <= currentIndex s ->
    Z.max 0 (textLength text - currentIndex s) < Z.of_nat fuel ->
    exists s',
      scanCommand loopFuel fuel text minOpenNests initialOpenNests isHereDocStart s = Some s'
      /\ currentIndex s <= currentIndex s'
      /\ currentIndex s' <= Z.max (currentIndex s) (textLength text)
      /\ (minOpenNests <= nestCount s -> minOpenNests <= nestCount s')
      /\ length (formatChanges (scanHighlighter s'))
         = length (formatChanges (scanHighlighter s))
      /\ (commandLoopCondition text minOpenNests s = true ->
          currentIndex s < currentIndex s').
Proof.
  intros Hfuel. induction fuel as [| fuel IH];
    intros minOpenNests initialOpenNests isHereDocStart s H0 Hb; [lia |].
  cbn [scanCommand]. unfold commandLoopCondition.
  destruct (Z.gtb_spec (nestCount s) minOpenNests) as [Hn | Hn];
    [| exists s; cbn [andb]; split; [reflexivity | split_and!; try lia; discriminate]].
  destruct (Z.ltb_spec (currentIndex s) (textLength text)) as [Hc | Hc];
    [| exists s; cbn [andb]; split; [reflexivity | split_and!; try lia; discriminate]].
  cbn [andb].
  match goal with
  | |- context [commandStep ?rec _ _ _ _ _] => set (recurse := rec)
  end.
  assert (Hrec : recursionSound text (Z.of_nat fuel) recurse).
  { intros min' nest' quotes' index' h' Hi0 Hi1 Hi2. unfold recurse.
    destruct (IH min' nest' isHereDocStart (startCommandScan nest' quotes' index' h'))
      as (s' & -> & Hs1 & Hs2 & _ & Hs4 & _); cbn [startCommandScan currentIndex] in *;
      [lia | lia |].
    cbn [mbind option_bind]. eexists. split; [reflexivity |].
    apply finishCommandScan_ok; assumption. }
  destruct (commandStep_advances recurse (Z.of_nat fuel) loopFuel initialOpenNests
              isHereDocStart s Hfuel Hrec H0 Hc ltac:(lia)) as (r & -> & Hr).
  destruct r as [s1 | s1].
  - destruct Hr as (Hr1 & Hr2 & Hr3 & Hr4).
    destruct (IH minOpenNests initialOpenNests isHereDocStart s1 ltac:(lia) ltac:(lia))
      as (s' & -> & Hs1 & Hs2 & Hs3 & Hs4 & _).
    exists s'. split; [reflexivity |]. split_and!; lia.
  - exists s1. split; [reflexivity |]. split_and!; lia.
Qed.

Lemma formatInsideCommand_total (fuel : nat) (minOpenNests nests : Z) (qs : gset Z)
      (isHereDocStart : bool) (index : Z) (h : Highlighter) :
  enoughFuel text fuel -> 0 <= index ->
  exists r, formatInsideCommand fuel text minOpenNests nests qs isHereDocStart index h = Some r
            /\ commandResultOk text minOpenNests index h r.
Proof.
  intros Hfuel H0. unfold formatInsideCommand.
  pose proof (enoughFuel_Z fuel Hfuel) as HfuelZ.
  destruct (scanCommand_total fuel Hfuel fuel minOpenNests nests isHereDocStart
              (startCommandScan nests qs index h))
    as (s' & -> & Hs1 & Hs2 & _ & Hs4 & _); cbn [startCommandScan currentIndex] in *;
    [lia | pose proof textLength_nonneg; lia |].
  cbn [mbind option_bind]. eexists. split; [reflexivity |].
  apply finishCommandScan_ok; assumption.
Qed.

(** With an open nest and characters left, the call ends after the
    position it started from. *)
Lemma formatInsideCommand_advances (fuel : nat) (minOpenNests nests : Z) (qs : gset Z)
      (isHereDocStart : bool) (index : Z) (h : Highlighter) :
  enoughFuel text fuel -> 0 <= index -> index < textLength text -> minOpenNests < nests ->
  exists index' nests' qs' h',
    formatInsideCommand fuel text minOpenNests nests qs isHereDocStart index h
    = Some (index', nests', qs', h')
    /\ index < index' /\ index' <= textLength text /\ minOpenNests <= nests'
    /\ length (formatChanges h') = length (formatChanges h).
Proof.
  intros Hfuel H0 H1 Hn. unfold formatInsideCommand.
  pose proof (enoughFuel_Z fuel Hfuel) as HfuelZ.
  destruct (scanCommand_total fuel Hfuel fuel minOpenNests nests isHereDocStart
              (startCommandScan nests qs index h))
    as (s' & -> & Hs1 & Hs2 & _ & Hs4 & Hs5); cbn [startCommandScan currentIndex] in *;
    [lia | lia |].
  cbn [mbind option_bind].
  pose proof (finishCommandScan_ok minOpenNests nests isHereDocStart index h s'
                Hs1 Hs2 Hs4) as Hok.
  assert (Hlt : index < currentIndex s').
  { apply Hs5. unfold commandLoopCondition, startCommandScan.
    cbn [nestCount currentIndex]. apply andb_true_intro.
    split; [rewrite Z.gtb_ltb |]; apply Z.ltb_lt; lia. }
  unfold commandResultOk in Hok. unfold finishCommandScan in *.
  destruct (doubleQuoted s'); eexists _, _, _, _; (split; [reflexivity | lia]).
Qed.

(** *** SH_CmndSubstVar *)

Lemma closeOpenQuoteFromPreviousBlock_total (fuel : nat) (prevState : Z)
      (isHereDocStart : bool) (h : Highlighter) :
  enoughFuel text fuel ->
  exists index h',
    closeOpenQuoteFromPreviousBlock fuel text prevState isHereDocStart h = Some (index, h')
    /\ 0 <= index /\ index <= textLength text
    /\ length (formatChanges h') = length (formatChanges h).
Proof.
  intros Hfuel. pose proof textLength_nonneg. unfold closeOpenQuoteFromPreviousBlock.
  destruct ((prevState =? SH_SingleQuoteState) || (prevState =? SH_MixedSingleQuoteState));
    [| eexists _, _; split; [reflexivity | lia]].
  assert (Hstart : indexOfQuote singleQuoteMark text 0 = -1
                   \/ (0 <= indexOfQuote singleQuoteMark text 0
                       /\ indexOfQuote singleQuoteMark text 0 < textLength text))
    by (destruct (indexOfQuote_range singleQuoteMark text 0); [left | right]; lia).
  destruct (escapedSearch_total fuel h _ Hfuel Hstart) as (end_ & -> & Hend).
  cbn [mbind option_bind].
  destruct (Z.eqb_spec end_ (-1)); eexists _, _; (split; [reflexivity |]).
  - destruct (negb isHereDocStart); cbn [setCurrentBlockState formatChanges];
      rewrite setFormat_length; lia.
  - rewrite setFormat_length. lia.
Qed.

(** One iteration of the loop of [SH_CmndSubstVar]: it returns; when it
    goes on, the nest count is not negative, and the start index has
    moved forward unless the nest count came in negative. *)
Lemma substLoopBody_total (fuel : nat) (isHereDocStart : bool)
      (startIndex nests : Z) (qs : gset Z) (h : Highlighter) :
  enoughFuel text fuel -> 0 <= startIndex -> startIndex < textLength text ->
  exists r, substLoopBody fuel text isHereDocStart (startIndex, nests, qs, h) = Some r
            /\ match r with
               | Continue (startIndex', nests', _, h') =>
                 0 <= nests' /\ startIndex <= startIndex'
                 /\ startIndex' <= textLength text
                 /\ (0 <= nests -> startIndex < startIndex')
                 /\ length (formatChanges h') = length (formatChanges h)
               | Break st' => st' = (startIndex, nests, qs, h)
               end.
Proof.
  intros Hfuel H0 H1. unfold substLoopBody.
  destruct (Z.eqb_spec nests 0) as [-> | Hne].
  - destruct ((indexOfCodeBlockStart text startIndex =? -1) || _) eqn:E;
      [eexists; split; [reflexivity | reflexivity] |].
    apply orb_false_elim in E as [E _]. apply Z.eqb_neq in E.
    unfold indexOfCodeBlockStart in *.
    destruct (findCodeBlockStart_range text 0 startIndex ltac:(lia)) as [Hf | Hf];
      [contradiction |].
    assert (Hf' : findCodeBlockStart text 0 startIndex + 2 <= textLength text)
      by (unfold textLength; lia).
    destruct (formatInsideCommand_total fuel 0 (0 + 1) qs isHereDocStart
                (findCodeBlockStart text 0 startIndex + 2)
                (setFormat (findCodeBlockStart text 0 startIndex) 2 neutralFormat h)
                Hfuel ltac:(lia))
      as ([[[index' nests'] qs'] h'] & -> & Hok).
    cbn [mbind option_bind]. eexists. split; [reflexivity |].
    unfold commandResultOk in Hok. rewrite setFormat_length in Hok.
    cbn beta iota. lia.
  - destruct (Z.lt_ge_cases 0 nests) as [Hpos | Hneg].
    + destruct (formatInsideCommand_advances fuel 0 nests qs isHereDocStart startIndex h
                  Hfuel H0 H1 Hpos) as (index' & nests' & qs' & h' & -> & Hok).
      cbn [mbind option_bind]. eexists. split; [reflexivity |]. cbn beta iota. lia.
    + destruct (formatInsideCommand_total fuel 0 nests qs isHereDocStart startIndex h
                  Hfuel H0) as ([[[index' nests'] qs'] h'] & -> & Hok).
      cbn [mbind option_bind]. eexists. split; [reflexivity |].
      unfold commandResultOk in Hok. cbn beta iota. lia.
Qed.

(** [SH_CmndSubstVar] past its guard returns; its flag compares the
    nest count and the open quotes with the old ones; the nest count is
    not negative when the previous block's is not; the formats keep
    their length. *)
Lemma substituteCommands_total (fuel : nat) (blockData : TextBlockData)
      (oldOpenNests : Z) (oldOpenQuotes : gset Z) (h : Highlighter) :
  enoughFuel text fuel ->
  exists r,
    substituteCommands fuel text blockData oldOpenNests oldOpenQuotes h = Some r
    /\ rehighlightNext r
       = negb (bool_decide (substNestCount r = oldOpenNests))
         || negb (bool_decide (substOpenQuotes r = oldOpenQuotes))
    /\ (0 <= match previousBlockData h with
             | Some prevData => openNests prevData
             | None => 0
             end -> 0 <= substNestCount r)
    /\ openNests (substBlockData r)
       = (if substNestCount r >? 0 then substNestCount r else openNests blockData)
    /\ length (formatChanges (substHighlighter r)) = length (formatChanges h).
Proof.
  intros Hfuel. pose proof textLength_nonneg as Hlen.
  pose proof (enoughFuel_Z fuel Hfuel) as HfuelZ.
  unfold substituteCommands.
  set (nest0 := match previousBlockData h with
                | Some prevData => openNests prevData
                | None => 0
                end).
  set (quotes0 := match previousBlockData h with
                  | Some prevData => openQuotes prevData
                  | None => ∅
                  end).
  set (isHereDocStart := (currentBlockState h <? -1) || (currentBlockState h >=? endState)).
  assert (Hstart : exists startIndex h0,
             (if (nest0 >? 0)
                 && ((previousBlockState h =? SH_SingleQuoteState)
                     || (previousBlockState h =? SH_DoubleQuoteState)
                     || (previousBlockState h =? SH_MixedDoubleQuoteState)
                     || (previousBlockState h =? SH_MixedSingleQuoteState))
              then closeOpenQuoteFromPreviousBlock fuel text (previousBlockState h)
                                                   isHereDocStart h
              else Some (0, h)) = Some (startIndex, h0)
             /\ 0 <= startIndex /\ startIndex <= textLength text
             /\ length (formatChanges h0) = length (formatChanges h)).
  { destruct ((nest0 >? 0) && _).
    - apply closeOpenQuoteFromPreviousBlock_total, Hfuel.
    - eexists _, _. split; [reflexivity | lia]. }
  destruct Hstart as (startIndex & h0 & -> & Hs0 & Hs1 & Hl0).
  cbn [mbind option_bind].
  destruct (while_converges
              (fun st : Z * Z * gset Z * Highlighter =>
                 let '(i, n, _, _) := st in
                 (Z.to_nat (textLength text - i)%Z + (if (n <? 0)%Z then 1 else 0))%nat)
              (fun st : Z * Z * gset Z * Highlighter =>
                 let '(i, n, _, h') := st in
                 0 <= i /\ i <= textLength text /\ (0 <= nest0 -> 0 <= n)
                 /\ length (formatChanges h') = length (formatChanges h))
              (fun '(startIndex, _, _, _) => startIndex <? textLength text)
              (substLoopBody fuel text isHereDocStart))
    with (fuel := fuel) (s := (startIndex, nest0, quotes0, h0))
    as ([[[i n] q] h1] & -> & Hinv).
  - intros [[[i n] q] h'] (Hi0 & Hi1 & Hn & Hl) Hc. apply Z.ltb_lt in Hc.
    destruct (substLoopBody_total fuel isHereDocStart i n q h' Hfuel Hi0 Hc)
      as (r & -> & Hr).
    eexists. split; [reflexivity |].
    destruct r as [[[[i' n'] q'] h''] | st'].
    + destruct Hr as (Hr0 & Hr1 & Hr2 & Hr3 & Hr4).
      split; [split_and!; lia |].
      destruct (Z.ltb_spec n' 0); [lia |]. destruct (Z.ltb_spec n 0); lia.
    + subst st'. split_and!; lia.
  - split_and!; lia.
  - destruct (nest0 <? 0); lia.
  - cbn [mbind option_bind]. destruct Hinv as (Hi0 & Hi1 & Hn & Hl).
    eexists. split; [reflexivity |]. cbn [rehighlightNext substNestCount substOpenQuotes
                                         substBlockData substHighlighter].
    split; [reflexivity |]. split; [exact Hn |]. split.
    + destruct (n >? 0); cbn [insertNestInfo openNests];
        destruct (negb (bool_decide (q = ∅))); reflexivity.
    + destruct ((n >? 0) && isHereDocStart); cbn [setCurrentBlockState formatChanges];
        exact Hl.
Qed.

(** *** The here-doc marker *)

Lemma skipQuotes_notFound (fuel : nat) (h : Highlighter) (q : QuoteExpression)
      (isStartQuote : bool) :
  enoughFuel text fuel -> skipQuotes fuel h text q isStartQuote (-1) = Some (-1).
Proof.
  intros Hfuel. apply enoughFuel_Z in Hfuel. pose proof textLength_nonneg.
  unfold skipQuotes. apply whileDo_stop; [lia | apply SH_SkipQuote_notFound].
Qed.

Lemma indexOfQuote_past_end (q : QuoteExpression) (from : Z) :
  textLength text <= from -> indexOfQuote q text from = -1.
Proof.
  intros Hfrom. destruct (indexOfQuote_range q text from) as [E | E]; [exact E | lia].
Qed.



Lemma SH_CmndSubstVar_returns (fuel : nat) (data : option TextBlockData)
      (oldOpenNests : Z) (oldOpenQuotes : gset Z) (h : Highlighter) :
  enoughFuel text fuel ->
  exists r, SH_CmndSubstVar fuel text data oldOpenNests oldOpenQuotes h = Some r.
Proof.
  intros Hfuel. unfold SH_CmndSubstVar.
  destruct data as [blockData |]; [| eauto].
  destruct (negb (bool_decide (progLan h = str "sh"))); [eauto |].
  destruct (substituteCommands_total fuel blockData oldOpenNests oldOpenQuotes h Hfuel)
    as (r & -> & _).
  cbn [mbind option_bind]. eauto.
Qed.

End ShellLexerFacts.

(** ** Spans *)

Lemma spansFrom_tiles (formats : list Format) :
  forall pos : nat, tiles pos (spansFrom pos formats) (pos + length formats).
Proof.
  induction formats as [| f rest IH]; intros pos; cbn [spansFrom length tiles]; [lia |].
  specialize (IH (S pos)).
  destruct (spansFrom (S pos) rest) as [| sp more].
  - cbn [tiles startOffset spanLength] in *. split_and!; [reflexivity | lia | lia].
  - cbn [tiles] in IH. destruct IH as (Hs & Hl & Ht).
    destruct (decide (category sp = categoryOf f)); cbn [tiles startOffset spanLength].
    + split_and!; [reflexivity | lia |].
      replace (pos + S (spanLength sp))%nat with (S pos + spanLength sp)%nat by lia.
      replace (pos + S (length rest))%nat with (S pos + length rest)%nat by lia.
      exact Ht.
    + split_and!; [reflexivity | lia | | lia |].
      * rewrite Hs. lia.
      * replace (pos + 1 + spanLength sp)%nat with (S pos + spanLength sp)%nat by lia.
        replace (pos + S (length rest))%nat with (S pos + length rest)%nat by lia.
        exact Ht.
Qed.

Lemma tiles_totalLength (spans : list FormatSpan) :
  forall from to : nat, tiles from spans to -> (from + totalLength spans = to)%nat.
Proof.
  induction spans as [| sp rest IH]; intros from to H; cbn [tiles totalLength foldr] in *.
  - lia.
  - destruct H as (_ & _ & Ht). apply IH in Ht. unfold totalLength in Ht. lia.
Qed.

Lemma tiles_bounds (spans : list FormatSpan) :
  forall (from to : nat) (sp : FormatSpan),
    tiles from spans to -> sp ∈ spans ->
    (from <= startOffset sp /\ startOffset sp + spanLength sp <= to)%nat.
Proof.
  induction spans as [| sp0 rest IH]; intros from to sp H Hin; [inversion Hin |].
  cbn [tiles] in H. destruct H as (Hs & Hl & Ht).
  pose proof (tiles_totalLength rest _ _ Ht) as Htot.
  apply elem_of_cons in Hin as [-> | Hin].
  - lia.
  - destruct (IH _ _ sp Ht Hin). lia.
Qed.

Lemma tiles_coveredOnce (spans : list FormatSpan) :
  forall (from to i : nat),
    tiles from spans to -> (from <= i < to)%nat -> coveredOnce spans i.
Proof.
  induction spans as [| sp0 rest IH]; intros from to i H Hi; cbn [tiles] in H; [lia |].
  destruct H as (Hs & Hl & Ht).
  destruct (Nat.lt_ge_cases i (from + spanLength sp0)) as [Hin | Hout].
  - exists sp0. split; [left |]. split; [unfold covers; lia |].
    intros sp' Hsp' Hc. apply elem_of_cons in Hsp' as [-> | Hsp']; [reflexivity |].
    destruct (tiles_bounds rest _ _ sp' Ht Hsp'). unfold covers in Hc. lia.
  - destruct (IH _ _ i Ht ltac:(lia)) as (sp & Hsp & Hc & Huniq).
    exists sp. split; [right; exact Hsp |]. split; [exact Hc |].
    intros sp' Hsp' Hc'. apply elem_of_cons in Hsp' as [-> | Hsp'].
    + unfold covers in Hc'. lia.
    + apply Huniq; assumption.
Qed.

(** One format per character gives spans that cover the line. *)
Lemma spansOf_coverage (formats : list Format) (n : nat) :
  length formats = n -> spanCoverage (spansOf formats) n.
Proof.
  intros <-. pose proof (spansFrom_tiles formats 0) as Ht. cbn [Nat.add] in Ht.
  unfold spanCoverage, spansOf. split; [exact Ht |]. split.
  - apply tiles_totalLength in Ht. lia.
  - intros i Hi. apply (tiles_coveredOnce _ 0 (length formats)); [exact Ht | lia].
Qed.

(** ** The sample helpers satisfy what the proofs ask of the helpers *)

Lemma sampleHelpers_sound : @HelpersSound sampleHelpers.
Proof.
  split.
  - intros h text isStartQuote. reflexivity.
  - intros text pos captured. cbn. unfold sampleUrlPattern.
    destruct (pos <? 0); [discriminate |].
    destruct (bool_decide _); [| discriminate].
    intros [= <-]. lia.
  - intros start count f old h. cbn. unfold sampleSetFormatWithoutOverwrite.
    cbn [setFormatChanges formatChanges]. apply length_imap.
  - intros start count f old h. reflexivity.
Qed.

(** ** highlighter-sh.cpp: the claims *)

(** C1, as stated, fails.  The line "$(echo abc" leaves the state 0, one
    open nest and no open quote; after a single quote is typed into it,
    the line leaves the state [SH_SingleQuoteState] with the same nest
    count and the same quote set, and the flag is false: the new triple
    differs from the cached one and no relexing is reported. *)
Lemma SH_CmndSubstVar_state_counterexample :
  exists before after : CmndSubst,
    @substituteCommands sampleStates sampleHelpers (lineFuel lineEchoAbc) lineEchoAbc
                        newTextBlockData 0 ∅ (enterBlock 0 None lineEchoAbc) = Some before
    /\ @substituteCommands sampleStates sampleHelpers (lineFuel lineEchoQuoteAbc)
                           lineEchoQuoteAbc newTextBlockData
                           (substNestCount before) (substOpenQuotes before)
                           (enterBlock 0 None lineEchoQuoteAbc) = Some after
    /\ currentBlockState (substHighlighter after)
       <> currentBlockState (substHighlighter before)
    /\ substNestCount after = substNestCount before
    /\ substOpenQuotes after = substOpenQuotes before
    /\ rehighlightNext after = false
    /\ exists h' d',
        @SH_CmndSubstVar sampleStates sampleHelpers (lineFuel lineEchoQuoteAbc)
                         lineEchoQuoteAbc (Some newTextBlockData)
                         (substNestCount before) (substOpenQuotes before)
                         (enterBlock 0 None lineEchoQuoteAbc) = Some (false, h', d').
Proof.
  eexists _, _. split; [vm_compute; reflexivity |].
  cbn [substNestCount substOpenQuotes].
  split; [vm_compute; reflexivity |].
  cbn [substNestCount substOpenQuotes substHighlighter currentBlockState rehighlightNext].
  split; [discriminate |]. split; [reflexivity |]. split; [reflexivity |].
  split; [reflexivity |].
  eexists _, _. vm_compute. reflexivity.
Qed.

Section ShellLexerClaims.

Context {states : BlockStates} {helpers : Helpers} {sound : HelpersSound}.

(** C1, amended.  [SH_CmndSubstVar] returns, and its flag is true
    exactly when the language is "sh", block data is present and the
    newly computed nest count or open-quote set differs from the old
    values handed in.  The carry-out state takes no part: when nest
    count and quote set are unchanged the flag is false whatever the
    state has become. *)
Theorem SH_CmndSubstVar_flag (text : QString) (fuel : nat)
        (currentBlockData_ : option TextBlockData)
        (oldOpenNests : Z) (oldOpenQuotes : gset Z) (h : Highlighter) :
  enoughFuel text fuel ->
  exists (flag : bool) (h' : Highlighter) (data' : option TextBlockData),
    SH_CmndSubstVar fuel text currentBlockData_ oldOpenNests oldOpenQuotes h
    = Some (flag, h', data')
    /\ ((progLan h <> str "sh" \/ currentBlockData_ = None) -> flag = false)
    /\ forall blockData,
        progLan h = str "sh" -> currentBlockData_ = Some blockData ->
        exists r,
          substituteCommands fuel text blockData oldOpenNests oldOpenQuotes h = Some r
          /\ h' = substHighlighter r /\ data' = Some (substBlockData r)
          /\ (flag = true <->
              substNestCount r <> oldOpenNests \/ substOpenQuotes r <> oldOpenQuotes)
          /\ (substNestCount r = oldOpenNests -> substOpenQuotes r = oldOpenQuotes ->
              flag = false).
Proof.
  intros Hfuel. unfold SH_CmndSubstVar.
  destruct currentBlockData_ as [blockData |].
  - destruct (decide (progLan h = str "sh")) as [Hsh | Hsh].
    + rewrite (bool_decide_eq_true_2 _ Hsh). cbn [negb].
      destruct (substituteCommands_total text fuel blockData oldOpenNests oldOpenQuotes h
                  Hfuel) as (r & Hr & Hflag & _).
      rewrite Hr. cbn [mbind option_bind].
      eexists _, _, _. split; [reflexivity |]. split.
      * intros [Hne | Hnone]; [contradiction | discriminate].
      * intros blockData' _ [= <-]. exists r. split; [exact Hr |].
        split; [reflexivity |]. split; [reflexivity |]. rewrite Hflag. split.
        -- split.
           ++ intros Hor. apply orb_prop in Hor as [Hn | Hq].
              ** left. apply negb_true_iff, bool_decide_eq_false in Hn. exact Hn.
              ** right. apply negb_true_iff, bool_decide_eq_false in Hq. exact Hq.
           ++ intros [Hn | Hq].
              ** rewrite (bool_decide_eq_false_2 _ Hn). reflexivity.
              ** rewrite (bool_decide_eq_false_2 _ Hq). apply orb_true_r.
        -- intros Hn Hq.
           rewrite (bool_decide_eq_true_2 _ Hn), (bool_decide_eq_true_2 _ Hq). reflexivity.
    + rewrite (bool_decide_eq_false_2 _ Hsh). cbn [negb].
      eexists _, _, _. split; [reflexivity |]. split; [reflexivity |].
      intros blockData' Hsh'. contradiction.
  - eexists _, _, _. split; [reflexivity |]. split; [reflexivity |].
    intros blockData' _ [=].
Qed.

(** C2.  After a pass of [SH_MultiLineQuote], of [formatInsideCommand]
    or of [SH_CmndSubstVar] over a line that came in with one format
    per character, the format spans of the line are contiguous and do
    not overlap, their lengths sum to the length of the line, and every
    character position lies in exactly one span. *)
Theorem spans_cover_the_line (text : QString) (fuel : nat) (h : Highlighter) :
  enoughFuel text fuel ->
  length (formatChanges h) = length text ->
  (exists h', SH_MultiLineQuote fuel text h = Some h'
              /\ spanCoverage (spansOf (formatChanges h')) (length text))
  /\ (forall (minOpenNests nests : Z) (qs : gset Z) (isHereDocStart : bool) (index : Z),
         0 <= index ->
         exists index' nests' qs' h',
           formatInsideCommand fuel text minOpenNests nests qs isHereDocStart index h
           = Some (index', nests', qs', h')
           /\ spanCoverage (spansOf (formatChanges h')) (length text))
  /\ (forall (data : option TextBlockData) (oldOpenNests : Z) (oldOpenQuotes : gset Z),
         exists flag h' data',
           SH_CmndSubstVar fuel text data oldOpenNests oldOpenQuotes h
           = Some (flag, h', data')
           /\ spanCoverage (spansOf (formatChanges h')) (length text)).
Proof.
  intros Hfuel Hlen. split; [| split].
  - destruct (SH_MultiLineQuote_total text fuel h Hfuel) as (h' & Hr & Hl).
    exists h'. split; [exact Hr |]. apply spansOf_coverage. congruence.
  - intros minOpenNests nests qs isHereDocStart index Hindex.
    destruct (formatInsideCommand_total text fuel minOpenNests nests qs isHereDocStart
                index h Hfuel Hindex) as ([[[index' nests'] qs'] h'] & Hr & Hok).
    exists index', nests', qs', h'. split; [exact Hr |].
    apply spansOf_coverage. unfold commandResultOk in Hok. lia.
  - intros data oldOpenNests oldOpenQuotes. unfold SH_CmndSubstVar.
    destruct data as [blockData |];
      [| eexists _, _, _; split; [reflexivity | apply spansOf_coverage, Hlen]].
    destruct (negb (bool_decide (progLan h = str "sh")));
      [eexists _, _, _; split; [reflexivity | apply spansOf_coverage, Hlen] |].
    destruct (substituteCommands_total text fuel blockData oldOpenNests oldOpenQuotes h
                Hfuel) as (r & -> & _ & _ & _ & Hl).
    cbn [mbind option_bind]. eexists _, _, _. split; [reflexivity |].
    apply spansOf_coverage. congruence.
Qed.

(** C3.  [formatInsideCommand] returns with a nest count that is not
    below the minimum nest level it was given, whatever the line holds.
    [SH_CmndSubstVar] ends with a nest count that is not negative when
    the previous block's is not, and the nest count it stores in the
    block data, which the next line takes over, is never negative when
    the block data came in with none. *)
Theorem openNests_never_negative (text : QString) (fuel : nat) (h : Highlighter) :
  enoughFuel text fuel ->
  (forall (minOpenNests nests : Z) (qs : gset Z) (isHereDocStart : bool) (index : Z),
      0 <= index ->
      exists index' nests' qs' h',
        formatInsideCommand fuel text minOpenNests nests qs isHereDocStart index h
        = Some (index', nests', qs', h')
        /\ minOpenNests <= nests')
  /\ (forall (blockData : TextBlockData) (oldOpenNests : Z) (oldOpenQuotes : gset Z),
         exists r,
           substituteCommands fuel text blockData oldOpenNests oldOpenQuotes h = Some r
           /\ (0 <= match previousBlockData h with
                    | Some prevData => openNests prevData
                    | None => 0
                    end -> 0 <= substNestCount r)
           /\ (0 <= openNests blockData -> 0 <= openNests (substBlockData r))).
Proof.
  intros Hfuel. split.
  - intros minOpenNests nests qs isHereDocStart index Hindex.
    destruct (formatInsideCommand_total text fuel minOpenNests nests qs isHereDocStart
                index h Hfuel Hindex) as ([[[index' nests'] qs'] h'] & Hr & Hok).
    exists index', nests', qs', h'. split; [exact Hr |].
    unfold commandResultOk in Hok. lia.
  - intros blockData oldOpenNests oldOpenQuotes.
    destruct (substituteCommands_total text fuel blockData oldOpenNests oldOpenQuotes h
                Hfuel) as (r & Hr & _ & Hn & Hstored & _).
    exists r. split; [exact Hr |]. split; [exact Hn |].
    intros Hdata. rewrite Hstored. destruct (Z.gtb_spec (substNestCount r) 0); lia.
Qed.

(** C9.  With fuel above the length of the line every loop of the
    lexer returns: [SH_MultiLineQuote], [formatInsideCommand] (also as
    the recursive call of [handleDollarSign]) and [SH_CmndSubstVar].
    Each iteration of the quote loop moves to a later quote of the line
    or ends the loop; each iteration of the command scan, with the
    recursive call it may make, ends at a later position inside the
    line; a call of [formatInsideCommand] returns at or after the
    position it was entered at, and strictly after it when the loop is
    entered at all. *)
Theorem shell_lexer_terminates (text : QString) (fuel : nat) :
  enoughFuel text fuel ->
  (forall h, exists h', SH_MultiLineQuote fuel text h = Some h')
  /\ (forall wasQuoted initialState hereDocDelimPos index q h,
         quotePosition text index ->
         exists index' h',
           quoteLoopBody fuel text wasQuoted initialState hereDocDelimPos (index, q, h)
           = Some (Continue (index', mixedQuoteMark, h'))
           /\ (index' = -1 \/ (index < index' /\ index' < textLength text)))
  /\ (forall minOpenNests nests qs isHereDocStart index h,
         0 <= index ->
         exists index' nests' qs' h',
           formatInsideCommand fuel text minOpenNests nests qs isHereDocStart index h
           = Some (index', nests', qs', h')
           /\ index <= index' /\ index' <= Z.max index (textLength text)
           /\ (minOpenNests < nests -> index < textLength text -> index < index'))
  /\ (forall isHereDocStart,
         recursionSound text (Z.of_nat fuel)
           (fun minOpenNests nests qs index h =>
              formatInsideCommand fuel text minOpenNests nests qs isHereDocStart index h))
  /\ (forall recurse bound initialOpenNests isHereDocStart s,
         recursionSound text bound recurse ->
         0 <= currentIndex s -> currentIndex s < textLength text ->
         textLength text - currentIndex s < bound + 2 ->
         exists r,
           commandStep recurse fuel text initialOpenNests isHereDocStart s = Some r
           /\ currentIndex s < currentIndex (stepState r)
           /\ currentIndex (stepState r) <= textLength text)
  /\ (forall data oldOpenNests oldOpenQuotes h,
         exists r, SH_CmndSubstVar fuel text data oldOpenNests oldOpenQuotes h = Some r).
Proof.
  intros Hfuel. split_and!.
  - intros h. destruct (SH_MultiLineQuote_total text fuel h Hfuel) as (h' & Hr & _).
    exists h'. exact Hr.
  - intros wasQuoted initialState hereDocDelimPos index q h Hindex.
    destruct (quoteLoopBody_total text fuel wasQuoted initialState hereDocDelimPos index q h
                Hfuel Hindex) as (index' & h' & Hr & Hadv & _).
    exists index', h'. split; assumption.
  - intros minOpenNests nests qs isHereDocStart index h Hindex.
    destruct (formatInsideCommand_total text fuel minOpenNests nests qs isHereDocStart
                index h Hfuel Hindex) as ([[[index' nests'] qs'] h'] & Hr & Hok).
    exists index', nests', qs', h'. split; [exact Hr |].
    unfold commandResultOk in Hok. split_and!; try lia.
    intros Hn Hlt.
    destruct (formatInsideCommand_advances text fuel minOpenNests nests qs isHereDocStart
                index h Hfuel Hindex Hlt Hn) as (i2 & n2 & q2 & h2 & Hr2 & Hadv & _).
    rewrite Hr in Hr2. injection Hr2 as <- <- <- <-. exact Hadv.
  - intros isHereDocStart minOpenNests nests qs index h Hi0 Hi1 Hi2.
    apply formatInsideCommand_total; assumption.
  - intros recurse bound initialOpenNests isHereDocStart s Hrec H0 H1 Hb.
    destruct (commandStep_advances text recurse bound fuel initialOpenNests isHereDocStart s
                Hfuel Hrec H0 H1 Hb) as (r & Hr & Hadv).
    exists r. split; [exact Hr |]. destruct r; cbn [stepState]; lia.
  - intros data oldOpenNests oldOpenQuotes h.
    apply SH_CmndSubstVar_returns, Hfuel.
Qed.

End ShellLexerClaims.

(** ** Scenario B *)

Section ScenarioB.

Context {states : BlockStates} {helpers : Helpers} {sound : HelpersSound}.

Variable fuel : nat.
Hypothesis fuel_enough : enoughFuel scenarioB fuel.

Variable h : Highlighter.

(** Nothing is formatted yet, no quote is carried in, no here-doc label
    is pending, and the block state is not one of the two states that
    turn an open double quote into a mixed one. *)
Hypothesis formats_empty : formatChanges h = replicate 8 defaultFormat.
Hypothesis carry_in_normal : wasQuotedBefore h = false.
Hypothesis no_label :
  match currentBlockData h with Some d => labelInfo d = [] | None => True end.
Hypothesis state_not_sh_double : currentBlockState h <> SH_DoubleQuoteState.
Hypothesis state_not_sh_single : currentBlockState h <> SH_SingleQuoteState.

(** What the helpers do on this line: the quote is not escaped, the
    quoted text holds no URL, and [setFormatWithoutOverwrite] writes the
    format over unformatted text. *)
Hypothesis quote_not_escaped : forall h', isEscapedQuote h' scenarioB 4 true = false.
Hypothesis no_url : forall pos, urlPattern (mid scenarioB 4 4) pos = None.
Hypothesis quote_written :
  forall h', formatChanges h' = replicate 8 defaultFormat ->
             formatChanges (setFormatWithoutOverwrite 4 4 quoteFormat neutralFormat h')
             = replicate 4 defaultFormat ++ replicate 4 quoteFormat.

Lemma fuel_positive : (1 < fuel)%nat.
Proof using fuel_enough. unfold enoughFuel, lineFuel in fuel_enough. lia. Qed.

Lemma scenarioB_no_here_doc : findHereDocDelimPos fuel scenarioB h = Some (-1).
Proof using no_label.
  unfold findHereDocDelimPos. destruct (currentBlockData h) as [d |]; [| reflexivity].
  rewrite no_label. reflexivity.
Qed.

Lemma scenarioB_first_quote : firstQuote fuel scenarioB (-1) h = Some (4, quoteMark).
Proof using fuel_enough formats_empty carry_in_normal quote_not_escaped.
  unfold firstQuote. rewrite carry_in_normal. cbn [negb].
  change (indexOfQuote mixedQuoteMark scenarioB 0) with 4.
  unfold skipQuotes. rewrite whileDo_stop.
  - reflexivity.
  - pose proof fuel_positive. lia.
  - unfold SH_SkipQuote. rewrite quote_not_escaped.
    unfold format. rewrite formats_empty. reflexivity.
Qed.


Lemma scenarioB_no_urls (h' : Highlighter) :
  highlightUrlsWithinQuote fuel scenarioB 4 4 h' = Some h'.
Proof using fuel_enough no_url.
  unfold highlightUrlsWithinQuote. pose proof fuel_positive as Hpos.
  rewrite (while_break fuel _ _ (0, h') (-1, h')); [reflexivity | lia | reflexivity |].
  cbn beta iota. rewrite (indexOfRegex_none urlPattern _ 0 no_url). reflexivity.
Qed.

Lemma skipQuotes_stop (h' : Highlighter) (q : QuoteExpression) (isStartQuote : bool)
      (index : Z) :
  SH_SkipQuote h' scenarioB index isStartQuote = false ->
  skipQuotes fuel h' scenarioB q isStartQuote index = Some index.
Proof using fuel_enough.
  intros Hskip. unfold skipQuotes. pose proof fuel_positive.
  apply whileDo_stop; [lia | exact Hskip].
Qed.

Lemma scenarioB_iteration :
  quoteLoopBody fuel scenarioB (wasQuotedBefore h) (currentBlockState h) (-1)
                (4, quoteMark, h)
  = Some (Continue (-1, mixedQuoteMark,
                    setFormatWithoutOverwrite 4 4 quoteFormat neutralFormat
                      (setCurrentBlockState doubleQuoteState h))).
Proof using fuel_enough sound state_not_sh_double state_not_sh_single no_url.
  unfold quoteLoopBody, findEndQuote. cbn beta iota zeta.
  destruct (decide (quoteMark = mixedQuoteMark)) as [E | _]; [discriminate |].
  change (4 =? 0) with false. cbn [andb].
  change (indexOfQuote quoteMark scenarioB (4 + 1)) with (-1).
  rewrite skipQuotes_stop by apply SH_SkipQuote_notFound.
  cbn [mbind option_bind].
  change (-1 =? -1) with true. cbn beta iota zeta.
  rewrite orb_true_r.
  change (textLength scenarioB - 4) with 4.
  destruct (decide (quoteMark = quoteMark)) as [_ | E]; [| contradiction].
  rewrite scenarioB_no_urls. cbn [mbind option_bind].
  change (indexOfQuote mixedQuoteMark scenarioB (4 + 4)) with (-1).
  rewrite skipQuotes_stop by apply SH_SkipQuote_notFound.
  cbn [mbind option_bind].
  change (-1 >? -1) with false. cbn [andb].
  unfold unterminatedQuoteState.
  destruct (decide (quoteMark = quoteMark)) as [_ | E]; [| contradiction].
  destruct (Z.eqb_spec (currentBlockState h) SH_DoubleQuoteState); [contradiction |].
  destruct (Z.eqb_spec (currentBlockState h) SH_SingleQuoteState); [contradiction |].
  reflexivity.
Qed.

(** C5.  For the line VAR= followed by a double quote and abc, with no
    quote carried in, no pending here-doc label and nothing formatted
    yet: [SH_CmndSubstVar] leaves the line as it is and counts no open
    nest; [SH_MultiLineQuote] gives a Neutral span over the first four
    characters followed by a DoubleQuoted span from the quote to the end
    of the line and leaves the state [doubleQuoteState]; the next block
    is entered with that state as its previous state and continues the
    double quote. *)
Theorem scenarioB_classification :
  (forall blockData oldOpenNests oldOpenQuotes,
      previousBlockData h = None ->
      exists r,
        substituteCommands fuel scenarioB blockData oldOpenNests oldOpenQuotes h = Some r
        /\ substHighlighter r = h /\ substBlockData r = blockData
        /\ substNestCount r = 0 /\ substOpenQuotes r = ∅)
  /\ exists h',
      SH_MultiLineQuote fuel scenarioB h = Some h'
      /\ spansOf (formatChanges h') = [mkSpan 0 4 Neutral; mkSpan 4 4 DoubleQuoted]
      /\ currentBlockState h' = doubleQuoteState
      /\ forall nextText,
          previousBlockState (enterNextBlock h' nextText) = doubleQuoteState
          /\ wasQuotedBefore (enterNextBlock h' nextText) = true
          /\ wasDoubleQuotedBefore (enterNextBlock h' nextText) = true.
Proof using All.
  pose proof fuel_positive as Hpos. split.
  - intros blockData oldOpenNests oldOpenQuotes Hprev.
    unfold substituteCommands. rewrite Hprev. cbn [Z.gtb Z.compare andb].
    cbn [mbind option_bind].
    rewrite (while_break fuel _ _ (0, 0, ∅, h) (0, 0, ∅, h));
      [| lia | reflexivity | reflexivity].
    cbn [mbind option_bind].
    eexists. split; [reflexivity |].
    cbn [substHighlighter substBlockData substNestCount substOpenQuotes].
    rewrite bool_decide_eq_true_2 by reflexivity. cbn [negb Z.gtb Z.compare andb].
    split_and!; reflexivity.
  - eexists. unfold SH_MultiLineQuote.
    rewrite scenarioB_no_here_doc. cbn [mbind option_bind].
    rewrite scenarioB_first_quote. cbn [mbind option_bind].
    rewrite (while_one_round fuel _ _ _ _ Hpos eq_refl scenarioB_iteration eq_refl).
    cbn [mbind option_bind snd].
    split; [reflexivity |].
    assert (Hfmt : formatChanges (setFormatWithoutOverwrite 4 4 quoteFormat neutralFormat
                                    (setCurrentBlockState doubleQuoteState h))
                   = replicate 4 defaultFormat ++ replicate 4 quoteFormat)
      by (apply quote_written; exact formats_empty).
    assert (Hstate : currentBlockState (setFormatWithoutOverwrite 4 4 quoteFormat
                                          neutralFormat
                                          (setCurrentBlockState doubleQuoteState h))
                     = doubleQuoteState)
      by (rewrite setFormatWithoutOverwrite_frame; reflexivity).
    split; [rewrite Hfmt; reflexivity |]. split; [exact Hstate |].
    intros nextText. unfold enterNextBlock, wasQuotedBefore, wasDoubleQuotedBefore.
    cbn [previousBlockState previousBlockData]. rewrite Hstate, Z.eqb_refl. cbn [orb].
    split; [reflexivity |].
    destruct (currentBlockData
                (setFormatWithoutOverwrite 4 4 quoteFormat neutralFormat
                   (setCurrentBlockState doubleQuoteState h)))
      as [prevData |]; [| split; reflexivity].
    destruct (getProperty prevData); split; reflexivity.
Qed.

End ScenarioB.


(** ** highlighter-sh.cpp: the nest count and the state of the command scan *)

Lemma setFormat_frame (start count : Z) (f : Format) (h : Highlighter) :
  sameBlock h (setFormat start count f h).
Proof.
  unfold sameBlock, setFormat.
  destruct ((start <? 0) || _); [destruct h; reflexivity | reflexivity].
Qed.

Lemma setFormat_state (start count : Z) (f : Format) (h : Highlighter) :
  currentBlockState (setFormat start count f h) = currentBlockState h.
Proof. rewrite (setFormat_frame start count f h). reflexivity. Qed.

Lemma charAt_elem (text : QString) (i : Z) (c : ascii) :
  charAt text i = Some c -> c ∈ text.
Proof.
  unfold charAt. destruct (i <? 0); [discriminate |].
  apply list_elem_of_lookup_2.
Qed.

Lemma findCodeBlockStart_none (l : QString) :
  "$"%char ∉ l -> forall pos from : Z, findCodeBlockStart l pos from = -1.
Proof.
  induction l as [| c l IH]; intros Hno pos from; [reflexivity |].
  cbn [findCodeBlockStart]. destruct l as [| d l']; [reflexivity |].
  apply not_elem_of_cons in Hno as [Hc Hl].
  rewrite (bool_decide_eq_false_2 (c = "$"%char)) by congruence.
  rewrite andb_false_r. cbn [andb]. apply IH. exact Hl.
Qed.

Section ShellLexerMore.

Context {states : BlockStates} {helpers : Helpers}.

Variable text : QString.

Lemma stateAfterCommands_refl (isHereDocStart : bool) (s : Z) :
  stateAfterCommands isHereDocStart s s.
Proof. left. reflexivity. Qed.

Lemma stateAfterCommands_trans (isHereDocStart : bool) (s1 s2 s3 : Z) :
  stateAfterCommands isHereDocStart s1 s2 -> stateAfterCommands isHereDocStart s2 s3 ->
  stateAfterCommands isHereDocStart s1 s3.
Proof.
  intros [-> | H12] [-> | H23]; [left; reflexivity | right; exact H23 | right; exact H12 |].
  right. exact H23.
Qed.

Lemma handleSingleQuote_state (fuel : nat) (index : Z)
      (inComment_ doubleQuoted_ isHereDocStart : bool) (h h' : Highlighter) (index' : Z) :
  handleSingleQuote fuel text index inComment_ doubleQuoted_ isHereDocStart h
  = Some (index', h') ->
  stateAfterCommands isHereDocStart (currentBlockState h) (currentBlockState h').
Proof.
  unfold handleSingleQuote.
  destruct inComment_; [intros [= <- <-]; left; apply setFormat_state |].
  destruct doubleQuoted_; [intros [= <- <-]; left; apply setFormat_state |].
  destruct (isEscapedQuote h text index true); [intros [= <- <-]; left; reflexivity |].
  destruct (whileDo _ _ _ _) as [end_ |]; [| discriminate]. cbn [mbind option_bind].
  destruct (end_ =? -1); intros [= <- <-]; [| left; apply setFormat_state].
  destruct isHereDocStart; cbn [negb]; [left; apply setFormat_state |].
  right. split; [reflexivity | left; reflexivity].
Qed.

Lemma finishCommandScan_facts (minOpenNests initialOpenNests : Z) (isHereDocStart : bool)
      (nests : Z) (h : Highlighter) (s : CommandScan) :
  (")"%char ∉ text -> nests <= nestCount s) ->
  ("$"%char ∉ text -> nestCount s <= nests) ->
  stateAfterCommands isHereDocStart (currentBlockState h)
                     (currentBlockState (scanHighlighter s)) ->
  commandFacts text isHereDocStart minOpenNests nests h
               (finishCommandScan minOpenNests initialOpenNests isHereDocStart s).
Proof.
  intros Hup Hdown Hstate. unfold finishCommandScan, commandFacts.
  assert (Hn : minOpenNests <= (if nestCount s <? minOpenNests then minOpenNests
                                else nestCount s)
               /\ (")"%char ∉ text ->
                   nests <= (if nestCount s <? minOpenNests then minOpenNests
                             else nestCount s))
               /\ ("$"%char ∉ text ->
                   (if nestCount s <? minOpenNests then minOpenNests else nestCount s)
                   <= Z.max nests minOpenNests)).
  { destruct (Z.ltb_spec (nestCount s) minOpenNests); split_and!; try lia.
    - intros H'. specialize (Hup H'). lia.
    - intros H'. specialize (Hup H'). lia.
    - intros H'. specialize (Hdown H'). lia. }
  destruct Hn as (Hn1 & Hn2 & Hn3).
  destruct (doubleQuoted s); [| split_and!; assumption].
  split_and!; try assumption.
  destruct isHereDocStart; cbn [negb andb]; [exact Hstate |].
  destruct (negb (currentBlockState (scanHighlighter s) =? SH_SingleQuoteState));
    [| exact Hstate].
  right. split; [reflexivity | right; reflexivity].
Qed.

(** One iteration of the scan loop: without a closing parenthesis in
    the line the nest count does not fall, without a dollar sign it does
    not rise; the state is written by an unterminated single quote
    only. *)
Lemma commandStep_facts
      (recurse : Z -> Z -> gset Z -> Z -> Highlighter -> option CommandResult)
      (fuel : nat) (initialOpenNests : Z) (isHereDocStart : bool)
      (s : CommandScan) (r : LoopStep CommandScan) :
  (forall minOpenNests nests qs index h r',
      recurse minOpenNests nests qs index h = Some r' ->
      commandFacts text isHereDocStart minOpenNests nests h r') ->
  commandStep recurse fuel text initialOpenNests isHereDocStart s = Some r ->
  (")"%char ∉ text -> nestCount s <= nestCount (stepState r))
  /\ ("$"%char ∉ text -> nestCount (stepState r) <= nestCount s)
  /\ stateAfterCommands isHereDocStart (currentBlockState (scanHighlighter s))
                        (currentBlockState (scanHighlighter (stepState r))).
Proof.
  intros Hrec. unfold commandStep.
  destruct (skipCommentFormats fuel text (scanHighlighter s) (currentIndex s))
    as [index |]; [| discriminate]. cbn [mbind option_bind].
  destruct (index >=? textLength text).
  { intros [= <-]. cbn. split_and!; try lia. left. reflexivity. }
  destruct (charAt text index) as [c |] eqn:Hc; [| discriminate].
  apply charAt_elem in Hc.
  destruct (bool_decide (c = "'"%char)).
  { destruct (handleSingleQuote _ _ _ _ _ _ _) as [[index' h'] |] eqn:Hq; [| discriminate].
    cbn [mbind option_bind]. intros [= <-]. cbn.
    split_and!; try lia. exact (handleSingleQuote_state _ _ _ _ _ _ _ _ Hq). }
  destruct (bool_decide (c = doubleQuoteChar)).
  { unfold handleDoubleQuote.
    destruct (inComment s); [| destruct (negb (isEscapedQuote _ _ _ _))];
      intros [= <-]; cbn; (split_and!; try lia); left;
        rewrite ?setFormat_state; reflexivity. }
  destruct (bool_decide (c = "$"%char)) eqn:Hdollar.
  { apply bool_decide_eq_true in Hdollar. subst c.
    unfold handleDollarSign.
    destruct (inComment s).
    { cbn [mbind option_bind]. intros [= <-]. cbn.
      split_and!; try lia. left. apply setFormat_state. }
    destruct (bool_decide (mid text index 2 = str "$(")).
    - destruct (recurse _ _ _ _ _) as [[[[index' nests'] qs'] h'] |] eqn:Hr;
        [| discriminate].
      cbn [mbind option_bind]. intros [= <-]. cbn.
      apply Hrec in Hr. unfold commandFacts in Hr.
      destruct Hr as (Hr1 & Hr2 & Hr3 & Hr4). rewrite setFormat_state in Hr4.
      split_and!; [lia | intros H'; contradiction | exact Hr4].
    - cbn [mbind option_bind]. intros [= <-]. cbn.
      split_and!; try lia. left. destruct (doubleQuoted s); apply setFormat_state. }
  destruct (bool_decide (c = "("%char)).
  { unfold handleOpenParenthesis.
    destruct (doubleQuoted s); [| destruct (inComment s)];
      intros [= <-]; cbn; (split_and!; try lia); left;
        rewrite ?setFormat_state; reflexivity. }
  destruct (bool_decide (c = ")"%char)) eqn:Hclose.
  { apply bool_decide_eq_true in Hclose. subst c.
    intros [= <-]. unfold handleCloseParenthesis.
    destruct (doubleQuoted s);
      [cbn; (split_and!; try lia); left; apply setFormat_state |].
    destruct (negb (isEscapedChar _ _ _));
      [destruct (parenDepth s - 1 <? 0); [| destruct (inComment s)] | destruct (inComment s)];
      cbn; (split_and!; [intros H'; contradiction | lia | left; apply setFormat_state]). }
  destruct (bool_decide (c = "#"%char)).
  { unfold handleCommentSign.
    destruct (inComment s); [| destruct (doubleQuoted s); [| destruct (_ || _)]];
      intros [= <-]; cbn; (split_and!; try lia); left; apply setFormat_state. }
  unfold handleDefaultChar.
  destruct (inComment s); [| destruct (doubleQuoted s)];
    intros [= <-]; cbn; (split_and!; try lia); left; apply setFormat_state.
Qed.

Lemma scanCommand_facts (loopFuel : nat) :
  forall (fuel : nat) (minOpenNests initialOpenNests : Z) (isHereDocStart : bool)
         (s s' : CommandScan),
    scanCommand loopFuel fuel text minOpenNests initialOpenNests isHereDocStart s = Some s' ->
    (")"%char ∉ text -> nestCount s <= nestCount s')
    /\ ("$"%char ∉ text -> nestCount s' <= nestCount s)
    /\ stateAfterCommands isHereDocStart (currentBlockState (scanHighlighter s))
                          (currentBlockState (scanHighlighter s')).
Proof.
  induction fuel as [| fuel IH];
    intros minOpenNests initialOpenNests isHereDocStart s s'; [discriminate |].
  cbn [scanCommand].
  destruct (commandLoopCondition text minOpenNests s);
    [| intros [= <-]; split_and!; try lia; left; reflexivity].
  match goal with
  | |- context [commandStep ?rec _ _ _ _ _] => set (recurse := rec)
  end.
  assert (Hrec : forall minOpenNests nests qs index h r',
             recurse minOpenNests nests qs index h = Some r' ->
             commandFacts text isHereDocStart minOpenNests nests h r').
  { intros min' nests' qs' index' h' r'. unfold recurse.
    destruct (scanCommand loopFuel fuel text min' nests' isHereDocStart
                          (startCommandScan nests' qs' index' h')) as [s1 |] eqn:Hs1;
      [| discriminate].
    cbn [mbind option_bind]. intros [= <-].
    apply IH in Hs1 as (H1 & H2 & H3). cbn [startCommandScan nestCount scanHighlighter] in *.
    apply finishCommandScan_facts; assumption. }
  destruct (commandStep recurse loopFuel text initialOpenNests isHereDocStart s)
    as [r |] eqn:Hstep; [| discriminate].
  apply (commandStep_facts recurse loopFuel initialOpenNests isHereDocStart s r Hrec)
    in Hstep as (H1 & H2 & H3).
  destruct r as [s1 | s1]; cbn [stepState] in *.
  - intros Hs'. apply IH in Hs' as (H1' & H2' & H3').
    split_and!.
    + intros H'. specialize (H1 H'). specialize (H1' H'). lia.
    + intros H'. specialize (H2 H'). specialize (H2' H'). lia.
    + exact (stateAfterCommands_trans _ _ _ _ H3 H3').
  - intros [= <-]. split_and!; assumption.
Qed.

Lemma formatInsideCommand_facts (fuel : nat) (minOpenNests nests : Z) (qs : gset Z)
      (isHereDocStart : bool) (index : Z) (h : Highlighter) (r : CommandResult) :
  formatInsideCommand fuel text minOpenNests nests qs isHereDocStart index h = Some r ->
  commandFacts text isHereDocStart minOpenNests nests h r.
Proof.
  unfold formatInsideCommand.
  destruct (scanCommand fuel fuel text minOpenNests nests isHereDocStart
                        (startCommandScan nests qs index h)) as [s' |] eqn:Hs;
    [| discriminate].
  cbn [mbind option_bind]. intros [= <-].
  apply scanCommand_facts in Hs as (H1 & H2 & H3).
  cbn [startCommandScan nestCount scanHighlighter] in *.
  apply finishCommandScan_facts; assumption.
Qed.

Lemma closeOpenQuoteFromPreviousBlock_state (fuel : nat) (prevState : Z)
      (isHereDocStart : bool) (h h' : Highlighter) (index : Z) :
  closeOpenQuoteFromPreviousBlock fuel text prevState isHereDocStart h = Some (index, h') ->
  stateAfterCommands isHereDocStart (currentBlockState h) (currentBlockState h').
Proof.
  unfold closeOpenQuoteFromPreviousBlock.
  destruct ((prevState =? SH_SingleQuoteState) || (prevState =? SH_MixedSingleQuoteState));
    [| intros [= <- <-]; left; reflexivity].
  destruct (whileDo _ _ _ _) as [end_ |]; [| discriminate]. cbn [mbind option_bind].
  destruct (end_ =? -1); intros [= <- <-]; [| left; apply setFormat_state].
  destruct isHereDocStart; cbn [negb]; [left; apply setFormat_state |].
  right. split; [reflexivity | left; reflexivity].
Qed.

Lemma substLoopBody_facts (fuel : nat) (isHereDocStart : bool) (nest0 : Z)
      (h : Highlighter) (st : CommandResult) (r : LoopStep CommandResult) :
  substFacts text isHereDocStart nest0 h st ->
  substLoopBody fuel text isHereDocStart st = Some r ->
  substFacts text isHereDocStart nest0 h (stepState r).
Proof.
  destruct st as [[[startIndex n] q] h1]. intros (H1 & H2 & H3). unfold substLoopBody.
  destruct (Z.eqb_spec n 0) as [-> | Hn].
  - destruct ((indexOfCodeBlockStart text startIndex =? -1) || _) eqn:Hfound.
    { intros [= <-]. cbn [stepState]. split_and!; assumption. }
    destruct (formatInsideCommand _ _ _ _ _ _ _ _) as [[[[i' n'] q'] h'] |] eqn:Hf;
      [| discriminate].
    cbn [mbind option_bind]. intros [= <-]. cbn [stepState].
    apply formatInsideCommand_facts in Hf as (Hf1 & Hf2 & Hf3 & Hf4).
    rewrite setFormat_state in Hf4.
    split_and!.
    + intros H'. specialize (H1 H'). specialize (Hf2 H'). lia.
    + intros H'. exfalso.
      apply orb_false_elim in Hfound as [Hfound _]. apply Z.eqb_neq in Hfound.
      apply Hfound. apply findCodeBlockStart_none. exact H'.
    + exact (stateAfterCommands_trans _ _ _ _ H3 Hf4).
  - destruct (formatInsideCommand _ _ _ _ _ _ _ _) as [[[[i' n'] q'] h'] |] eqn:Hf;
      [| discriminate].
    cbn [mbind option_bind]. intros [= <-]. cbn [stepState].
    apply formatInsideCommand_facts in Hf as (Hf1 & Hf2 & Hf3 & Hf4).
    split_and!.
    + intros H'. specialize (H1 H'). specialize (Hf2 H'). lia.
    + intros H' H0. specialize (H2 H' H0). specialize (Hf3 H'). lia.
    + exact (stateAfterCommands_trans _ _ _ _ H3 Hf4).
Qed.

(** The nest count and the highlighter [SH_CmndSubstVar] ends with,
    before the state of a here-doc start is adjusted (lines 529-541). *)
Lemma substituteCommands_facts (fuel : nat) (blockData : TextBlockData)
      (oldOpenNests : Z) (oldOpenQuotes : gset Z) (h : Highlighter) (r : CmndSubst) :
  substituteCommands fuel text blockData oldOpenNests oldOpenQuotes h = Some r ->
  (")"%char ∉ text -> inheritedNests h <= substNestCount r)
  /\ ("$"%char ∉ text -> 0 <= inheritedNests h -> substNestCount r <= inheritedNests h)
  /\ exists before : Z,
      stateAfterCommands (isHereDocStartState (currentBlockState h))
                         (currentBlockState h) before
      /\ currentBlockState (substHighlighter r)
         = if (substNestCount r >? 0) && isHereDocStartState (currentBlockState h)
           then (if currentBlockState h >? 0
                 then currentBlockState h + 2 * (substNestCount r + 3)
                 else currentBlockState h - 2 * (substNestCount r + 3))
           else before.
Proof.
  unfold substituteCommands, inheritedNests, isHereDocStartState.
  set (nest0 := match previousBlockData h with
                | Some prevData => openNests prevData
                | None => 0
                end).
  set (quotes0 := match previousBlockData h with
                  | Some prevData => openQuotes prevData
                  | None => ∅
                  end).
  set (isHereDocStart := (currentBlockState h <? -1) || (currentBlockState h >=? endState)).
  match goal with
  | |- context [mbind _ (if ?c then ?a else ?b)] =>
    destruct (if c then a else b) as [[startIndex h0] |] eqn:Hstart
  end; [| discriminate].
  assert (Hs : stateAfterCommands isHereDocStart (currentBlockState h) (currentBlockState h0)).
  { destruct ((nest0 >? 0) && _).
    - exact (closeOpenQuoteFromPreviousBlock_state _ _ _ _ _ _ Hstart).
    - injection Hstart as _ <-. left. reflexivity. }
  cbn [mbind option_bind].
  destruct (while fuel _ _ _) as [[[[i n] q] h1] |] eqn:Hloop; [| discriminate].
  cbn [mbind option_bind]. intros [= <-].
  cbn [substNestCount substHighlighter].
  assert (Hinv : substFacts text isHereDocStart nest0 h (i, n, q, h1)).
  { revert Hloop. apply while_invariant.
    - intros st r Hst _ Hbody.
      pose proof (substLoopBody_facts fuel isHereDocStart nest0 h st r Hst Hbody) as Hr.
      destruct r; exact Hr.
    - split_and!; [lia | lia | exact Hs]. }
  destruct Hinv as (H1 & H2 & H3).
  split; [exact H1 |]. split; [exact H2 |].
  exists (currentBlockState h1). split; [exact H3 |].
  destruct ((n >? 0) && isHereDocStart); reflexivity.
Qed.

End ShellLexerMore.


(** ** The here-doc marker and Scenario C *)


Section HereDocMarker.

Context {states : BlockStates} {helpers : Helpers} {sound : HelpersSound}.

Variable text : QString.



End HereDocMarker.


(** ** The statements at concrete lines *)

Lemma SH_CmndSubstVar_flag_witness :
  exists (flag : bool) (h' : Highlighter) (data' : option TextBlockData),
    @SH_CmndSubstVar sampleStates sampleHelpers (lineFuel lineEchoQuoteAbc) lineEchoQuoteAbc
                     (Some newTextBlockData) 1 ∅ (enterBlock 0 None lineEchoQuoteAbc)
    = Some (flag, h', data')
    /\ flag = false.
Proof.
  destruct (@SH_CmndSubstVar_flag sampleStates sampleHelpers sampleHelpers_sound
              lineEchoQuoteAbc (lineFuel lineEchoQuoteAbc) (Some newTextBlockData) 1 ∅
              (enterBlock 0 None lineEchoQuoteAbc) (Nat.le_refl _))
    as (flag & h' & data' & Hr & _ & Hsh).
  destruct (Hsh newTextBlockData eq_refl eq_refl) as (r & Hr' & _ & _ & _ & Hsame).
  exists flag, h', data'. split; [exact Hr |].
  apply Hsame.
  - vm_compute in Hr'. injection Hr' as <-. reflexivity.
  - vm_compute in Hr'. injection Hr' as <-. reflexivity.
Defined.

Lemma spans_cover_the_line_witness :
  exists h',
    @SH_MultiLineQuote sampleStates sampleHelpers (lineFuel lineWithUrl) lineWithUrl
                       (enterBlock 0 None lineWithUrl) = Some h'
    /\ spanCoverage (spansOf (formatChanges h')) (length lineWithUrl).
Proof.
  apply (proj1 (@spans_cover_the_line sampleStates sampleHelpers sampleHelpers_sound
                  lineWithUrl (lineFuel lineWithUrl) (enterBlock 0 None lineWithUrl)
                  (Nat.le_refl _) eq_refl)).
Defined.

Lemma openNests_never_negative_witness :
  exists r,
    @substituteCommands sampleStates sampleHelpers (lineFuel strayClosers) strayClosers
                        newTextBlockData 1 ∅
                        (enterBlock 0 (Some (mkTextBlockData 1 ∅ [] false)) strayClosers)
    = Some r
    /\ 0 <= substNestCount r /\ 0 <= openNests (substBlockData r).
Proof.
  destruct (proj2 (@openNests_never_negative sampleStates sampleHelpers sampleHelpers_sound
                     strayClosers (lineFuel strayClosers)
                     (enterBlock 0 (Some (mkTextBlockData 1 ∅ [] false)) strayClosers)
                     (Nat.le_refl _)) newTextBlockData 1 ∅) as (r & Hr & Hn & Hd).
  exists r. split; [exact Hr |]. split; [apply Hn | apply Hd]; cbn; lia.
Defined.


Lemma scenarioB_classification_witness :
  exists h',
    @SH_MultiLineQuote sampleStates sampleHelpers (lineFuel scenarioB) scenarioB
                       (enterBlock 0 None scenarioB) = Some h'
    /\ spansOf (formatChanges h') = [mkSpan 0 4 Neutral; mkSpan 4 4 DoubleQuoted]
    /\ currentBlockState h' = @doubleQuoteState sampleStates.
Proof.
  assert (Hurl : forall pos, @urlPattern sampleHelpers (mid scenarioB 4 4) pos = None).
  { intros pos. unfold urlPattern, sampleHelpers, sampleUrlPattern.
    destruct (pos <? 0); [reflexivity |].
    rewrite bool_decide_eq_false_2; [reflexivity |].
    intros E. apply (f_equal length) in E.
    rewrite length_take, length_drop in E.
    change (length (str "http://")) with 7%nat in E.
    change (length (mid scenarioB 4 4)) with 4%nat in E. lia. }
  assert (Hwrite : forall h',
             formatChanges h' = replicate 8 defaultFormat ->
             formatChanges (@setFormatWithoutOverwrite sampleHelpers 4 4 quoteFormat
                                                       neutralFormat h')
             = replicate 4 defaultFormat ++ replicate 4 quoteFormat).
  { intros h' E. cbn. unfold sampleSetFormatWithoutOverwrite.
    cbn [setFormatChanges formatChanges]. rewrite E. reflexivity. }
  destruct (@scenarioB_classification sampleStates sampleHelpers sampleHelpers_sound
              (lineFuel scenarioB) (Nat.le_refl _) (enterBlock 0 None scenarioB)
              eq_refl eq_refl eq_refl ltac:(cbn; lia) ltac:(cbn; lia)
              (fun _ => eq_refl) Hurl Hwrite)
    as [_ (h' & Hr & Hspans & Hstate & _)].
  exists h'. split_and!; assumption.
Defined.

Lemma shell_lexer_terminates_witness :
  (exists h',
      @SH_MultiLineQuote sampleStates sampleHelpers (lineFuel lineWithUrl) lineWithUrl
                         (enterBlock 0 None lineWithUrl) = Some h')
  /\ (exists r,
         @SH_CmndSubstVar sampleStates sampleHelpers (lineFuel lineWithUrl) lineWithUrl
                          (Some newTextBlockData) 0 ∅ (enterBlock 0 None lineWithUrl)
         = Some r).
Proof.
  pose proof (@shell_lexer_terminates sampleStates sampleHelpers sampleHelpers_sound
                lineWithUrl (lineFuel lineWithUrl) (Nat.le_refl _))
    as (Hquote & _ & _ & _ & _ & Hsubst).
  split; [apply Hquote | apply Hsubst].
Defined.

(* ===================================================================== *)
(** * Part III: further properties                                        *)
(* ===================================================================== *)

(* ------------------------------------------------------------------- *)
(** ** Further properties of encoding.cpp                                *)
(* ------------------------------------------------------------------- *)

(** Every byte of an accepted array is one that can occur in UTF-8. *)
Lemma validate_bytes_bounded (n : nat) :
  forall bs : list byte,
    (length bs <= n)%nat -> validateUTF8 bs = true ->
    Forall (fun b => uchar b <> 0xC0 /\ uchar b <> 0xC1 /\ uchar b < 0xF5) bs.
Proof.
  induction n as [| n IH]; intros bs Hlen Hv.
  - destruct bs; [constructor | cbn in Hlen; lia].
  - destruct bs as [| c p]; [constructor |].
    cbn [length] in Hlen. pose proof (uchar_range c) as Hc.
    destruct (Z.lt_ge_cases (uchar c) 0x80) as [Ha | Ha].
    { rewrite validate_ascii in Hv by assumption.
      constructor; [lia | apply IH; [lia | assumption]]. }
    destruct (Z.lt_ge_cases (uchar c) 0xC2) as [Hb | Hb].
    { rewrite validate_bad_lead in Hv by lia. discriminate. }
    destruct (Z.le_gt_cases (uchar c) 0xDF) as [H2 | H2].
    { destruct p as [| p0 p]; [rewrite validate_truncated in Hv; [discriminate |] |].
      { unfold continuationCount. zcmp. cbn. lia. }
      rewrite validate_lead2 in Hv by lia. unfold inRange in Hv.
      apply andb_prop in Hv as [Hr Hv]. cbn [length] in Hlen.
      repeat (constructor; [zcmp; lia |]). apply IH; [lia | assumption]. }
    destruct (Z.le_gt_cases (uchar c) 0xEF) as [H3 | H3].
    { destruct p as [| p0 [| p1 p]];
        try (rewrite validate_truncated in Hv;
             [discriminate | unfold continuationCount; zcmp; cbn; lia]).
      rewrite validate_lead3 in Hv by lia. unfold inRange in Hv.
      apply andb_prop in Hv as [Hr Hv]. apply andb_prop in Hr as [Hr0 Hr1].
      cbn [length] in Hlen.
      repeat (constructor; [zcmp; lia |]). apply IH; [lia | assumption]. }
    destruct (Z.le_gt_cases (uchar c) 0xF4) as [H4 | H4].
    { destruct p as [| p0 [| p1 [| p2 p]]];
        try (rewrite validate_truncated in Hv;
             [discriminate | unfold continuationCount; zcmp; cbn; lia]).
      rewrite validate_lead4 in Hv by lia. unfold inRange in Hv.
      apply andb_prop in Hv as [Hr Hv]. apply andb_prop in Hr as [Hr Hr2].
      apply andb_prop in Hr as [Hr0 Hr1]. cbn [length] in Hlen.
      repeat (constructor; [zcmp; lia |]). apply IH; [lia | assumption]. }
    rewrite validate_bad_lead in Hv by lia. discriminate.
Qed.

(** X1.  An array of ASCII bytes only (every byte below 0x80), the empty
    array among them, is accepted by [validateUTF8], and [detectCharset]
    reports UTF-8 for it. *)
Theorem validateUTF8_accepts_ascii (bs : list byte) :
  Forall (fun b => uchar b < 0x80) bs ->
  validateUTF8 bs = true /\ detectCharset bs = str "UTF-8".
Proof.
  intros Hall.
  assert (Hv : validateUTF8 bs = true).
  { induction Hall as [| c p Hc _ IH]; [reflexivity |].
    rewrite validate_ascii by exact Hc. exact IH. }
  split; [exact Hv |]. unfold detectCharset. rewrite Hv. reflexivity.
Qed.

Lemma validateUTF8_accepts_ascii_witness :
  validateUTF8 [x66; x70; x0a] = true /\ detectCharset [x66; x70; x0a] = str "UTF-8".
Proof.
  apply (validateUTF8_accepts_ascii [x66; x70; x0a]).
  repeat constructor.
Defined.

(** X2.  After an accepted prefix the validator is back in its start
    state: the verdict on [pre ++ s] is the verdict on [s].  So accepted
    arrays are closed under concatenation, no accepted prefix repairs a
    rejected rest, and [detectCharset] of the whole is that of the
    rest. *)
Theorem validateUTF8_after_valid_prefix (pre s : list byte) :
  validateUTF8 pre = true ->
  validateUTF8 (pre ++ s) = validateUTF8 s
  /\ (validateUTF8 s = true -> validateUTF8 (pre ++ s) = true)
  /\ (validateUTF8 s = false -> validateUTF8 (pre ++ s) = false)
  /\ detectCharset (pre ++ s) = detectCharset s.
Proof.
  intros Hpre. pose proof (validate_app pre s Hpre) as Happ.
  split; [exact Happ |]. split; [congruence |]. split; [congruence |].
  unfold detectCharset. rewrite Happ. reflexivity.
Qed.

Lemma validateUTF8_after_valid_prefix_witness :
  validateUTF8 ([xc3; xa9] ++ [xe2; x82]) = validateUTF8 [xe2; x82].
Proof.
  apply (proj1 (validateUTF8_after_valid_prefix [xc3; xa9] [xe2; x82] eq_refl)).
Defined.

(** X3.  The bytes 0xC0, 0xC1 and 0xF5..0xFF occur nowhere in an array
    that [validateUTF8] accepts, in lead position or elsewhere. *)
Theorem validateUTF8_no_forbidden_byte (bs : list byte) (b : byte) :
  validateUTF8 bs = true -> b ∈ bs ->
  uchar b <> 0xC0 /\ uchar b <> 0xC1 /\ uchar b < 0xF5.
Proof.
  intros Hv Hin.
  pose proof (validate_bytes_bounded (length bs) bs (Nat.le_refl _) Hv) as Hall.
  rewrite Forall_forall in Hall. exact (Hall b Hin).
Qed.

Lemma validateUTF8_no_forbidden_byte_witness :
  uchar xa9 <> 0xC0 /\ uchar xa9 <> 0xC1 /\ uchar xa9 < 0xF5.
Proof.
  apply (validateUTF8_no_forbidden_byte [x41; xc3; xa9] xa9).
  - reflexivity.
  - do 2 apply list_elem_of_further. apply list_elem_of_here.
Defined.

(* ------------------------------------------------------------------- *)
(** ** Further properties of syntax.cpp                                  *)
(* ------------------------------------------------------------------- *)

(** *** The lookups *)

Lemma toLowerChar_idempotent (c : ascii) : toLowerChar (toLowerChar c) = toLowerChar c.
Proof.
  unfold toLowerChar.
  destruct ((65 <=? nat_of_ascii c)%nat && (nat_of_ascii c <=? 90)%nat) eqn:Hc.
  - apply andb_prop in Hc as [H1 H2].
    apply Nat.leb_le in H1. apply Nat.leb_le in H2.
    rewrite nat_ascii_embedding by lia.
    replace ((nat_of_ascii c + 32 <=? 90)%nat) with false
      by (symmetry; apply Nat.leb_gt; lia).
    rewrite andb_false_r. reflexivity.
  - rewrite Hc. reflexivity.
Qed.

Lemma toLower_idempotent (s : QString) : toLower (toLower s) = toLower s.
Proof.
  unfold toLower. induction s as [| c s IH]; [reflexivity |].
  cbn [map]. rewrite toLowerChar_idempotent, IH. reflexivity.
Qed.

Lemma specialFilenamesMap_nonempty (key lang : QString) :
  specialFilenamesMap !! key = Some lang -> lang <> [].
Proof.
  unfold specialFilenamesMap. intros H. apply elem_of_list_to_map_2 in H.
  repeat (apply elem_of_cons in H as [H | H]; [inversion H; discriminate |]).
  apply elem_of_nil in H. destruct H.
Qed.

Lemma mimeLanguageMap_nonempty (key lang : QString) :
  mimeLanguageMap !! key = Some lang -> lang <> [].
Proof.
  unfold mimeLanguageMap. intros H. apply elem_of_list_to_map_2 in H.
  repeat (apply elem_of_cons in H as [H | H]; [inversion H; discriminate |]).
  apply elem_of_nil in H. destruct H.
Qed.

(** X4.  [languageForSpecialFilename] does not tell a base name from
    its lower-case form, and it returns the empty string exactly when
    the lower-cased base name is not a key of [specialFilenamesMap]: no
    key of the table stands for the empty language. *)
Theorem languageForSpecialFilename_found (baseName : QString) :
  languageForSpecialFilename (toLower baseName) = languageForSpecialFilename baseName
  /\ (languageForSpecialFilename baseName = []
      <-> specialFilenamesMap !! toLower baseName = None)
  /\ (forall lang, specialFilenamesMap !! toLower baseName = Some lang ->
                   languageForSpecialFilename baseName = lang).
Proof.
  unfold languageForSpecialFilename. rewrite toLower_idempotent.
  split; [reflexivity |]. split.
  - destruct (specialFilenamesMap !! toLower baseName) as [lang |] eqn:Hl.
    + split; [| discriminate].
      intros ->. exfalso. exact (specialFilenamesMap_nonempty _ _ Hl eq_refl).
    + split; reflexivity.
  - intros lang ->. reflexivity.
Qed.

Lemma firstKnownMime_empty (parents : list QString) :
  firstKnownMime parents = [] <-> Forall (fun p => mimeLanguageMap !! p = None) parents.
Proof.
  induction parents as [| p parents IH]; cbn [firstKnownMime].
  - split; [constructor | reflexivity].
  - destruct (mimeLanguageMap !! p) as [lang |] eqn:Hp.
    + split.
      * intros ->. exfalso. exact (mimeLanguageMap_nonempty _ _ Hp eq_refl).
      * intros H. inversion H; subst. congruence.
    + rewrite IH. split; [intros H; constructor; assumption |].
      intros H. inversion H; subst. assumption.
Qed.

Lemma firstKnownMime_first (pre rest : list QString) (p lang : QString) :
  Forall (fun q => mimeLanguageMap !! q = None) pre ->
  mimeLanguageMap !! p = Some lang ->
  firstKnownMime (pre ++ p :: rest) = lang.
Proof.
  intros Hpre Hp. induction Hpre as [| q pre Hq _ IH]; cbn [app firstKnownMime].
  - rewrite Hp. reflexivity.
  - rewrite Hq. exact IH.
Qed.

(** X5.  [languageForMime] answers with the language of the media type's
    own name when the table knows it, whatever the parents are; otherwise
    with the language of the first parent type the table knows; and with
    the empty string exactly when the table knows neither the name nor
    any parent. *)
Theorem languageForMime_first_known (mimeType : QFileInfo) :
  (forall lang, mimeLanguageMap !! mimeTypeName mimeType = Some lang ->
                languageForMime mimeType = lang)
  /\ (forall pre rest p lang,
         mimeLanguageMap !! mimeTypeName mimeType = None ->
         parentMimeTypes mimeType = pre ++ p :: rest ->
         Forall (fun q => mimeLanguageMap !! q = None) pre ->
         mimeLanguageMap !! p = Some lang ->
         languageForMime mimeType = lang)
  /\ (languageForMime mimeType = []
      <-> mimeLanguageMap !! mimeTypeName mimeType = None
          /\ Forall (fun p => mimeLanguageMap !! p = None) (parentMimeTypes mimeType)).
Proof.
  unfold languageForMime. split; [| split].
  - intros lang ->. reflexivity.
  - intros pre rest p lang -> -> Hpre Hp. apply firstKnownMime_first; assumption.
  - destruct (mimeLanguageMap !! mimeTypeName mimeType) as [lang |] eqn:Hn.
    + split; [| intros [H _]; discriminate].
      intros ->. exfalso. exact (mimeLanguageMap_nonempty _ _ Hn eq_refl).
    + rewrite firstKnownMime_empty. split; [intros H; split; [reflexivity | exact H] |].
      intros [_ H]. exact H.
Qed.

(** *** The extension step looks at the base name only *)

Lemma fileName_decompose (path : QString) :
  exists dir : QString,
    path = dir ++ fileName path /\ ("/"%char ∉ fileName path)
    /\ (dir = [] \/ exists dir', dir = dir' ++ ["/"%char]).
Proof.
  induction path as [| c rest IH]; cbn [fileName].
  - exists []. split; [reflexivity |]. split; [apply not_elem_of_nil | left; reflexivity].
  - destruct (bool_decide ("/"%char ∈ rest)) eqn:Hin.
    + apply bool_decide_eq_true in Hin.
      destruct IH as (dir & Hrest & Hno & Hdir).
      exists (c :: dir). split; [cbn [app]; congruence |]. split; [exact Hno |].
      right. destruct Hdir as [-> | [dir' ->]].
      * cbn [app] in Hrest. rewrite <- Hrest in Hno. contradiction.
      * exists (c :: dir'). reflexivity.
    + apply bool_decide_eq_false in Hin.
      destruct (bool_decide (c = "/"%char)) eqn:Hc.
      * apply bool_decide_eq_true in Hc. subst c.
        exists ["/"%char]. split; [reflexivity |]. split; [exact Hin |].
        right. exists []. reflexivity.
      * apply bool_decide_eq_false in Hc.
        exists []. split; [reflexivity |]. split; [| left; reflexivity].
        apply not_elem_of_cons. split; [congruence | exact Hin].
Qed.

Lemma suffix_of_base (ending dir base : QString) :
  "/"%char ∉ ending ->
  (dir = [] \/ exists dir', dir = dir' ++ ["/"%char]) ->
  ending `suffix_of` (dir ++ base) -> ending `suffix_of` base.
Proof.
  intros Hno [-> | [dir' ->]] [k Hk]; [exists k; exact Hk |].
  apply app_eq_inv in Hk as [(k0 & Hd & He) | (k0 & Hd & He)].
  - destruct k0 as [| x k0] using rev_ind.
    + cbn [app] in He. subst ending. exists []. reflexivity.
    + exfalso. apply Hno. rewrite app_assoc in Hd.
      apply app_inj_tail in Hd as [_ Hx]. subst x ending.
      apply elem_of_app. left. apply elem_of_app. right. apply list_elem_of_here.
  - exists k0. exact He.
Qed.

Lemma toLower_no_slash (s : QString) : "/"%char ∉ s -> "/"%char ∉ toLower s.
Proof.
  unfold toLower. intros Hno Hin. apply list_elem_of_fmap in Hin as (c & Hc & Hin).
  assert (c = "/"%char); [| congruence].
  unfold toLowerChar in Hc.
  destruct ((65 <=? nat_of_ascii c)%nat && (nat_of_ascii c <=? 90)%nat) eqn:Hr;
    [| congruence].
  apply andb_prop in Hr as [H1 H2].
  apply Nat.leb_le in H1. apply Nat.leb_le in H2.
  apply (f_equal nat_of_ascii) in Hc. rewrite nat_ascii_embedding in Hc by lia.
  change (nat_of_ascii "/"%char) with 47%nat in Hc. lia.
Qed.

Lemma table_no_slash :
  Forall (fun e => "/"%char ∉ extension e) extensionLanguageMap.
Proof.
  unfold extensionLanguageMap.
  repeat (apply Forall_cons;
          split; [apply (bool_decide_eq_false_1 _); vm_compute; reflexivity |]).
  apply Forall_nil. exact I.
Qed.

Lemma endsWith_base (dir base ending : QString) :
  "/"%char ∉ ending ->
  (dir = [] \/ exists dir', dir = dir' ++ ["/"%char]) ->
  endsWith (dir ++ base) ending = endsWith base ending.
Proof.
  intros Hno Hdir. unfold endsWith. apply bool_decide_ext. split.
  - apply suffix_of_base; assumption.
  - intros H. apply suffix_app_r. exact H.
Qed.

Lemma languageForExtensionIn_base (table : list ExtensionEntry) (dir base : QString) :
  Forall (fun e => "/"%char ∉ extension e) table ->
  (dir = [] \/ exists dir', dir = dir' ++ ["/"%char]) ->
  languageForExtensionIn table (dir ++ base) = languageForExtensionIn table base.
Proof.
  intros Htable Hdir. induction Htable as [| e table He _ IH]; [reflexivity |].
  cbn [languageForExtensionIn].
  assert (Hlow : toLower (dir ++ base) = toLower dir ++ toLower base)
    by (unfold toLower; apply map_app).
  assert (Hdir' : toLower dir = [] \/ exists dir', toLower dir = dir' ++ ["/"%char]).
  { destruct Hdir as [-> | [dir' ->]]; [left; reflexivity |].
    right. exists (toLower dir'). unfold toLower. rewrite map_app. reflexivity. }
  rewrite Hlow, !endsWith_base, IH by assumption. reflexivity.
Qed.

(** X6.  [setProgLang] hands the whole path to [languageForExtension],
    but only the base name decides: no extension of the table holds a
    slash, so the directories of the path never match.  The language of a
    path is the language of its base name, and putting directories in
    front of a name keeps its language. *)
Theorem languageForExtension_base_name (fname : QString) :
  languageForExtension fname = languageForExtension (fileName fname)
  /\ (forall dir : QString,
         languageForExtension (dir ++ "/"%char :: fname) = languageForExtension fname).
Proof.
  split.
  - destruct (fileName_decompose fname) as (dir & Hpath & _ & Hdir).
    pose proof (languageForExtensionIn_base extensionLanguageMap dir (fileName fname)
                  table_no_slash Hdir) as H.
    unfold languageForExtension. rewrite <- Hpath in H. exact H.
  - intros dir.
    pose proof (languageForExtensionIn_base extensionLanguageMap (dir ++ ["/"%char]) fname
                  table_no_slash (or_intror (ex_intro _ dir eq_refl))) as H.
    unfold languageForExtension. rewrite <- app_assoc in H. cbn [app] in H. exact H.
Qed.

(** *** setProgLang *)

(** What [setProgLang] does depends on the file name only: it leaves the
    editor alone, or it assigns one language, which is not empty. *)
Lemma setProgLang_cases (fs : FileSystem) (name : QString) :
  (forall prog, setProgLang fs (mkTextEdit name prog) = mkTextEdit name prog)
  \/ (exists lang, lang <> []
                   /\ forall prog, setProgLang fs (mkTextEdit name prog)
                                   = mkTextEdit name lang).
Proof.
  unfold setProgLang. cbn [getFileName]. cbv zeta.
  destruct (isEmpty name); [left; reflexivity |].
  generalize (resolvedFilePath fs name). intros fname.
  destruct (endsWithCaseInsensitive fname (str ".sub")); [left; reflexivity |].
  right.
  generalize (languageForSpecialFilename (fileName fname)). intros special.
  generalize (languageForExtension fname). intros ext.
  match goal with
  | |- context [isEmpty (if fileExists ?i then ?a else ?b)] =>
    generalize (if fileExists i then a else b)
  end.
  intros mime. unfold setProg, isEmpty. cbn [getFileName].
  destruct (decide (special = [])) as [Hs | Hs].
  2: { exists special. split; [exact Hs |]. intros prog.
       rewrite (bool_decide_eq_false_2 _ Hs). reflexivity. }
  rewrite (bool_decide_eq_true_2 _ Hs). cbn [negb].
  destruct (decide (ext = [])) as [He | He].
  2: { exists ext. split; [exact He |]. intros prog.
       rewrite (bool_decide_eq_false_2 _ He). reflexivity. }
  rewrite (bool_decide_eq_true_2 _ He). cbn [negb].
  destruct (decide (mime = [])) as [Hm | Hm].
  - exists (str "url"). split; [discriminate |]. intros prog.
    rewrite (bool_decide_eq_true_2 _ Hm). reflexivity.
  - exists mime. split; [exact Hm |]. intros prog.
    rewrite (bool_decide_eq_false_2 _ Hm). reflexivity.
Qed.

(** X7.  [setProgLang] never touches the file name; when it assigns a
    language, the language is not empty and does not depend on the one
    the editor had; so an editor with a language never loses it, and a
    second call changes nothing. *)
Theorem setProgLang_idempotent (fs : FileSystem) (textEdit : TextEdit) :
  getFileName (setProgLang fs textEdit) = getFileName textEdit
  /\ (getProg textEdit <> [] -> getProg (setProgLang fs textEdit) <> [])
  /\ (forall lang : QString,
         setProgLang fs textEdit <> textEdit ->
         getProg (setProgLang fs (setProg lang textEdit))
         = getProg (setProgLang fs textEdit)
         /\ getProg (setProgLang fs textEdit) <> [])
  /\ setProgLang fs (setProgLang fs textEdit) = setProgLang fs textEdit.
Proof.
  destruct textEdit as [name prog]. unfold setProg. cbn [getFileName getProg].
  destruct (setProgLang_cases fs name) as [H | (l & Hl & H)].
  - rewrite !H. cbn [getFileName getProg].
    split; [reflexivity |]. split; [auto |]. split; [| reflexivity].
    intros lang Hneq. congruence.
  - rewrite !H. cbn [getFileName getProg].
    split; [reflexivity |]. split; [auto |]. split; [| reflexivity].
    intros lang _. rewrite H. split; [reflexivity | exact Hl].
Qed.

(** X8.  For a path that does not exist on disk the file system decides
    nothing: the path is taken as it is, the media type is not asked for,
    and the language is that of the special-filename table, else that of
    the extension table, else the fallback [url].  Two file systems that
    both lack the path give the same editor. *)
Theorem setProgLang_nonexistent_file (fs : FileSystem) (textEdit : TextEdit) :
  fileExists (fs (getFileName textEdit)) = false ->
  setProgLang fs textEdit = setProgLang emptyFileSystem textEdit
  /\ (getFileName textEdit <> [] ->
      endsWithCaseInsensitive (getFileName textEdit) (str ".sub") = false ->
      languageForSpecialFilename (fileName (getFileName textEdit)) = [] ->
      languageForExtension (getFileName textEdit) = [] ->
      getProg (setProgLang fs textEdit) = str "url").
Proof.
  intros Hno.
  assert (Hres : resolvedFilePath fs (getFileName textEdit) = getFileName textEdit)
    by (unfold resolvedFilePath; rewrite Hno; reflexivity).
  assert (Hres0 : resolvedFilePath emptyFileSystem (getFileName textEdit)
                  = getFileName textEdit) by reflexivity.
  unfold setProgLang. cbv zeta. rewrite Hres, Hres0, Hno.
  change (fileExists (emptyFileSystem (getFileName textEdit))) with false.
  cbv iota.
  split; [reflexivity |].
  intros Hname Hsub Hspecial Hext.
  rewrite Hsub, Hspecial, Hext.
  unfold isEmpty at 1. rewrite (bool_decide_eq_false_2 _ Hname). reflexivity.
Qed.

Lemma setProgLang_nonexistent_file_witness :
  setProgLang symlinkFileSystem (mkTextEdit (str "/tmp/notes.txt") (str "sh"))
  = setProgLang emptyFileSystem (mkTextEdit (str "/tmp/notes.txt") (str "sh")).
Proof.
  apply (proj1 (setProgLang_nonexistent_file symlinkFileSystem
                  (mkTextEdit (str "/tmp/notes.txt") (str "sh")) eq_refl)).
Defined.

(** *** formatTextRect *)

Lemma formatVisibleBlocks_ext (rh1 rh2 : nat -> Document -> Outcome Document)
      (startBlock endBlock : nat) :
  (forall n d b, (startBlock <= n <= endBlock)%nat -> d !! n = Some b ->
                 userDataHighlighted b = Some false -> rh1 n d = rh2 n d) ->
  forall (k n : nat) (doc : Document),
    (startBlock <= n)%nat -> (n + k <= S endBlock)%nat ->
    formatVisibleBlocks rh1 k n doc = formatVisibleBlocks rh2 k n doc.
Proof.
  intros Hagree. induction k as [| k IH]; intros n doc Hs He; [reflexivity |].
  cbn [formatVisibleBlocks].
  destruct (doc !! n) as [block |] eqn:Hb; [| reflexivity].
  destruct (userDataHighlighted block) as [[|] |] eqn:Hflag.
  - apply IH; lia.
  - rewrite (Hagree n doc block) by (try lia; assumption).
    destruct (rh2 n doc); [apply IH; lia | reflexivity].
  - apply IH; lia.
Qed.

Lemma formatVisibleBlocks_clean (rh : nat -> Document -> Outcome Document)
      (doc : Document) :
  forall k n : nat,
    (forall i b, (n <= i < n + k)%nat -> doc !! i = Some b ->
                 userDataHighlighted b <> Some false) ->
    formatVisibleBlocks rh k n doc = Returned doc.
Proof.
  induction k as [| k IH]; intros n Hclean; [reflexivity |].
  cbn [formatVisibleBlocks].
  destruct (doc !! n) as [block |] eqn:Hb; [| reflexivity].
  pose proof (Hclean n block ltac:(lia) Hb) as Hflag.
  destruct (userDataHighlighted block) as [[|] |];
    [| congruence |]; apply IH; intros i b Hi; apply Hclean; lia.
Qed.

(** X9.  [formatTextRect] calls [rehighlightBlock] only on blocks between
    the first and the last visible one that have user data not marked
    highlighted: two highlighters that agree on such blocks give the same
    pass, and when the viewport holds no such block the document is
    returned as it is, whatever the highlighter would do. *)
Theorem formatTextRect_visible_dirty_only
        (rh1 rh2 : nat -> Document -> Outcome Document)
        (hasHighlighter : bool) (startBlock endBlock : nat) (doc : Document) :
  ((forall n d b, (startBlock <= n <= endBlock)%nat -> d !! n = Some b ->
                  userDataHighlighted b = Some false -> rh1 n d = rh2 n d) ->
   formatTextRect rh1 hasHighlighter startBlock endBlock doc
   = formatTextRect rh2 hasHighlighter startBlock endBlock doc)
  /\ ((forall i b, (startBlock <= i <= endBlock)%nat -> doc !! i = Some b ->
                   userDataHighlighted b <> Some false) ->
      formatTextRect rh1 hasHighlighter startBlock endBlock doc = Returned doc).
Proof.
  unfold formatTextRect. split.
  - intros Hagree. destruct hasHighlighter; [| reflexivity]. cbn [negb].
    destruct (Nat.le_gt_cases startBlock (S endBlock)) as [Hle | Hgt].
    + apply (formatVisibleBlocks_ext rh1 rh2 startBlock endBlock Hagree); lia.
    + replace (S endBlock - startBlock)%nat with 0%nat by lia. reflexivity.
  - intros Hclean. destruct hasHighlighter; [| reflexivity]. cbn [negb].
    apply formatVisibleBlocks_clean. intros i b Hi. apply Hclean. lia.
Qed.

(** Over the four blocks, the highlighter that fails on every block that
    does not wait does what the marking highlighter does: it is called on
    the two waiting blocks only.  With the two blocks in the middle in
    view, which do not wait, the failing highlighter is not called. *)
Lemma formatTextRect_visible_dirty_only_witness :
  formatTextRect markingRehighlight true 0 3 mixedBlocks
  = formatTextRect dirtyOnlyRehighlight true 0 3 mixedBlocks
  /\ formatTextRect dirtyOnlyRehighlight true 0 3 mixedBlocks
     = Returned [mkTextBlock (Some true); mkTextBlock (Some true); mkTextBlock None;
                 mkTextBlock (Some true)]
  /\ formatTextRect failingRehighlight true 1 2 mixedBlocks = Returned mixedBlocks.
Proof.
  split; [| split].
  - apply (proj1 (formatTextRect_visible_dirty_only markingRehighlight dirtyOnlyRehighlight
                    true 0 3 mixedBlocks)).
    intros n d b _ Hb Hflag. unfold dirtyOnlyRehighlight. rewrite Hb, Hflag. reflexivity.
  - reflexivity.
  - apply (proj2 (formatTextRect_visible_dirty_only failingRehighlight failingRehighlight
                    true 1 2 mixedBlocks)).
    intros i b Hi Hb.
    destruct i as [| [| [| i]]]; [lia | | | lia];
      cbn in Hb; injection Hb as <-; discriminate.
Defined.

(** With a highlighter that marks the block it is given and makes no
    other block wait, the loop leaves no block waiting behind it. *)
Lemma formatVisibleBlocks_marks (rh : nat -> Document -> Outcome Document) :
  (forall n d b,
      d !! n = Some b -> userDataHighlighted b = Some false ->
      exists d', rh n d = Returned d'
                 /\ (exists b', d' !! n = Some b' /\ userDataHighlighted b' <> Some false)
                 /\ (forall m bm, d !! m = Some bm -> userDataHighlighted bm <> Some false ->
                                  exists bm', d' !! m = Some bm'
                                              /\ userDataHighlighted bm' <> Some false)
                 /\ length d' = length d) ->
  forall (k n : nat) (doc : Document) (lo : nat),
    (lo <= n)%nat ->
    (forall i b, (lo <= i < n)%nat -> doc !! i = Some b ->
                 userDataHighlighted b <> Some false) ->
    exists doc',
      formatVisibleBlocks rh k n doc = Returned doc'
      /\ length doc' = length doc
      /\ forall i b, (lo <= i < n + k)%nat -> doc' !! i = Some b ->
                     userDataHighlighted b <> Some false.
Proof.
  intros Hrh. induction k as [| k IH]; intros n doc lo Hlo Hdone.
  - exists doc. split; [reflexivity |]. split; [reflexivity |].
    intros i b Hi. apply Hdone. lia.
  - cbn [formatVisibleBlocks].
    destruct (doc !! n) as [block |] eqn:Hb.
    2: { exists doc. split; [reflexivity |]. split; [reflexivity |].
         intros i b Hi Hib.
         destruct (Nat.lt_ge_cases i n) as [Hlt | Hge]; [apply (Hdone i); [lia | exact Hib] |].
         apply lookup_ge_None in Hb. apply lookup_lt_Some in Hib. lia. }
    assert (Hstep : forall doc1 : Document,
               length doc1 = length doc ->
               (forall i b, (lo <= i < S n)%nat -> doc1 !! i = Some b ->
                            userDataHighlighted b <> Some false) ->
               exists doc',
                 formatVisibleBlocks rh k (S n) doc1 = Returned doc'
                 /\ length doc' = length doc
                 /\ forall i b, (lo <= i < n + S k)%nat -> doc' !! i = Some b ->
                                userDataHighlighted b <> Some false).
    { intros doc1 Hlen1 Hdone1.
      destruct (IH (S n) doc1 lo ltac:(lia) Hdone1)
        as (doc' & Hr & Hlen & Hall).
      exists doc'. split; [exact Hr |]. split; [congruence |].
      intros i b Hi. apply Hall. lia. }
    destruct (userDataHighlighted block) as [[|] |] eqn:Hflag.
    + apply Hstep; [reflexivity |]. intros i b Hi Hib.
      destruct (decide (i = n)) as [-> | Hne]; [| apply (Hdone i); [lia | exact Hib]].
      rewrite Hb in Hib. inversion Hib; subst. congruence.
    + destruct (Hrh n doc block Hb Hflag) as (d' & -> & (b' & Hb' & Hflag') & Hkeep & Hlen).
      apply Hstep; [exact Hlen |]. intros i b Hi Hib.
      destruct (decide (i = n)) as [-> | Hne]; [congruence |].
      assert (Hlt : (i < length doc)%nat)
        by (rewrite <- Hlen; apply lookup_lt_Some in Hib; exact Hib).
      apply lookup_lt_is_Some in Hlt as [bi Hbi].
      destruct (Hkeep i bi Hbi (Hdone i bi ltac:(lia) Hbi)) as (bi' & Hbi' & Hf).
      congruence.
    + apply Hstep; [reflexivity |]. intros i b Hi Hib.
      destruct (decide (i = n)) as [-> | Hne]; [| apply (Hdone i); [lia | exact Hib]].
      rewrite Hb in Hib. inversion Hib; subst. congruence.
Qed.

(** X10.  When rehighlighting a block never fails, leaves that block not
    waiting any more, and makes no other block wait, one pass of
    [formatTextRect] leaves no visible block waiting to be highlighted,
    and a second pass over the result changes nothing. *)
Theorem formatTextRect_pass_completes
        (rh : nat -> Document -> Outcome Document)
        (startBlock endBlock : nat) (doc : Document) :
  (forall n d b,
      d !! n = Some b -> userDataHighlighted b = Some false ->
      exists d', rh n d = Returned d'
                 /\ (exists b', d' !! n = Some b' /\ userDataHighlighted b' <> Some false)
                 /\ (forall m bm, d !! m = Some bm -> userDataHighlighted bm <> Some false ->
                                  exists bm', d' !! m = Some bm'
                                              /\ userDataHighlighted bm' <> Some false)
                 /\ length d' = length d) ->
  exists doc',
    formatTextRect rh true startBlock endBlock doc = Returned doc'
    /\ length doc' = length doc
    /\ (forall i b, (startBlock <= i <= endBlock)%nat -> doc' !! i = Some b ->
                    userDataHighlighted b <> Some false)
    /\ formatTextRect rh true startBlock endBlock doc' = Returned doc'.
Proof.
  intros Hrh. unfold formatTextRect. cbn [negb].
  destruct (formatVisibleBlocks_marks rh Hrh (S endBlock - startBlock) startBlock doc
              startBlock (Nat.le_refl _) ltac:(intros; lia))
    as (doc' & Hr & Hlen & Hall).
  exists doc'. split; [exact Hr |]. split; [exact Hlen |].
  assert (Hclean : forall i b, (startBlock <= i <= endBlock)%nat -> doc' !! i = Some b ->
                               userDataHighlighted b <> Some false).
  { intros i b Hi. apply Hall. lia. }
  split; [exact Hclean |].
  apply formatVisibleBlocks_clean. intros i b Hi. apply Hclean. lia.
Qed.

Lemma formatTextRect_pass_completes_witness :
  exists doc',
    formatTextRect markingRehighlight true 0 1 twoDirtyBlocks = Returned doc'
    /\ length doc' = length twoDirtyBlocks
    /\ (forall i b, (0 <= i <= 1)%nat -> doc' !! i = Some b ->
                    userDataHighlighted b <> Some false)
    /\ formatTextRect markingRehighlight true 0 1 doc' = Returned doc'.
Proof.
  apply (formatTextRect_pass_completes markingRehighlight 0 1 twoDirtyBlocks).
  intros n d b Hb Hflag. unfold markingRehighlight.
  exists (<[n := mkTextBlock (Some true)]> d). split; [reflexivity |].
  assert (Hn : (n < length d)%nat) by (apply lookup_lt_Some in Hb; exact Hb).
  split; [| split].
  - exists (mkTextBlock (Some true)).
    split; [apply list_lookup_insert_eq; exact Hn | discriminate].
  - intros m bm Hm Hf. destruct (decide (m = n)) as [-> | Hne].
    + exists (mkTextBlock (Some true)).
      split; [apply list_lookup_insert_eq; exact Hn | discriminate].
    + exists bm. split; [| exact Hf].
      transitivity (d !! m); [apply list_lookup_insert_ne; congruence | exact Hm].
  - apply length_insert.
Defined.

(* ------------------------------------------------------------------- *)
(** ** Properties of vscrollbar.cpp                                      *)
(* ------------------------------------------------------------------- *)

Lemma wrapInt_isInt (z : Z) : isInt (wrapInt z).
Proof.
  unfold isInt, wrapInt.
  pose proof (Z.mod_pos_bound (z + 2 ^ 31) (2 ^ 32) ltac:(lia)). lia.
Qed.

Lemma wrapInt_id (z : Z) : isInt z -> wrapInt z = z.
Proof.
  unfold isInt, wrapInt. intros Hz.
  rewrite Z.mod_small by lia. lia.
Qed.

(** [std::abs] is the absolute value, except on the smallest [int]. *)
Lemma absInt_spec (z : Z) :
  isInt z -> (z <> - 2 ^ 31 /\ absInt z = Z.abs z) \/ (z = - 2 ^ 31 /\ absInt z = - 2 ^ 31).
Proof.
  unfold isInt. intros Hz. unfold absInt.
  destruct (Z.eq_dec z (- 2 ^ 31)) as [-> | Hne].
  - right. split; reflexivity.
  - left. split; [exact Hne |]. apply wrapInt_id. unfold isInt. lia.
Qed.

Lemma wheelEvent_accumulator (base : Wheel -> ScrollBar -> ScrollBar)
      (w : Wheel) (acc : Z) (bar : ScrollBar) :
  (Z.abs acc < 120 \/ acc = - 2 ^ 31) ->
  (Z.abs (fst (wheelEvent base w (acc, bar))) < 120
   \/ fst (wheelEvent base w (acc, bar)) = - 2 ^ 31)
  /\ (Z.abs acc < 120 -> Z.abs (wheelDelta w) <= 2 ^ 31 - 120 ->
      Z.abs (fst (wheelEvent base w (acc, bar))) < 120).
Proof.
  intros Hacc. unfold wheelEvent.
  destruct (leftToBaseClass w); [cbn [fst]; split; [exact Hacc | intros; assumption] |].
  cbv zeta.
  pose proof (wrapInt_isInt (acc + wheelDelta w)) as Hint.
  destruct (Z.ltb_spec (absInt (wrapInt (acc + wheelDelta w))) 120) as [Hlt | Hge];
    cbn [fst].
  - destruct (absInt_spec _ Hint) as [[_ Habs] | [Hmin _]].
    + rewrite Habs in Hlt. split; [left; exact Hlt | intros _ _; exact Hlt].
    + split; [right; exact Hmin |].
      intros Hsmall Hdelta. rewrite wrapInt_id in Hmin by (unfold isInt; lia). lia.
  - split; [left; lia | intros _ _; lia].
Qed.

(** X11.  Between two wheel events the accumulated angle
    [_effectiveDelta] is less than one notch of an ordinary wheel (120)
    in absolute value, or it is the smallest [int], which an addition
    that overflows can produce and whose [std::abs] is negative; this
    holds whatever events arrive and whichever of them are left to the
    base class.  When no delta is larger than [2^31 - 120] in absolute
    value, no addition overflows and the accumulated angle is always
    less than 120 in absolute value. *)
Theorem wheelEvent_accumulator_bounded (base : Wheel -> ScrollBar -> ScrollBar)
        (ws : list Wheel) (bar : ScrollBar) :
  (Z.abs (fst (wheelEvents base ws (0, bar))) < 120
   \/ fst (wheelEvents base ws (0, bar)) = - 2 ^ 31)
  /\ (Forall (fun w => Z.abs (wheelDelta w) <= 2 ^ 31 - 120) ws ->
      Z.abs (fst (wheelEvents base ws (0, bar))) < 120).
Proof.
  unfold wheelEvents.
  assert (H : forall st,
             (Z.abs (fst st) < 120 \/ fst st = - 2 ^ 31) ->
             (Z.abs (fst (foldl (fun st w => wheelEvent base w st) st ws)) < 120
              \/ fst (foldl (fun st w => wheelEvent base w st) st ws) = - 2 ^ 31)
             /\ (Z.abs (fst st) < 120 ->
                 Forall (fun w => Z.abs (wheelDelta w) <= 2 ^ 31 - 120) ws ->
                 Z.abs (fst (foldl (fun st w => wheelEvent base w st) st ws)) < 120)).
  { induction ws as [| w ws IH]; intros st Hst.
    - cbn [foldl]. split; [exact Hst | intros Hs _; exact Hs].
    - cbn [foldl]. destruct st as [acc b]. cbn [fst] in Hst.
      destruct (wheelEvent_accumulator base w acc b Hst) as [Hany Hsmall].
      destruct (IH (wheelEvent base w (acc, b)) Hany) as [IHany IHsmall].
      split; [exact IHany |].
      cbn [fst]. intros Hacc Hall. inversion Hall as [| ? ? Hw Hws]; subst.
      apply IHsmall; [apply Hsmall; assumption | exact Hws]. }
  destruct (H (0, bar)) as [Hany Hsmall]; [left; cbn; lia |].
  split; [exact Hany |]. intros Hall. apply Hsmall; [cbn; lia | exact Hall].
Qed.

(** Three small deltas and the notch they reach; none overflows. *)
Lemma wheelEvent_accumulator_bounded_witness :
  Z.abs (fst (wheelEvents (fun _ bar => bar)
                          [ownWheel 50 false; ownWheel 50 false; ownWheel (-30) false;
                           ownWheel 100 false; ownWheel 15 true]
                          (0, mkScrollBar 40 10 0 100))) < 120.
Proof.
  apply (proj2 (wheelEvent_accumulator_bounded
                  (fun _ bar => bar)
                  [ownWheel 50 false; ownWheel 50 false; ownWheel (-30) false;
                   ownWheel 100 false; ownWheel 15 true]
                  (mkScrollBar 40 10 0 100))).
  repeat constructor; vm_compute; discriminate.
Defined.

(** An angle of 1 and the largest [int] as delta add up to the smallest
    [int], which stays in the accumulator: its [std::abs] is not 120 or
    more. *)
Remark wheelEvent_accumulator_smallest_int :
  wheelEvent (fun _ bar => bar) (ownWheel 2147483647 false) (1, mkScrollBar 40 10 0 100)
  = (- 2 ^ 31, mkScrollBar 40 10 0 100).
Proof. vm_compute. reflexivity. Qed.

(** X12.  When an event the scroll bar handles itself brings the
    accumulated angle, added up as an [int], to a notch or more, the
    accumulator is emptied and the slider moves by one page, or half a
    page with Shift held, and by one position at least: towards the
    maximum when the accumulated angle is negative, towards the minimum
    otherwise, clipped to the range of the slider as long as the new
    position is an [int].  The slider never leaves its range.  The
    accumulated angle is the sum of the old one and the delta when that
    sum is an [int]; otherwise it is the sum wrapped around, with the
    opposite sign. *)
Theorem wheelEvent_page_step (base : Wheel -> ScrollBar -> ScrollBar)
        (w : Wheel) (acc : Z) (bar : ScrollBar) :
  leftToBaseClass w = false ->
  120 <= absInt (wrapInt (acc + wheelDelta w)) ->
  minimum bar <= sliderPosition bar <= maximum bar ->
  let sum := wrapInt (acc + wheelDelta w) in
  let step := Z.max (Z.quot (pageStep bar) (if shiftModifier w then 2 else 1)) 1 in
  let bar' := snd (wheelEvent base w (acc, bar)) in
  fst (wheelEvent base w (acc, bar)) = 0
  /\ 1 <= step
  /\ minimum bar <= sliderPosition bar' <= maximum bar
  /\ (sum < 0 -> isInt (sliderPosition bar + step) ->
      sliderPosition bar' = Z.min (maximum bar) (sliderPosition bar + step))
  /\ (0 <= sum -> isInt (sliderPosition bar - step) ->
      sliderPosition bar' = Z.max (minimum bar) (sliderPosition bar - step))
  /\ (isInt (acc + wheelDelta w) ->
      sum = acc + wheelDelta w /\ 120 <= Z.abs (acc + wheelDelta w))
  /\ (2 ^ 31 <= acc + wheelDelta w < 2 ^ 32 -> sum = acc + wheelDelta w - 2 ^ 32 /\ sum < 0)
  /\ pageStep bar' = pageStep bar
  /\ minimum bar' = minimum bar /\ maximum bar' = maximum bar.
Proof.
  intros Hown Hnotch Hrange sum step bar'. subst bar'. unfold wheelEvent.
  rewrite Hown. cbv zeta. fold sum. fold sum in Hnotch.
  destruct (Z.ltb_spec (absInt sum) 120) as [Hlt | _]; [lia |].
  fold step. cbn [fst snd]. unfold setSliderPosition.
  cbn [sliderPosition pageStep minimum maximum].
  assert (Hstep : 1 <= step) by (unfold step; lia).
  split; [reflexivity |]. split; [exact Hstep |].
  split; [lia |].
  split.
  { intros Hneg Hint. destruct (Z.ltb_spec sum 0); [| lia].
    rewrite Z.mul_1_l, wrapInt_id by exact Hint. lia. }
  split.
  { intros Hpos Hint. destruct (Z.ltb_spec sum 0); [lia |].
    replace (sliderPosition bar + -1 * step) with (sliderPosition bar - step) by lia.
    rewrite wrapInt_id by exact Hint. lia. }
  split.
  { intros Hint. assert (Hsum : sum = acc + wheelDelta w) by (apply wrapInt_id, Hint).
    split; [exact Hsum |].
    destruct (absInt_spec sum (wrapInt_isInt _)) as [[_ Habs] | [_ Hmin]]; lia. }
  split.
  { intros Hover. unfold sum, wrapInt.
    replace (acc + wheelDelta w + 2 ^ 31)
      with ((acc + wheelDelta w - 2 ^ 31) + 1 * 2 ^ 32) by lia.
    rewrite Z.mod_add by lia. rewrite Z.mod_small by lia. lia. }
  repeat split.
Qed.

(** A notch with Shift held near the end of the range; and an old angle
    of 100 with the largest [int] as delta, where the sum overflows and
    the slider moves up by a page. *)
Lemma wheelEvent_page_step_witness :
  sliderPosition (snd (wheelEvent (fun _ bar => bar) (ownWheel (-120) true)
                                  (0, mkScrollBar 95 30 0 100)))
  = Z.min 100 (95 + Z.max (Z.quot 30 2) 1)
  /\ wheelEvent (fun _ bar => bar) (ownWheel 2147483647 false) (100, mkScrollBar 40 10 0 100)
     = (0, mkScrollBar 50 10 0 100).
Proof.
  split.
  - assert (Hnotch : 120 <= absInt (wrapInt (0 + wheelDelta (ownWheel (-120) true))))
      by (vm_compute; discriminate).
    assert (Hrange : minimum (mkScrollBar 95 30 0 100)
                     <= sliderPosition (mkScrollBar 95 30 0 100)
                     <= maximum (mkScrollBar 95 30 0 100))
      by (vm_compute; split; discriminate).
    destruct (wheelEvent_page_step (fun _ bar => bar) (ownWheel (-120) true) 0
                                   (mkScrollBar 95 30 0 100) eq_refl Hnotch Hrange)
      as (_ & _ & _ & Hup & _).
    apply Hup; [reflexivity | vm_compute; split; [discriminate | reflexivity]].
  - assert (Hnotch : 120 <= absInt (wrapInt (100 + wheelDelta (ownWheel 2147483647 false))))
      by (vm_compute; discriminate).
    assert (Hrange : minimum (mkScrollBar 40 10 0 100)
                     <= sliderPosition (mkScrollBar 40 10 0 100)
                     <= maximum (mkScrollBar 40 10 0 100))
      by (vm_compute; split; discriminate).
    destruct (wheelEvent_page_step (fun _ bar => bar) (ownWheel 2147483647 false) 100
                                   (mkScrollBar 40 10 0 100) eq_refl Hnotch Hrange)
      as (Hacc & _ & _ & Hup & _ & _ & _ & Hpage & Hmin & Hmax).
    assert (Hpos : sliderPosition (snd (wheelEvent (fun _ bar => bar)
                                                   (ownWheel 2147483647 false)
                                                   (100, mkScrollBar 40 10 0 100))) = 50).
    { rewrite Hup; [reflexivity | reflexivity |].
      vm_compute. split; [discriminate | reflexivity]. }
    destruct (wheelEvent (fun _ bar => bar) (ownWheel 2147483647 false)
                         (100, mkScrollBar 40 10 0 100)) as [acc' [p s lo hi]].
    cbn [fst snd sliderPosition pageStep minimum maximum] in *.
    congruence.
Defined.

Lemma foldr_add_app (l : list Z) (z : Z) :
  foldr Z.add 0 (l ++ [z]) = foldr Z.add 0 l + z.
Proof.
  rewrite foldr_app. cbn [foldr]. rewrite Z.add_0_r.
  induction l as [| x l IH]; cbn [foldr]; [lia | rewrite IH; lia].
Qed.

Lemma wheelEvents_small (base : Wheel -> ScrollBar -> ScrollBar) (bar : ScrollBar) :
  forall (ws : list Wheel) (acc : Z),
    Forall (fun w => leftToBaseClass w = false) ws ->
    (forall n : nat, (0 < n <= length ws)%nat ->
                     Z.abs (acc + foldr Z.add 0 (map wheelDelta (take n ws))) < 120) ->
    wheelEvents base ws (acc, bar) = (acc + foldr Z.add 0 (map wheelDelta ws), bar).
Proof.
  unfold wheelEvents.
  induction ws as [| w ws IH]; intros acc Hown Hsmall.
  - cbn. f_equal. lia.
  - inversion Hown as [| ? ? Hw Hws]; subst.
    cbn [foldl map foldr].
    assert (Hstep : wheelEvent base w (acc, bar) = (acc + wheelDelta w, bar)).
    { unfold wheelEvent. rewrite Hw. cbv zeta.
      pose proof (Hsmall 1%nat ltac:(cbn [length]; lia)) as H1.
      cbn [take map foldr] in H1. rewrite Z.add_0_r in H1.
      rewrite (wrapInt_id (acc + wheelDelta w)) by (unfold isInt; lia).
      unfold absInt. rewrite wrapInt_id by (unfold isInt; lia).
      destruct (Z.ltb_spec (Z.abs (acc + wheelDelta w)) 120); [reflexivity | lia]. }
    rewrite Hstep, IH.
    + f_equal. lia.
    + exact Hws.
    + intros n Hn. pose proof (Hsmall (S n) ltac:(cbn [length]; lia)) as Hn'.
      cbn [take map foldr] in Hn'. rewrite Z.add_assoc in Hn'. exact Hn'.
Qed.

(** X13.  Small deltas add up: while the running sum of the deltas of
    the events the scroll bar handles itself stays below a notch in
    absolute value, the slider does not move and the sum is kept; the
    event that brings the sum, taken as an [int], to a notch or more
    moves the slider by one step, in the direction the sign of that
    [int] gives, and empties the sum. *)
Theorem wheelEvents_accumulate (base : Wheel -> ScrollBar -> ScrollBar)
        (ws : list Wheel) (w : Wheel) (bar : ScrollBar) :
  Forall (fun w => leftToBaseClass w = false) (ws ++ [w]) ->
  (forall n : nat, (n <= length ws)%nat ->
                   Z.abs (foldr Z.add 0 (map wheelDelta (take n ws))) < 120) ->
  120 <= absInt (wrapInt (foldr Z.add 0 (map wheelDelta (ws ++ [w])))) ->
  wheelEvents base ws (0, bar) = (foldr Z.add 0 (map wheelDelta ws), bar)
  /\ wheelEvents base (ws ++ [w]) (0, bar)
     = (0, setSliderPosition
             (wrapInt
                (sliderPosition bar
                 + (if wrapInt (foldr Z.add 0 (map wheelDelta (ws ++ [w]))) <? 0
                    then 1 else -1)
                   * Z.max (Z.quot (pageStep bar) (if shiftModifier w then 2 else 1)) 1))
             bar).
Proof.
  intros Hown Hsmall Hnotch.
  apply Forall_app in Hown as [Hws Hw]. inversion Hw as [| ? ? Hw' _]; subst.
  assert (Hrun : wheelEvents base ws (0, bar) = (foldr Z.add 0 (map wheelDelta ws), bar)).
  { rewrite (wheelEvents_small base bar ws 0 Hws); [f_equal |].
    intros n Hn. cbn. apply Hsmall. lia. }
  split; [exact Hrun |].
  assert (Hsum : foldr Z.add 0 (map wheelDelta (ws ++ [w]))
                 = foldr Z.add 0 (map wheelDelta ws) + wheelDelta w).
  { rewrite map_app. cbn [map]. apply foldr_add_app. }
  unfold wheelEvents in *. rewrite foldl_app, Hrun. cbn [foldl].
  unfold wheelEvent. rewrite Hw'. cbv zeta. rewrite <- Hsum.
  destruct (Z.ltb_spec (absInt (wrapInt (foldr Z.add 0 (map wheelDelta (ws ++ [w]))))) 120);
    [lia | reflexivity].
Qed.

(** Two deltas of 50 are kept, the third moves the slider down by a
    page; after a delta of 100 the largest [int] overflows the sum and
    moves the slider up. *)
Lemma wheelEvents_accumulate_witness :
  wheelEvents (fun _ bar => bar) [ownWheel 50 false; ownWheel 50 false]
              (0, mkScrollBar 40 10 0 100)
  = (100, mkScrollBar 40 10 0 100)
  /\ wheelEvents (fun _ bar => bar)
                 ([ownWheel 50 false; ownWheel 50 false] ++ [ownWheel 50 false])
                 (0, mkScrollBar 40 10 0 100)
     = (0, mkScrollBar 30 10 0 100)
  /\ wheelEvents (fun _ bar => bar) ([ownWheel 100 false] ++ [ownWheel 2147483647 false])
                 (0, mkScrollBar 40 10 0 100)
     = (0, mkScrollBar 50 10 0 100).
Proof.
  assert (Hown : Forall (fun w => leftToBaseClass w = false)
                        ([ownWheel 50 false; ownWheel 50 false] ++ [ownWheel 50 false]))
    by (repeat constructor).
  assert (Hsmall : forall n : nat,
             (n <= length [ownWheel 50 false; ownWheel 50 false])%nat ->
             Z.abs (foldr Z.add 0
                          (map wheelDelta (take n [ownWheel 50 false; ownWheel 50 false])))
             < 120).
  { intros n Hn.
    destruct n as [| [| [| n]]]; [reflexivity | reflexivity | reflexivity |].
    cbn [length] in Hn. lia. }
  assert (Hnotch : 120 <= absInt (wrapInt (foldr Z.add 0
                                       (map wheelDelta ([ownWheel 50 false; ownWheel 50 false]
                                                        ++ [ownWheel 50 false])))))
    by (vm_compute; discriminate).
  assert (Hown' : Forall (fun w => leftToBaseClass w = false)
                         ([ownWheel 100 false] ++ [ownWheel 2147483647 false]))
    by (repeat constructor).
  assert (Hsmall' : forall n : nat,
             (n <= length [ownWheel 100 false])%nat ->
             Z.abs (foldr Z.add 0 (map wheelDelta (take n [ownWheel 100 false]))) < 120).
  { intros n Hn.
    destruct n as [| [| n]]; [reflexivity | reflexivity |].
    cbn [length] in Hn. lia. }
  assert (Hnotch' : 120 <= absInt (wrapInt (foldr Z.add 0
                                        (map wheelDelta ([ownWheel 100 false]
                                                         ++ [ownWheel 2147483647 false])))))
    by (vm_compute; discriminate).
  split; [| split].
  - exact (proj1 (wheelEvents_accumulate (fun _ bar => bar)
                    [ownWheel 50 false; ownWheel 50 false] (ownWheel 50 false)
                    (mkScrollBar 40 10 0 100) Hown Hsmall Hnotch)).
  - exact (proj2 (wheelEvents_accumulate (fun _ bar => bar)
                    [ownWheel 50 false; ownWheel 50 false] (ownWheel 50 false)
                    (mkScrollBar 40 10 0 100) Hown Hsmall Hnotch)).
  - exact (proj2 (wheelEvents_accumulate (fun _ bar => bar)
                    [ownWheel 100 false] (ownWheel 2147483647 false)
                    (mkScrollBar 40 10 0 100) Hown' Hsmall' Hnotch')).
Defined.
(* ------------------------------------------------------------------- *)
(** ** Further properties of highlighter/highlighter-sh.cpp              *)
(* ------------------------------------------------------------------- *)

Section ShellLexerMoreClaims.

Context {states : BlockStates} {helpers : Helpers} {sound : HelpersSound}.

(** X14.  Only a closing parenthesis takes a command substitution off
    the nest count and only a dollar sign adds one: on a line without
    [)] the count [SH_CmndSubstVar] ends with is not below the one
    inherited from the previous block, and on a line without [$] it is
    not above it (for an inherited count that is not negative); on a
    line with neither the count is handed on as it came. *)
Theorem nest_count_follows_parentheses (text : QString) (fuel : nat)
        (blockData : TextBlockData) (oldOpenNests : Z) (oldOpenQuotes : gset Z)
        (h : Highlighter) :
  enoughFuel text fuel ->
  exists r,
    substituteCommands fuel text blockData oldOpenNests oldOpenQuotes h = Some r
    /\ (")"%char ∉ text -> inheritedNests h <= substNestCount r)
    /\ ("$"%char ∉ text -> 0 <= inheritedNests h -> substNestCount r <= inheritedNests h)
    /\ (")"%char ∉ text -> "$"%char ∉ text -> 0 <= inheritedNests h ->
        substNestCount r = inheritedNests h).
Proof.
  intros Hfuel.
  destruct (substituteCommands_total text fuel blockData oldOpenNests oldOpenQuotes h Hfuel)
    as (r & Hr & _).
  exists r. split; [exact Hr |].
  destruct (substituteCommands_facts text fuel blockData oldOpenNests oldOpenQuotes h r Hr)
    as (H1 & H2 & _).
  split; [exact H1 |]. split; [exact H2 |].
  intros Hc Hd H0. specialize (H1 Hc). specialize (H2 Hd H0). lia.
Qed.

(** X15.  The block state after [SH_CmndSubstVar].  On a block that
    starts a here-document (state below -1 or from [endState] on) the
    scan writes no state of its own: the state stays as it was when no
    command substitution is open at the end, and otherwise moves away
    from zero by twice the nest count plus six, so that the block still
    counts as a here-doc start.  On any other block the state is the one
    found, [SH_SingleQuoteState] or [SH_DoubleQuoteState]. *)
Theorem SH_CmndSubstVar_block_state (text : QString) (fuel : nat)
        (blockData : TextBlockData) (oldOpenNests : Z) (oldOpenQuotes : gset Z)
        (h : Highlighter) :
  enoughFuel text fuel ->
  exists r,
    substituteCommands fuel text blockData oldOpenNests oldOpenQuotes h = Some r
    /\ (isHereDocStartState (currentBlockState h) = true ->
        currentBlockState (substHighlighter r)
        = (if substNestCount r >? 0
           then (if currentBlockState h >? 0
                 then currentBlockState h + 2 * (substNestCount r + 3)
                 else currentBlockState h - 2 * (substNestCount r + 3))
           else currentBlockState h)
        /\ isHereDocStartState (currentBlockState (substHighlighter r)) = true)
    /\ (isHereDocStartState (currentBlockState h) = false ->
        currentBlockState (substHighlighter r) = currentBlockState h
        \/ currentBlockState (substHighlighter r) = SH_SingleQuoteState
        \/ currentBlockState (substHighlighter r) = SH_DoubleQuoteState).
Proof.
  intros Hfuel.
  destruct (substituteCommands_total text fuel blockData oldOpenNests oldOpenQuotes h Hfuel)
    as (r & Hr & _).
  exists r. split; [exact Hr |].
  destruct (substituteCommands_facts text fuel blockData oldOpenNests oldOpenQuotes h r Hr)
    as (_ & _ & before & Hbefore & Hstate).
  split.
  - intros Hdoc. rewrite Hdoc in Hbefore, Hstate. rewrite andb_true_r in Hstate.
    destruct Hbefore as [-> | [Hf _]]; [| discriminate].
    split; [exact Hstate |]. rewrite Hstate.
    unfold isHereDocStartState in *. apply orb_true_iff in Hdoc.
    apply orb_true_iff.
    destruct (Z.gtb_spec (substNestCount r) 0) as [Hn | Hn];
      [| destruct Hdoc as [Hd | Hd]; [left | right]; exact Hd].
    destruct (Z.gtb_spec (currentBlockState h) 0) as [Hc | Hc].
    + right. destruct Hdoc as [Hd | Hd]; [apply Z.ltb_lt in Hd; lia |].
      apply Z.geb_le in Hd. apply Z.geb_le. lia.
    + left. apply Z.ltb_lt. lia.
  - intros Hdoc. rewrite Hdoc in Hbefore, Hstate. rewrite andb_false_r in Hstate.
    rewrite Hstate. destruct Hbefore as [-> | [_ [-> | ->]]]; auto.
Qed.

End ShellLexerMoreClaims.

(** *** The quote pass *)

Lemma sameBlock_refl (h : Highlighter) : sameBlock h h.
Proof. unfold sameBlock. destruct h. reflexivity. Qed.

Lemma sameBlock_trans (h1 h2 h3 : Highlighter) :
  sameBlock h1 h2 -> sameBlock h2 h3 -> sameBlock h1 h3.
Proof. unfold sameBlock. intros H12 H23. rewrite H23. rewrite H12. reflexivity. Qed.

Lemma findFrom_none (p : ascii -> bool) (l : QString) :
  (forall c, c ∈ l -> p c = false) -> forall pos from : Z, findFrom p l pos from = -1.
Proof.
  induction l as [| c l IH]; intros Hp pos from; [reflexivity |].
  cbn [findFrom]. rewrite (Hp c) by apply list_elem_of_here. rewrite andb_false_r.
  apply IH. intros d Hd. apply Hp. apply list_elem_of_further. exact Hd.
Qed.

Lemma fillFormats_Forall (P : Format -> Prop) (start stop : nat) (f : Format)
      (l : list Format) :
  P f -> Forall P l -> Forall P (fillFormats start stop f l).
Proof.
  intros Hf Hl. unfold fillFormats.
  apply Forall_app. split; [apply Forall_take; exact Hl |].
  apply Forall_app. split; [apply Forall_replicate; exact Hf | apply Forall_drop; exact Hl].
Qed.

Lemma setFormat_Forall (P : Format -> Prop) (start count : Z) (f : Format) (h : Highlighter) :
  P f -> Forall P (formatChanges h) -> Forall P (formatChanges (setFormat start count f h)).
Proof.
  intros Hf Hl. unfold setFormat. destruct ((start <? 0) || _); [exact Hl |].
  cbn [setFormatChanges formatChanges]. apply fillFormats_Forall; assumption.
Qed.

Lemma setFormat_whole_line (f : Format) (h : Highlighter) :
  Forall (fun x => x = f)
         (formatChanges (setFormat 0 (Z.of_nat (length (formatChanges h))) f h)).
Proof.
  unfold setFormat. cbn [Z.ltb Z.compare orb].
  destruct (Z.leb_spec (Z.of_nat (length (formatChanges h))) 0) as [Hle | Hgt].
  - destruct (formatChanges h); [constructor | cbn [length] in Hle; lia].
  - cbn [setFormatChanges formatChanges]. unfold fillFormats.
    rewrite Z.add_0_l, Z.min_id, Nat2Z.id. cbn [Z.to_nat take app].
    rewrite Nat.sub_0_r, Nat.add_0_l, drop_all, app_nil_r.
    apply Forall_replicate. reflexivity.
Qed.

Section ShellQuoteMore.

Context {states : BlockStates} {helpers : Helpers} {sound : HelpersSound}.

Variable text : QString.

Lemma quotePassKeeps_refl (h : Highlighter) : quotePassKeeps h h.
Proof.
  unfold quotePassKeeps. split_and!; try reflexivity; [left; reflexivity |].
  destruct (currentBlockData h); [left; reflexivity | exact I].
Qed.

Lemma quotePassKeeps_trans (h1 h2 h3 : Highlighter) :
  quotePassKeeps h1 h2 -> quotePassKeeps h2 h3 -> quotePassKeeps h1 h3.
Proof.
  unfold quotePassKeeps.
  intros (Ha1 & Ha2 & Ha3 & Ha4 & Ha5) (Hb1 & Hb2 & Hb3 & Hb4 & Hb5).
  split_and!; try congruence.
  - destruct Hb4 as [Hb4 | Hb4]; [rewrite Hb4; exact Ha4 | right; exact Hb4].
  - destruct (currentBlockData h1) as [d1 |], (currentBlockData h2) as [d2 |],
             (currentBlockData h3) as [d3 |]; try contradiction; try exact I.
    destruct Ha5 as [-> | ->], Hb5 as [-> | ->]; auto.
Qed.

Lemma quotePassKeeps_sameBlock (h h1 h2 : Highlighter) :
  quotePassKeeps h h1 -> sameBlock h1 h2 -> quotePassKeeps h h2.
Proof.
  intros H1 H2. apply (quotePassKeeps_trans h h1 h2 H1).
  unfold sameBlock in H2. rewrite H2. unfold quotePassKeeps.
  cbn [setFormatChanges progLan previousBlockState previousBlockData currentBlockState
       currentBlockData].
  split_and!; try reflexivity; [left; reflexivity |].
  destruct (currentBlockData h1); [left; reflexivity | exact I].
Qed.

(** [highlightUrlsWithinQuote] writes formats only, and no other format
    than [urlInsideQuoteFormat]. *)
Lemma highlightUrlsWithinQuote_frame (fuel : nat) (start length_ : Z)
      (h h' : Highlighter) :
  highlightUrlsWithinQuote fuel text start length_ h = Some h' ->
  sameBlock h h'
  /\ forall P : Format -> Prop,
      P urlInsideQuoteFormat -> Forall P (formatChanges h) -> Forall P (formatChanges h').
Proof.
  unfold highlightUrlsWithinQuote.
  destruct (while fuel _ _ _) as [r |] eqn:Hloop; [| discriminate].
  cbn [mbind option_bind]. intros [= <-].
  revert Hloop.
  apply (while_invariant
           (fun st : Z * Highlighter =>
              sameBlock h (snd st)
              /\ forall P : Format -> Prop,
                  P urlInsideQuoteFormat -> Forall P (formatChanges h) ->
                  Forall P (formatChanges (snd st)))).
  - intros [urlIndex h0] r0 [Hs HP] _. cbn [snd] in *.
    destruct (indexOfRegex urlPattern (mid text start length_) urlIndex)
      as [found captured].
    destruct (found >? -1); intros [= <-]; cbn [snd]; [| split; assumption].
    split.
    + exact (sameBlock_trans _ _ _ Hs (setFormat_frame _ _ _ _)).
    + intros P Hu Hh. apply setFormat_Forall; [exact Hu | apply HP; assumption].
  - cbn [snd]. split; [apply sameBlock_refl | intros P _ Hh; exact Hh].
Qed.

Lemma unterminatedQuoteState_open (q : QuoteExpression) (initialState : Z) :
  isOpenQuoteState (unterminatedQuoteState q initialState).
Proof.
  unfold unterminatedQuoteState, isOpenQuoteState.
  destruct (decide (q = quoteMark)); [| auto].
  destruct (initialState =? SH_DoubleQuoteState); [auto |].
  destruct (initialState =? SH_SingleQuoteState); auto.
Qed.

Lemma quoteLoopBody_keeps (fuel : nat) (wasQuoted : bool)
      (initialState hereDocDelimPos index : Z) (q : QuoteExpression) (h : Highlighter)
      (r : LoopStep (Z * QuoteExpression * Highlighter)) :
  quoteLoopBody fuel text wasQuoted initialState hereDocDelimPos (index, q, h) = Some r ->
  quotePassKeeps h (snd (stepState r)).
Proof.
  unfold quoteLoopBody.
  set (qe := if decide (q = mixedQuoteMark)
             then if isDoubleQuoteAt text index then quoteMark else singleQuoteMark
             else q).
  destruct (findEndQuote fuel text wasQuoted h index qe) as [endIndex |]; [| discriminate].
  cbn [mbind option_bind].
  set (r1 := if endIndex =? -1 then _ else _).
  assert (Hr1 : quotePassKeeps h (snd r1)).
  { unfold r1. destruct (endIndex =? -1); cbn [snd]; [| apply quotePassKeeps_refl].
    destruct (negb (bool_decide (qe = quoteMark)) || (hereDocDelimPos =? -1)).
    - unfold quotePassKeeps.
      cbn [setCurrentBlockState progLan previousBlockState previousBlockData
           currentBlockState currentBlockData].
      split_and!; try reflexivity; [right; apply unterminatedQuoteState_open |].
      destruct (currentBlockData h); [left; reflexivity | exact I].
    - destruct (currentBlockData h) as [curData |] eqn:Hd; [| apply quotePassKeeps_refl].
      destruct (openNests curData >? 0); [| apply quotePassKeeps_refl].
      unfold quotePassKeeps.
      cbn [setCurrentBlockData progLan previousBlockState previousBlockData
           currentBlockState currentBlockData].
      rewrite Hd. split_and!; try reflexivity; [left; reflexivity | right; reflexivity]. }
  destruct r1 as [quoteLength h1]. cbn [snd] in Hr1.
  set (h2 := if decide (qe = quoteMark)
             then setFormatWithoutOverwrite index quoteLength quoteFormat neutralFormat h1
             else setFormat index quoteLength altQuoteFormat h1).
  assert (Hh2 : sameBlock h1 h2).
  { unfold h2. destruct (decide (qe = quoteMark)).
    - unfold sameBlock. apply setFormatWithoutOverwrite_frame.
    - apply setFormat_frame. }
  destruct (highlightUrlsWithinQuote fuel text index quoteLength h2) as [h3 |] eqn:Hurl;
    [| discriminate].
  apply highlightUrlsWithinQuote_frame in Hurl as [Hh3 _].
  cbn [mbind option_bind].
  destruct (skipQuotes fuel h3 text mixedQuoteMark true _) as [index1 |]; [| discriminate].
  cbn [mbind option_bind]. intros [= <-]. cbn [stepState snd].
  apply (quotePassKeeps_sameBlock h h1 h3 Hr1).
  exact (sameBlock_trans _ _ _ Hh2 Hh3).
Qed.

Lemma SH_MultiLineQuote_keeps (fuel : nat) (h h' : Highlighter) :
  SH_MultiLineQuote fuel text h = Some h' -> quotePassKeeps h h'.
Proof.
  unfold SH_MultiLineQuote.
  destruct (findHereDocDelimPos fuel text h) as [hereDocDelimPos |]; [| discriminate].
  cbn [mbind option_bind].
  destruct (firstQuote fuel text hereDocDelimPos h) as [[index q] |]; [| discriminate].
  cbn [mbind option_bind].
  destruct (while fuel _ _ _) as [r |] eqn:Hloop; [| discriminate].
  cbn [mbind option_bind]. intros [= <-]. revert Hloop.
  apply (while_invariant
           (fun st : Z * QuoteExpression * Highlighter => quotePassKeeps h (snd st))).
  - intros [[i qe] h0] r0 Hinv _ Hbody. cbn [snd] in Hinv.
    apply quoteLoopBody_keeps in Hbody.
    destruct r0 as [s' | s']; cbn [stepState] in Hbody;
      exact (quotePassKeeps_trans _ _ _ Hinv Hbody).
  - cbn [snd]. apply quotePassKeeps_refl.
Qed.

(** X16.  A line without a quote character, on a block that does not
    continue a quote of the previous block, is left alone by
    [SH_MultiLineQuote]: no format, no state and no block data
    changes. *)
Theorem SH_MultiLineQuote_no_quote (fuel : nat) (h : Highlighter) :
  enoughFuel text fuel ->
  wasQuotedBefore h = false ->
  doubleQuoteChar ∉ text -> "'"%char ∉ text ->
  SH_MultiLineQuote fuel text h = Some h.
Proof.
  intros Hfuel Hwas Hdq Hsq. unfold SH_MultiLineQuote.
  destruct (findHereDocDelimPos_total text fuel h Hfuel) as (hereDocDelimPos & -> & _).
  cbn [mbind option_bind].
  assert (Hnone : indexOfQuote mixedQuoteMark text 0 = -1).
  { unfold indexOfQuote. apply findFrom_none. intros c Hc.
    unfold quoteMatches, isDoubleQuoteChar, isSingleQuoteChar.
    rewrite (bool_decide_eq_false_2 (c = doubleQuoteChar)) by (intros ->; contradiction).
    rewrite (bool_decide_eq_false_2 (c = "'"%char)) by (intros ->; contradiction).
    reflexivity. }
  unfold firstQuote. rewrite Hwas, Hnone. cbn [negb].
  rewrite (skipQuotes_notFound text fuel h mixedQuoteMark true Hfuel).
  cbn [mbind option_bind]. cbn [Z.geb Z.compare andb]. cbn [mbind option_bind].
  rewrite while_stop; [reflexivity | | reflexivity].
  unfold enoughFuel, lineFuel in Hfuel. lia.
Qed.

(** X17.  [SH_MultiLineQuote] always returns, and whatever the line
    holds it changes nothing but formats, the block state and the
    here-doc marker: the state it leaves is the one it found or one of
    the four open-quote states; the nest count, the open quotes and the
    label of the block data are kept, and the marker is set at most,
    never cleared. *)
Theorem SH_MultiLineQuote_keeps_block_data (fuel : nat) (h : Highlighter) :
  enoughFuel text fuel ->
  exists h',
    SH_MultiLineQuote fuel text h = Some h'
    /\ progLan h' = progLan h
    /\ previousBlockState h' = previousBlockState h
    /\ previousBlockData h' = previousBlockData h
    /\ (currentBlockState h' = currentBlockState h
        \/ isOpenQuoteState (currentBlockState h'))
    /\ (currentBlockData h = None -> currentBlockData h' = None)
    /\ (forall d, currentBlockData h = Some d ->
                  exists d', currentBlockData h' = Some d'
                             /\ openNests d' = openNests d
                             /\ openQuotes d' = openQuotes d
                             /\ labelInfo d' = labelInfo d
                             /\ (getProperty d = true -> getProperty d' = true)).
Proof.
  intros Hfuel.
  destruct (SH_MultiLineQuote_total text fuel h Hfuel) as (h' & Hr & _).
  exists h'. split; [exact Hr |].
  destruct (SH_MultiLineQuote_keeps fuel h h' Hr) as (H1 & H2 & H3 & H4 & H5).
  split_and!; try assumption.
  - intros Hd. rewrite Hd in H5. destruct (currentBlockData h'); [contradiction | reflexivity].
  - intros d Hd. rewrite Hd in H5.
    destruct (currentBlockData h') as [d' |]; [| contradiction].
    exists d'. split; [reflexivity |].
    destruct H5 as [-> | ->]; cbn [setProperty openNests openQuotes labelInfo getProperty];
      split_and!; auto.
Qed.

(** X18.  Inside a single-quoted string that runs over several lines:
    when the previous block left a single quote open and the line holds
    no single quote, [SH_MultiLineQuote] formats the whole line as
    single-quoted text, with the URLs inside it marked, and leaves
    [singleQuoteState], so that the next line goes on in the same way;
    the block data are not touched. *)
Theorem single_quote_runs_on (fuel : nat) (h : Highlighter) :
  enoughFuel text fuel ->
  wasQuotedBefore h = true -> wasDoubleQuotedBefore h = false ->
  "'"%char ∉ text ->
  length (formatChanges h) = length text ->
  exists h',
    SH_MultiLineQuote fuel text h = Some h'
    /\ currentBlockState h' = singleQuoteState
    /\ currentBlockData h' = currentBlockData h
    /\ length (formatChanges h') = length text
    /\ Forall (fun f => f = altQuoteFormat \/ f = urlInsideQuoteFormat) (formatChanges h').
Proof.
  intros Hfuel Hwas Hwasd Hsq Hlen.
  pose proof (enoughFuel_Z text fuel Hfuel) as HfuelZ.
  pose proof (textLength_nonneg text) as Hnonneg.
  unfold SH_MultiLineQuote.
  destruct (findHereDocDelimPos_total text fuel h Hfuel) as (hereDocDelimPos & -> & _).
  cbn [mbind option_bind].
  unfold firstQuote. rewrite Hwas, Hwasd. cbn [negb mbind option_bind].
  assert (Hnone : forall from, indexOfQuote singleQuoteMark text from = -1).
  { intros from. unfold indexOfQuote. apply findFrom_none. intros c Hc.
    unfold quoteMatches, isSingleQuoteChar.
    apply bool_decide_eq_false_2. intros ->. contradiction. }
  set (h1 := setCurrentBlockState singleQuoteState h).
  set (h2 := setFormat 0 (textLength text - 0) altQuoteFormat h1).
  destruct (highlightUrlsWithinQuote_total text fuel 0 (textLength text - 0) h2 Hfuel)
    as (h3 & Hurl & Hlen3 & Hstate3 & Hdata3).
  assert (Hbody : quoteLoopBody fuel text true (currentBlockState h) hereDocDelimPos
                                (0, singleQuoteMark, h)
                  = Some (Continue (-1, mixedQuoteMark, h3))).
  { unfold quoteLoopBody, findEndQuote.
    destruct (decide (singleQuoteMark = mixedQuoteMark)) as [E | _]; [discriminate |].
    cbn [Z.eqb andb]. rewrite Hnone.
    rewrite (skipQuotes_notFound text fuel h singleQuoteMark false Hfuel).
    cbn [mbind option_bind Z.eqb Pos.eqb].
    rewrite (bool_decide_eq_false_2 (singleQuoteMark = quoteMark)) by discriminate.
    cbn [negb orb]. unfold unterminatedQuoteState.
    destruct (decide (singleQuoteMark = quoteMark)) as [E | _]; [discriminate |].
    fold h1. fold h2. rewrite Hurl. cbn [mbind option_bind].
    rewrite (indexOfQuote_past_end text mixedQuoteMark (0 + (textLength text - 0)))
      by lia.
    rewrite (skipQuotes_notFound text fuel h3 mixedQuoteMark true Hfuel).
    cbn [mbind option_bind].
    destruct ((hereDocDelimPos >? -1) && (-1 >? hereDocDelimPos)); reflexivity. }
  rewrite (while_one_round fuel _ _ (0, singleQuoteMark, h) (-1, mixedQuoteMark, h3));
    [| lia | reflexivity | exact Hbody | reflexivity].
  cbn [mbind option_bind snd].
  exists h3. split; [reflexivity |].
  assert (Hlen2 : length (formatChanges h2) = length text).
  { unfold h2. rewrite setFormat_length. exact Hlen. }
  split; [rewrite Hstate3; unfold h2; rewrite setFormat_state; reflexivity |].
  split; [rewrite Hdata3; unfold h2;
          rewrite (setFormat_frame 0 (textLength text - 0) altQuoteFormat h1);
          reflexivity |].
  split; [congruence |].
  apply (proj2 (highlightUrlsWithinQuote_frame fuel 0 (textLength text - 0) h2 h3 Hurl)
               (fun f => f = altQuoteFormat \/ f = urlInsideQuoteFormat));
    [right; reflexivity |].
  unfold h2. rewrite Z.sub_0_r. unfold textLength.
  replace (length text) with (length (formatChanges h1)) by exact Hlen.
  eapply Forall_impl; [apply setFormat_whole_line |].
  intros f ->. left. reflexivity.
Qed.

End ShellQuoteMore.

(** *** Where the scan of command substitutions writes *)

Lemma fillFormats_prefix (k start stop : nat) (f : Format) (l : list Format) :
  (k <= start)%nat -> (start <= length l)%nat ->
  take k (fillFormats start stop f l) = take k l.
Proof.
  intros Hk Hstart. unfold fillFormats.
  rewrite take_app_le by (rewrite length_take; lia).
  rewrite take_take. f_equal. lia.
Qed.

Lemma setFormat_keeps (index start count : Z) (f : Format) (h : Highlighter) :
  index <= start -> keepsFormatsBefore index h (setFormat start count f h).
Proof.
  intros Hle. unfold keepsFormatsBefore, setFormat.
  destruct (Z.ltb_spec start 0) as [Hneg | Hpos]; [reflexivity |].
  destruct (Z.leb_spec (Z.of_nat (length (formatChanges h))) start) as [Hout | Hin];
    [reflexivity |].
  cbn [orb setFormatChanges formatChanges]. apply fillFormats_prefix; lia.
Qed.

Lemma keepsFormatsBefore_refl (index : Z) (h : Highlighter) : keepsFormatsBefore index h h.
Proof. reflexivity. Qed.

Lemma keepsFormatsBefore_trans (index : Z) (h1 h2 h3 : Highlighter) :
  keepsFormatsBefore index h1 h2 -> keepsFormatsBefore index h2 h3 ->
  keepsFormatsBefore index h1 h3.
Proof. unfold keepsFormatsBefore. congruence. Qed.

Lemma keepsFormatsBefore_weaken (index index' : Z) (h h' : Highlighter) :
  index <= index' -> keepsFormatsBefore index' h h' -> keepsFormatsBefore index h h'.
Proof.
  unfold keepsFormatsBefore. intros Hle H.
  assert (E : forall l : list Format,
             take (Z.to_nat index) l = take (Z.to_nat index) (take (Z.to_nat index') l)).
  { intros l. rewrite take_take. f_equal. lia. }
  rewrite (E (formatChanges h')), (E (formatChanges h)), H. reflexivity.
Qed.

Lemma keepsFormatsBefore_state (index s : Z) (h h' : Highlighter) :
  keepsFormatsBefore index h h' -> keepsFormatsBefore index h (setCurrentBlockState s h').
Proof. intros H. exact H. Qed.

Lemma findFrom_found (p : ascii -> bool) (l : QString) :
  forall pos from : Z,
    findFrom p l pos from <> -1 -> 0 <= pos ->
    exists c, l !! Z.to_nat (findFrom p l pos from - pos) = Some c /\ p c = true.
Proof.
  induction l as [| c l IH]; intros pos from Hfound Hpos; cbn [findFrom] in *;
    [contradiction |].
  destruct ((from <=? pos) && p c) eqn:Hhit.
  - apply andb_prop in Hhit as [_ Hp]. exists c. rewrite Z.sub_diag. split; [reflexivity | exact Hp].
  - destruct (IH (pos + 1) from Hfound ltac:(lia)) as (d & Hd & Hp).
    exists d. split; [| exact Hp].
    destruct (findFrom_range p l (pos + 1) from ltac:(lia)) as [E | E]; [contradiction |].
    replace (Z.to_nat (findFrom p l (pos + 1) from - pos))
      with (S (Z.to_nat (findFrom p l (pos + 1) from - (pos + 1)))) by lia.
    exact Hd.
Qed.

Lemma indexOfQuote_single (text : QString) (from : Z) :
  indexOfQuote singleQuoteMark text from <> -1 ->
  charAt text (indexOfQuote singleQuoteMark text from) = Some "'"%char.
Proof.
  intros Hfound. unfold indexOfQuote in *.
  destruct (findFrom_found _ text 0 from Hfound ltac:(lia)) as (c & Hc & Hp).
  destruct (findFrom_range (quoteMatches singleQuoteMark) text 0 from ltac:(lia))
    as [E | E]; [contradiction |].
  unfold charAt. destruct (Z.ltb_spec (findFrom (quoteMatches singleQuoteMark) text 0 from) 0);
    [lia |].
  rewrite Z.sub_0_r in Hc. rewrite Hc. f_equal.
  cbn [quoteMatches] in Hp. unfold isSingleQuoteChar in Hp.
  apply bool_decide_eq_true in Hp. exact Hp.
Qed.

Section ShellLexerFrame.

Context {states : BlockStates} {helpers : Helpers} {sound : HelpersSound}.

Variable text : QString.

Lemma handleSingleQuote_keeps (fuel : nat) (index : Z)
      (inComment_ doubleQuoted_ isHereDocStart : bool) (h h' : Highlighter) (index' : Z) :
  handleSingleQuote fuel text index inComment_ doubleQuoted_ isHereDocStart h
  = Some (index', h') ->
  keepsFormatsBefore index h h'.
Proof.
  unfold handleSingleQuote.
  destruct inComment_; [intros [= <- <-]; apply setFormat_keeps; lia |].
  destruct doubleQuoted_; [intros [= <- <-]; apply setFormat_keeps; lia |].
  destruct (isEscapedQuote h text index true); [intros [= <- <-]; reflexivity |].
  destruct (whileDo _ _ _ _) as [end_ |]; [| discriminate]. cbn [mbind option_bind].
  destruct (end_ =? -1); intros [= <- <-]; [| apply setFormat_keeps; lia].
  destruct (negb isHereDocStart); [apply keepsFormatsBefore_state |];
    apply setFormat_keeps; lia.
Qed.

Lemma finishCommandScan_keeps (minOpenNests initialOpenNests : Z) (isHereDocStart : bool)
      (index : Z) (h : Highlighter) (s : CommandScan) :
  keepsFormatsBefore index h (scanHighlighter s) ->
  let '(_, _, _, h') := finishCommandScan minOpenNests initialOpenNests isHereDocStart s in
  keepsFormatsBefore index h h'.
Proof.
  intros H. unfold finishCommandScan.
  destruct (doubleQuoted s); [| exact H].
  destruct (negb isHereDocStart && _); exact H.
Qed.

(** One iteration of the scan loop writes no format before the
    position it starts at. *)
Lemma commandStep_keeps
      (recurse : Z -> Z -> gset Z -> Z -> Highlighter -> option CommandResult)
      (fuel : nat) (initialOpenNests : Z) (isHereDocStart : bool)
      (s : CommandScan) (r : LoopStep CommandScan) :
  enoughFuel text fuel -> 0 <= currentIndex s ->
  (forall minOpenNests nests qs index h r',
      currentIndex s < index ->
      recurse minOpenNests nests qs index h = Some r' ->
      let '(_, _, _, h') := r' in keepsFormatsBefore index h h') ->
  commandStep recurse fuel text initialOpenNests isHereDocStart s = Some r ->
  keepsFormatsBefore (currentIndex s) (scanHighlighter s) (scanHighlighter (stepState r)).
Proof.
  intros Hfuel H0 Hrec. unfold commandStep.
  destruct (skipCommentFormats_total text fuel (scanHighlighter s) (currentIndex s) Hfuel H0)
    as (index & -> & Hi0 & _).
  cbn [mbind option_bind].
  destruct (index >=? textLength text); [intros [= <-]; reflexivity |].
  destruct (charAt text index) as [c |]; [| discriminate].
  destruct (bool_decide (c = "'"%char)).
  { destruct (handleSingleQuote _ _ _ _ _ _ _) as [[index' h'] |] eqn:Hq; [| discriminate].
    cbn [mbind option_bind]. intros [= <-]. cbn [stepState scanHighlighter].
    apply (keepsFormatsBefore_weaken _ index); [lia |].
    exact (handleSingleQuote_keeps _ _ _ _ _ _ _ _ Hq). }
  destruct (bool_decide (c = doubleQuoteChar)).
  { unfold handleDoubleQuote.
    destruct (inComment s); [| destruct (negb (isEscapedQuote _ _ _ _))];
      intros [= <-]; cbn [stepState scanHighlighter];
        try reflexivity; apply setFormat_keeps; lia. }
  destruct (bool_decide (c = "$"%char)).
  { unfold handleDollarSign.
    destruct (inComment s).
    { cbn [mbind option_bind]. intros [= <-]. cbn [stepState scanHighlighter].
      apply setFormat_keeps; lia. }
    destruct (bool_decide (mid text index 2 = str "$(")).
    - destruct (recurse _ _ _ _ _) as [[[[index' nests'] qs'] h'] |] eqn:Hr;
        [| discriminate].
      cbn [mbind option_bind]. intros [= <-]. cbn [stepState scanHighlighter].
      apply Hrec in Hr; [| lia].
      apply (keepsFormatsBefore_trans _ _ (setFormat index 2 neutralFormat (scanHighlighter s)));
        [apply setFormat_keeps; lia |].
      apply (keepsFormatsBefore_weaken _ (index + 2)); [lia | exact Hr].
    - cbn [mbind option_bind]. intros [= <-]. cbn [stepState scanHighlighter].
      destruct (doubleQuoted s); apply setFormat_keeps; lia. }
  destruct (bool_decide (c = "("%char)).
  { unfold handleOpenParenthesis.
    destruct (doubleQuoted s); [| destruct (inComment s)];
      intros [= <-]; cbn [stepState scanHighlighter]; apply setFormat_keeps; lia. }
  destruct (bool_decide (c = ")"%char)).
  { intros [= <-]. unfold handleCloseParenthesis.
    destruct (doubleQuoted s);
      [cbn [stepState scanHighlighter cpHighlighter]; apply setFormat_keeps; lia |].
    destruct (negb (isEscapedChar _ _ _));
      [destruct (parenDepth s - 1 <? 0); [| destruct (inComment s)] | destruct (inComment s)];
      cbn [stepState scanHighlighter cpHighlighter]; apply setFormat_keeps; lia. }
  destruct (bool_decide (c = "#"%char)).
  { unfold handleCommentSign.
    destruct (inComment s); [| destruct (doubleQuoted s); [| destruct (_ || _)]];
      intros [= <-]; cbn [stepState scanHighlighter]; apply setFormat_keeps; lia. }
  unfold handleDefaultChar.
  destruct (inComment s); [| destruct (doubleQuoted s)];
    intros [= <-]; cbn [stepState scanHighlighter]; apply setFormat_keeps; lia.
Qed.

Lemma scanCommand_keeps (loopFuel : nat) :
  enoughFuel text loopFuel ->
  forall (fuel : nat) (minOpenNests initialOpenNests : Z) (isHereDocStart : bool)
         (s s' : CommandScan),
    0 <= currentIndex s ->
    Z.max 0 (textLength text - currentIndex s) < Z.of_nat fuel ->
    scanCommand loopFuel fuel text minOpenNests initialOpenNests isHereDocStart s = Some s' ->
    keepsFormatsBefore (currentIndex s) (scanHighlighter s) (scanHighlighter s').
Proof.
  intros Hfuel. induction fuel as [| fuel IH];
    intros minOpenNests initialOpenNests isHereDocStart s s' H0 Hb; [lia |].
  cbn [scanCommand]. unfold commandLoopCondition.
  destruct (Z.gtb_spec (nestCount s) minOpenNests) as [Hn | Hn];
    [| cbn [andb]; intros [= <-]; reflexivity].
  destruct (Z.ltb_spec (currentIndex s) (textLength text)) as [Hc | Hc];
    [| cbn [andb]; intros [= <-]; reflexivity].
  cbn [andb].
  match goal with
  | |- context [commandStep ?rec _ _ _ _ _] => set (recurse := rec)
  end.
  assert (Hrec : recursionSound text (Z.of_nat fuel) recurse).
  { intros min' nest' quotes' index' h' Hi0 Hi1 Hi2. unfold recurse.
    destruct (scanCommand_total text loopFuel Hfuel fuel min' nest' isHereDocStart
                (startCommandScan nest' quotes' index' h'))
      as (s1 & -> & Hs1 & Hs2 & _ & Hs4 & _); cbn [startCommandScan currentIndex] in *;
      [lia | lia |].
    cbn [mbind option_bind]. eexists. split; [reflexivity |].
    apply finishCommandScan_ok; assumption. }
  assert (Hkeep : forall minOpenNests nests qs index h r',
             currentIndex s < index ->
             recurse minOpenNests nests qs index h = Some r' ->
             let '(_, _, _, h') := r' in keepsFormatsBefore index h h').
  { intros min' nest' quotes' index' h' r' Hlt. unfold recurse.
    destruct (scanCommand loopFuel fuel text min' nest' isHereDocStart
                          (startCommandScan nest' quotes' index' h')) as [s1 |] eqn:Hs1;
      [| discriminate].
    cbn [mbind option_bind]. intros [= <-].
    apply IH in Hs1; cbn [startCommandScan currentIndex scanHighlighter] in *; [| lia | lia].
    apply finishCommandScan_keeps. exact Hs1. }
  destruct (commandStep_advances text recurse (Z.of_nat fuel) loopFuel initialOpenNests
              isHereDocStart s Hfuel Hrec H0 Hc ltac:(lia)) as (r & Hstep & Hr).
  rewrite Hstep.
  pose proof (commandStep_keeps recurse loopFuel initialOpenNests isHereDocStart s r
                Hfuel H0 Hkeep Hstep) as Hk.
  destruct r as [s1 | s1]; cbn [stepState] in Hk.
  - destruct Hr as (Hr1 & Hr2 & _). intros Hs'.
    apply IH in Hs'; [| lia | lia].
    apply (keepsFormatsBefore_trans _ _ _ _ Hk).
    apply (keepsFormatsBefore_weaken _ (currentIndex s1)); [lia | exact Hs'].
  - intros [= <-]. exact Hk.
Qed.

(** X27.  [formatInsideCommand] writes formats from the index it is
    entered at on, and never before it: whatever the rest of the line
    holds, what was formatted to the left of the scan is kept. *)
Theorem formatInsideCommand_keeps_left (fuel : nat) (minOpenNests nests : Z)
        (qs : gset Z) (isHereDocStart : bool) (index : Z) (h : Highlighter) :
  enoughFuel text fuel -> 0 <= index ->
  exists index' nests' qs' h',
    formatInsideCommand fuel text minOpenNests nests qs isHereDocStart index h
    = Some (index', nests', qs', h')
    /\ index <= index'
    /\ length (formatChanges h') = length (formatChanges h)
    /\ take (Z.to_nat index) (formatChanges h') = take (Z.to_nat index) (formatChanges h)
    /\ forall i, 0 <= i < index -> format h' i = format h i.
Proof.
  intros Hfuel H0.
  destruct (formatInsideCommand_total text fuel minOpenNests nests qs isHereDocStart index h
              Hfuel H0) as ([[[index' nests'] qs'] h'] & Hr & Hok).
  exists index', nests', qs', h'. split; [exact Hr |].
  unfold commandResultOk in Hok. destruct Hok as (Hi & _ & _ & Hlen).
  split; [exact Hi |]. split; [exact Hlen |].
  assert (Hkeep : keepsFormatsBefore index h h').
  { revert Hr. unfold formatInsideCommand.
    destruct (scanCommand fuel fuel text minOpenNests nests isHereDocStart
                          (startCommandScan nests qs index h)) as [s' |] eqn:Hs;
      [| discriminate].
    cbn [mbind option_bind]. intros Hfin.
    apply (scanCommand_keeps fuel Hfuel) in Hs;
      cbn [startCommandScan currentIndex scanHighlighter] in *;
      [| exact H0 | pose proof (enoughFuel_Z text fuel Hfuel);
                    pose proof (textLength_nonneg text); lia].
    pose proof (finishCommandScan_keeps minOpenNests nests isHereDocStart index h s' Hs)
      as Hf.
    rewrite (f_equal (fun o => match o with Some x => x | None => (0, 0, ∅, h) end) Hfin
             : finishCommandScan minOpenNests nests isHereDocStart s'
               = (index', nests', qs', h')) in Hf.
    exact Hf. }
  split; [exact Hkeep |].
  intros i Hi'. unfold format. rewrite Hlen.
  destruct ((i <? 0) || _); [reflexivity |]. f_equal.
  unfold keepsFormatsBefore in Hkeep.
  rewrite <- (lookup_take_lt (formatChanges h') (Z.to_nat index) (Z.to_nat i)) by lia.
  rewrite <- (lookup_take_lt (formatChanges h) (Z.to_nat index) (Z.to_nat i)) by lia.
  rewrite Hkeep. reflexivity.
Qed.

Lemma setFormat_from_start (n : Z) (f : Format) (h : Highlighter) :
  0 <= n <= Z.of_nat (length (formatChanges h)) ->
  formatChanges (setFormat 0 n f h)
  = replicate (Z.to_nat n) f ++ drop (Z.to_nat n) (formatChanges h).
Proof.
  intros Hn. unfold setFormat. cbn [Z.ltb Z.compare orb].
  destruct (Z.leb_spec (Z.of_nat (length (formatChanges h))) 0) as [Hle | Hgt].
  - replace n with 0 by lia. cbn [Z.to_nat replicate drop app]. reflexivity.
  - cbn [setFormatChanges formatChanges]. unfold fillFormats.
    rewrite Z.add_0_l, Z.min_l by lia.
    cbn [Z.to_nat take app]. rewrite Nat.sub_0_r, Nat.add_0_l. reflexivity.
Qed.

(** X28.  [closeOpenQuoteFromPreviousBlock], called with a single
    quote open from the previous block, formats the line as
    single-quoted text up to and including the first single quote that
    is not escaped, or all of it when there is none, leaves the formats
    behind that quote alone, and returns the index just behind the
    quoted part, where [SH_CmndSubstVar] resumes.  Called with another
    state it does nothing and returns 0. *)
Theorem closeOpenQuoteFromPreviousBlock_quoted_part (fuel : nat) (prevState : Z)
        (isHereDocStart : bool) (h : Highlighter) :
  enoughFuel text fuel ->
  length (formatChanges h) = length text ->
  exists index h',
    closeOpenQuoteFromPreviousBlock fuel text prevState isHereDocStart h = Some (index, h')
    /\ 0 <= index <= textLength text
    /\ (prevState <> SH_SingleQuoteState -> prevState <> SH_MixedSingleQuoteState ->
        index = 0 /\ h' = h)
    /\ formatChanges h'
       = (if (prevState =? SH_SingleQuoteState) || (prevState =? SH_MixedSingleQuoteState)
          then replicate (Z.to_nat index) altQuoteFormat
          else [])
         ++ drop (Z.to_nat index) (formatChanges h)
    /\ ((prevState = SH_SingleQuoteState \/ prevState = SH_MixedSingleQuoteState) ->
        index < textLength text ->
        charAt text (index - 1) = Some "'"%char
        /\ isEscapedQuote h text (index - 1) false = false).
Proof.
  intros Hfuel Hlen. pose proof (textLength_nonneg text) as Hnonneg.
  unfold closeOpenQuoteFromPreviousBlock.
  destruct ((prevState =? SH_SingleQuoteState) || (prevState =? SH_MixedSingleQuoteState))
           eqn:Hprev.
  2: { apply orb_false_elim in Hprev as [Hp1 Hp2].
       apply Z.eqb_neq in Hp1. apply Z.eqb_neq in Hp2.
       exists 0, h. split; [reflexivity |]. split; [lia |].
       split; [intros _ _; split; reflexivity |].
       split; [reflexivity |]. intros [H | H]; contradiction. }
  set (start := indexOfQuote singleQuoteMark text 0).
  assert (Hstart : start = -1 \/ (0 <= start /\ start < textLength text))
    by (destruct (indexOfQuote_range singleQuoteMark text 0); [left | right]; lia).
  destruct (whileDo_search
              (fun e => isEscapedQuote h text e false)
              (fun e => indexOfQuote singleQuoteMark text (e + 1))
              (textLength text)
              (isEscapedQuote_notFound h text false)
              ltac:(intros i Hi;
                    destruct (indexOfQuote_range singleQuoteMark text (i + 1));
                    [left; assumption | right; lia])
              fuel start Hstart Hnonneg
              ltac:(pose proof (enoughFuel_Z text fuel Hfuel); lia))
    as (end_ & Hend & Hrange & Hnot).
  assert (Hquote : end_ = -1 \/ charAt text end_ = Some "'"%char).
  { revert Hend. unfold whileDo.
    apply (while_invariant (fun e => e = -1 \/ charAt text e = Some "'"%char)).
    - intros e r _ _ [= <-].
      destruct (Z.eq_dec (indexOfQuote singleQuoteMark text (e + 1)) (-1)) as [E | E];
        [left; exact E | right; apply indexOfQuote_single; exact E].
    - unfold start.
      destruct (Z.eq_dec (indexOfQuote singleQuoteMark text 0) (-1)) as [E | E];
        [left; exact E | right; apply indexOfQuote_single; exact E]. }
  rewrite Hend. cbn [mbind option_bind].
  destruct (Z.eqb_spec end_ (-1)) as [-> | Hne].
  - eexists (textLength text), _. split; [reflexivity |]. split; [lia |].
    split.
    { intros H1 H2. apply orb_prop in Hprev as [E | E]; apply Z.eqb_eq in E; contradiction. }
    split; [| intros _ H; lia].
    destruct (negb isHereDocStart); cbn [setCurrentBlockState formatChanges];
      apply setFormat_from_start; unfold textLength; lia.
  - destruct Hrange as [E | (_ & Hlo & Hhi)]; [contradiction |].
    destruct Hquote as [E | Hquote]; [contradiction |].
    eexists (end_ + 1), _. split; [reflexivity |]. split; [lia |].
    split.
    { intros H1 H2. apply orb_prop in Hprev as [E | E]; apply Z.eqb_eq in E; contradiction. }
    split; [apply setFormat_from_start; unfold textLength in *; lia |].
    intros _ _. replace (end_ + 1 - 1) with end_ by lia. split; assumption.
Qed.

End ShellLexerFrame.

(* ------------------------------------------------------------------- *)
(** ** Properties of the saving passes in fpwin.cpp                      *)
(* ------------------------------------------------------------------- *)

(** *** Trailing spaces *)

Lemma trailingSpaces_loop (s : QString) :
  forall (fuel : nat) (i : Z),
    0 <= i <= textLength s ->
    textLength s - i < Z.of_nat fuel ->
    (forall j, textLength s - i <= j < textLength s ->
               exists c, charAt s j = Some c /\ isSpace c = true) ->
    exists n,
      while fuel (fun i => i <? textLength s)
            (fun i =>
               match charAt s (textLength s - 1 - i) with
               | Some c => if negb (isSpace c) then Some (Break i) else Some (Continue (i + 1))
               | None => None
               end) i = Some n
      /\ countsTrailing s n.
Proof.
  induction fuel as [| fuel IH]; intros i Hi Hfuel Hspaces; [lia |].
  cbn [while]. destruct (Z.ltb_spec i (textLength s)) as [Hlt | Hge].
  - destruct (charAt_inside s (textLength s - 1 - i) ltac:(lia) ltac:(lia)) as [c Hc].
    rewrite Hc. destruct (isSpace c) eqn:Hsp; cbn [negb].
    + apply IH; [lia | lia |].
      intros j Hj. destruct (decide (j = textLength s - 1 - i)) as [-> | Hne].
      * exists c. split; assumption.
      * apply Hspaces. lia.
    + exists i. split; [reflexivity |]. unfold countsTrailing.
      split; [lia |]. split; [exact Hspaces |]. intros _. exists c. split; assumption.
  - exists i. split; [reflexivity |]. unfold countsTrailing.
    split; [lia |]. split; [exact Hspaces | lia].
Qed.

Lemma countsTrailing_unique (s : QString) (n m : Z) :
  countsTrailing s n -> countsTrailing s m -> n = m.
Proof.
  intros (Hn & Hsn & Hen) (Hm & Hsm & Hem).
  destruct (Z.lt_trichotomy n m) as [Hlt | [Heq | Hgt]]; [| exact Heq |]; exfalso.
  - destruct (Hen ltac:(lia)) as (c & Hc & Hns).
    destruct (Hsm (textLength s - 1 - n) ltac:(lia)) as (c' & Hc' & Hs'). congruence.
  - destruct (Hem ltac:(lia)) as (c & Hc & Hns).
    destruct (Hsn (textLength s - 1 - m) ltac:(lia)) as (c' & Hc' & Hs'). congruence.
Qed.

Lemma trailingSpaces_spec (fuel : nat) (s : QString) (n : Z) :
  (length s < fuel)%nat -> trailingSpaces fuel s = Some n <-> countsTrailing s n.
Proof.
  intros Hfuel. unfold trailingSpaces.
  destruct (trailingSpaces_loop s fuel 0) as (m & Hm & Hcount).
  - pose proof (textLength_nonneg s). lia.
  - unfold textLength. lia.
  - intros j Hj. lia.
  - rewrite Hm. split.
    + intros [= <-]. exact Hcount.
    + intros Hn. f_equal. exact (countsTrailing_unique s m n Hcount Hn).
Qed.

Lemma charAt_take (s : QString) (k : nat) (j : Z) :
  0 <= j < Z.of_nat k -> charAt (take k s) j = charAt s j.
Proof.
  intros Hj. unfold charAt. destruct (Z.ltb_spec j 0); [lia |].
  apply lookup_take_lt. lia.
Qed.

(** Taking [m] of the [n] trailing spaces away leaves [n - m]. *)
Lemma countsTrailing_removeLast (s : QString) (n m : Z) :
  countsTrailing s n -> 0 <= m <= n ->
  countsTrailing (removeLastCharacters m s) (n - m).
Proof.
  intros (Hn & Hs & He) Hm. unfold removeLastCharacters, countsTrailing.
  assert (Hlen : textLength (take (Z.to_nat (textLength s - m)) s) = textLength s - m).
  { unfold textLength in *. rewrite length_take. lia. }
  rewrite Hlen. split; [lia |]. split.
  - intros j Hj. rewrite charAt_take by lia. apply Hs. lia.
  - intros Hlt. rewrite charAt_take by lia.
    replace (textLength s - m - 1 - (n - m)) with (textLength s - 1 - n) by lia.
    apply He. lia.
Qed.

Lemma removeLastCharacters_split (s : QString) (n m : Z) :
  countsTrailing s n -> 0 <= m <= n ->
  exists spaces : QString,
    s = removeLastCharacters m s ++ spaces
    /\ textLength spaces = m
    /\ Forall (fun c => isSpace c = true) spaces.
Proof.
  intros (Hn & Hs & _) Hm. unfold removeLastCharacters.
  exists (drop (Z.to_nat (textLength s - m)) s).
  split; [symmetry; apply take_drop |]. split.
  - unfold textLength in *. rewrite length_drop. lia.
  - apply Forall_lookup. intros i c Hi. rewrite lookup_drop in Hi.
    assert (Hlt : (Z.to_nat (textLength s - m) + i < length s)%nat)
      by (apply lookup_lt_Some in Hi; exact Hi).
    destruct (Hs (Z.of_nat (Z.to_nat (textLength s - m) + i))) as (c' & Hc' & Hsp).
    { unfold textLength in *. lia. }
    unfold charAt in Hc'.
    destruct (Z.ltb_spec (Z.of_nat (Z.to_nat (textLength s - m) + i)) 0); [lia |].
    rewrite Nat2Z.id in Hc'. congruence.
Qed.

(** X19.  [trailingSpaces] returns, on fuel above the length of the
    string, the number of white-space characters the string ends with:
    the last [n] characters are white space and the one before them, if
    there is one, is not.  For the empty string and for a string that
    ends in another character the answer is 0. *)
Theorem trailingSpaces_counts (fuel : nat) (s : QString) :
  (length s < fuel)%nat ->
  exists n,
    trailingSpaces fuel s = Some n
    /\ 0 <= n <= textLength s
    /\ (forall j, textLength s - n <= j < textLength s ->
                  exists c, charAt s j = Some c /\ isSpace c = true)
    /\ (n < textLength s ->
        exists c, charAt s (textLength s - 1 - n) = Some c /\ isSpace c = false)
    /\ (forall m, countsTrailing s m -> m = n).
Proof.
  intros Hfuel. unfold trailingSpaces.
  destruct (trailingSpaces_loop s fuel 0) as (n & Hn & Hcount).
  - pose proof (textLength_nonneg s). lia.
  - unfold textLength. lia.
  - intros j Hj. lia.
  - exists n. split; [exact Hn |].
    destruct Hcount as (H1 & H2 & H3).
    split; [exact H1 |]. split; [exact H2 |]. split; [exact H3 |].
    intros m Hm. exact (countsTrailing_unique s m n Hm (conj H1 (conj H2 H3))).
Qed.

Lemma trailingSpaces_counts_witness :
  exists n, trailingSpaces 7 (str "ab  ") = Some n /\ 0 <= n <= textLength (str "ab  ").
Proof.
  destruct (trailingSpaces_counts 7 (str "ab  ") ltac:(cbn; lia)) as (n & Hn & Hr & _).
  exists n. split; assumption.
Defined.

(** What [removeTrailingSpaces] does to one block. *)
Lemma stripBlock_spec (fuel : nat) (blockText : QString) :
  (length blockText < fuel)%nat ->
  exists stripped spaces : QString,
    (numTrailing ← trailingSpaces fuel blockText;
     Some (if numTrailing >? 0
           then removeLastCharacters numTrailing blockText
           else blockText)) = Some stripped
    /\ blockText = stripped ++ spaces
    /\ Forall (fun c => isSpace c = true) spaces
    /\ trailingSpaces fuel stripped = Some 0.
Proof.
  intros Hfuel.
  destruct (trailingSpaces_counts fuel blockText Hfuel) as (n & Hn & H1 & H2 & H3 & _).
  assert (Hcount : countsTrailing blockText n) by exact (conj H1 (conj H2 H3)).
  rewrite Hn. cbn [mbind option_bind].
  destruct (Z.gtb_spec n 0) as [Hpos | Hzero].
  - destruct (removeLastCharacters_split blockText n n Hcount ltac:(lia))
      as (spaces & Hsplit & _ & Hall).
    exists (removeLastCharacters n blockText), spaces.
    split; [reflexivity |]. split; [exact Hsplit |]. split; [exact Hall |].
    apply trailingSpaces_spec.
    + unfold removeLastCharacters. rewrite length_take. lia.
    + replace 0 with (n - n) by lia. apply countsTrailing_removeLast; [exact Hcount | lia].
  - exists blockText, []. split; [reflexivity |]. split; [symmetry; apply app_nil_r |].
    split; [constructor |]. replace 0 with n by lia. exact Hn.
Qed.

(** X20.  [removeTrailingSpaces] leaves the editor alone when the
    language is [diff] or the file is a [locale.gen]; otherwise it keeps
    the number of blocks and takes from every block exactly its trailing
    white space, so that no block ends in white space afterwards, and a
    second pass changes nothing. *)
Theorem removeTrailingSpaces_strips (fuel : nat) (t : EditedText) :
  Forall (fun blockText => (length blockText < fuel)%nat) (blocks t) ->
  let lang := if isEmpty (getFileName (editor t)) then getLang t
              else getProg (editor t) in
  exists t',
    removeTrailingSpaces fuel t = Some t'
    /\ editor t' = editor t /\ getLang t' = getLang t
    /\ (lang = str "diff" \/ endsWith (getFileName (editor t)) (str "/locale.gen") = true ->
        t' = t)
    /\ (lang <> str "diff" ->
        endsWith (getFileName (editor t)) (str "/locale.gen") = false ->
        Forall2 (fun old new =>
                   exists spaces : QString,
                     old = new ++ spaces
                     /\ Forall (fun c => isSpace c = true) spaces
                     /\ trailingSpaces fuel new = Some 0)
                (blocks t) (blocks t'))
    /\ removeTrailingSpaces fuel t' = Some t'.
Proof.
  intros Hfuel lang. unfold removeTrailingSpaces. fold lang.
  destruct (decide (lang = str "diff")) as [Hdiff | Hdiff].
  { rewrite (bool_decide_eq_true_2 _ Hdiff). cbn [negb andb].
    exists t. split; [reflexivity |]. split; [reflexivity |]. split; [reflexivity |].
    split; [intros _; reflexivity |]. split; [intros H; contradiction |].
    fold lang. rewrite (bool_decide_eq_true_2 _ Hdiff). reflexivity. }
  rewrite (bool_decide_eq_false_2 _ Hdiff). cbn [negb andb].
  destruct (endsWith (getFileName (editor t)) (str "/locale.gen")) eqn:Hgen.
  { cbn [negb]. exists t.
    split; [reflexivity |]. split; [reflexivity |]. split; [reflexivity |].
    split; [intros _; reflexivity |]. split; [intros _ H; discriminate |].
    fold lang. rewrite Hgen, andb_false_r. reflexivity. }
  cbn [negb].
  set (strip := fun blockText : QString =>
                  numTrailing ← trailingSpaces fuel blockText;
                  Some (if numTrailing >? 0
                        then removeLastCharacters numTrailing blockText
                        else blockText)).
  assert (Hall : exists bs,
             Forall2 (fun old new =>
                        strip old = Some new
                        /\ (exists spaces : QString,
                               old = new ++ spaces
                               /\ Forall (fun c => isSpace c = true) spaces
                               /\ trailingSpaces fuel new = Some 0)
                        /\ strip new = Some new)
                     (blocks t) bs).
  { induction Hfuel as [| b bs Hb _ IH]; [exists []; constructor |].
    destruct IH as (bs' & IH).
    destruct (stripBlock_spec fuel b Hb) as (stripped & spaces & Hs & Hsplit & Hsp & Hzero).
    exists (stripped :: bs'). constructor; [| exact IH].
    split; [exact Hs |]. split; [exists spaces; split_and!; assumption |].
    unfold strip. rewrite Hzero. reflexivity. }
  destruct Hall as (bs & Hall).
  assert (Hmap : mapM strip (blocks t) = Some bs).
  { apply mapM_Some. eapply Forall2_impl; [exact Hall |]. intros old new (H & _). exact H. }
  assert (Hmap' : mapM strip bs = Some bs).
  { apply mapM_Some. clear Hmap Hfuel.
    induction Hall as [| old new olds news (_ & _ & H) _ IH]; constructor; assumption. }
  rewrite Hmap. cbn [mbind option_bind].
  exists (setBlocks bs t). cbn [setBlocks editor getLang blocks].
  split; [reflexivity |]. split; [reflexivity |]. split; [reflexivity |].
  split; [| split].
  - intros [H | H]; [contradiction | discriminate].
  - intros _ _. eapply Forall2_impl; [exact Hall |]. intros old new (_ & H & _). exact H.
  - fold lang. rewrite (bool_decide_eq_false_2 _ Hdiff), Hgen. cbn [negb andb].
    fold strip. rewrite Hmap'. reflexivity.
Qed.

Lemma removeTrailingSpaces_strips_witness :
  exists t',
    removeTrailingSpaces 9 (mkEditedText (mkTextEdit (str "/tmp/a.sh") (str "sh")) []
                                         [str "echo  "; str "x"]) = Some t'.
Proof.
  destruct (removeTrailingSpaces_strips
              9 (mkEditedText (mkTextEdit (str "/tmp/a.sh") (str "sh")) []
                              [str "echo  "; str "x"])) as (t' & Ht' & _).
  - repeat constructor.
  - exists t'. exact Ht'.
Defined.

(** Cutting [m] of the [n] trailing spaces of a block. *)
Lemma removeLastCharacters_keeps (fuel : nat) (b : QString) (n m : Z) :
  (length b < fuel)%nat -> countsTrailing b n -> 0 <= m <= n ->
  exists spaces : QString,
    b = removeLastCharacters m b ++ spaces
    /\ Forall (fun c => isSpace c = true) spaces
    /\ trailingSpaces fuel (removeLastCharacters m b) = Some (n - m).
Proof.
  intros Hb Hcount Hm.
  destruct (removeLastCharacters_split b n m Hcount Hm) as (spaces & Hsplit & _ & Hall).
  exists spaces. split; [exact Hsplit |]. split; [exact Hall |].
  apply trailingSpaces_spec.
  - unfold removeLastCharacters. rewrite length_take. lia.
  - apply countsTrailing_removeLast; assumption.
Qed.

(** What the pass of [saveAllFiles] does to one block. *)
Lemma trimBlock_spec (fuel : nat) (doubleSpace singleSpace : bool) (b : QString) :
  (length b < fuel)%nat ->
  exists (new : QString) (n : Z) (spaces : QString),
    (numTrailing ← trailingSpaces fuel b;
     if numTrailing =? 0 then Some b
     else if doubleSpace then
       let toRemove := Z.max 0 (numTrailing - 2) in
       Some (if toRemove >? 0 then removeLastCharacters toRemove b else b)
     else if singleSpace then
       let toRemove := numTrailing - 1 in
       Some (if toRemove >? 0 then removeLastCharacters toRemove b else b)
     else Some (removeLastCharacters numTrailing b)) = Some new
    /\ trailingSpaces fuel b = Some n
    /\ b = new ++ spaces
    /\ Forall (fun c => isSpace c = true) spaces
    /\ trailingSpaces fuel new
       = Some (Z.min n (if doubleSpace then 2 else if singleSpace then 1 else 0)).
Proof.
  intros Hb.
  destruct (trailingSpaces_counts fuel b Hb) as (n & Hn & H1 & H2 & H3 & _).
  assert (Hcount : countsTrailing b n) by exact (conj H1 (conj H2 H3)).
  pose proof (removeLastCharacters_keeps fuel b n) as Hcut.
  assert (Hsame : b = b ++ []) by (symmetry; apply app_nil_r).
  rewrite Hn. cbn [mbind option_bind]. cbv zeta.
  destruct (Z.eqb_spec n 0) as [Hz | Hnz].
  { exists b, n, []. split; [reflexivity |]. split; [reflexivity |]. split; [exact Hsame |].
    split; [constructor |]. rewrite Hn. f_equal.
    destruct doubleSpace; [lia |]. destruct singleSpace; lia. }
  destruct doubleSpace.
  { destruct (Z.gtb_spec (Z.max 0 (n - 2)) 0) as [Hpos | Hnot].
    - destruct (Hcut (Z.max 0 (n - 2)) Hb Hcount ltac:(lia)) as (spaces & Hsplit & Hall & Hk).
      exists (removeLastCharacters (Z.max 0 (n - 2)) b), n, spaces.
      split; [reflexivity |]. split; [reflexivity |]. split; [exact Hsplit |].
      split; [exact Hall |]. rewrite Hk. f_equal. lia.
    - exists b, n, []. split; [reflexivity |]. split; [reflexivity |]. split; [exact Hsame |].
      split; [constructor |]. rewrite Hn. f_equal. lia. }
  destruct singleSpace.
  { destruct (Z.gtb_spec (n - 1) 0) as [Hpos | Hnot].
    - destruct (Hcut (n - 1) Hb Hcount ltac:(lia)) as (spaces & Hsplit & Hall & Hk).
      exists (removeLastCharacters (n - 1) b), n, spaces.
      split; [reflexivity |]. split; [reflexivity |]. split; [exact Hsplit |].
      split; [exact Hall |]. rewrite Hk. f_equal. lia.
    - exists b, n, []. split; [reflexivity |]. split; [reflexivity |]. split; [exact Hsame |].
      split; [constructor |]. rewrite Hn. f_equal. lia. }
  destruct (Hcut n Hb Hcount ltac:(lia)) as (spaces & Hsplit & Hall & Hk).
  exists (removeLastCharacters n b), n, spaces.
  split; [reflexivity |]. split; [reflexivity |]. split; [exact Hsplit |].
  split; [exact Hall |]. rewrite Hk. f_equal. lia.
Qed.

(** X21.  The pass of [saveAllFiles] keeps, of the white space a block
    ends with, two characters for Markdown and Fountain, one for LaTeX
    and none for any other language; for those other languages, with the
    option set and a file name, it is the same pass as
    [removeTrailingSpaces], the one of [saveFile], which strips all
    trailing white space also from Markdown, Fountain and LaTeX. *)
Theorem saveAllTrailingSpaces_keeps (fuel : nat) (t : EditedText) :
  Forall (fun blockText => (length blockText < fuel)%nat) (blocks t) ->
  getProg (editor t) <> str "diff" ->
  endsWith (getFileName (editor t)) (str "/locale.gen") = false ->
  let prog := getProg (editor t) in
  let keep := if bool_decide (prog = str "markdown") || bool_decide (prog = str "fountain")
              then 2
              else if bool_decide (prog = str "LaTeX") then 1 else 0 in
  exists t',
    saveAllTrailingSpaces fuel true t = Some t'
    /\ editor t' = editor t
    /\ Forall2 (fun old new =>
                  exists n spaces,
                    trailingSpaces fuel old = Some n
                    /\ old = new ++ spaces
                    /\ Forall (fun c => isSpace c = true) spaces
                    /\ trailingSpaces fuel new = Some (Z.min n keep))
               (blocks t) (blocks t')
    /\ (keep = 0 -> getFileName (editor t) <> [] ->
        saveAllTrailingSpaces fuel true t = removeTrailingSpaces fuel t).
Proof.
  intros Hfuel Hdiff Hgen prog keep.
  unfold saveAllTrailingSpaces. fold prog.
  rewrite (bool_decide_eq_false_2 (prog = str "diff") Hdiff), Hgen. cbn [negb andb].
  cbv zeta.
  set (doubleSpace := bool_decide (prog = str "markdown")
                      || bool_decide (prog = str "fountain")) in *.
  set (singleSpace := bool_decide (prog = str "LaTeX")) in *.
  set (trim := fun blockText : QString => _).
  assert (Hall : exists bs,
             Forall2 (fun old new =>
                        trim old = Some new
                        /\ exists n spaces,
                            trailingSpaces fuel old = Some n
                            /\ old = new ++ spaces
                            /\ Forall (fun c => isSpace c = true) spaces
                            /\ trailingSpaces fuel new = Some (Z.min n keep))
                     (blocks t) bs).
  { induction Hfuel as [| b bs Hb _ IH]; [exists []; constructor |].
    destruct IH as (bs' & IH).
    destruct (trimBlock_spec fuel doubleSpace singleSpace b Hb)
      as (new & n & spaces & Ht & Hrest).
    exists (new :: bs'). constructor; [| exact IH].
    split; [exact Ht | exists n, spaces; exact Hrest]. }
  destruct Hall as (bs & Hall).
  assert (Hmap : mapM trim (blocks t) = Some bs).
  { apply mapM_Some. eapply Forall2_impl; [exact Hall |]. intros old new (H & _). exact H. }
  rewrite Hmap. cbn [mbind option_bind].
  exists (setBlocks bs t). split; [reflexivity |]. split; [reflexivity |].
  split.
  - cbn [setBlocks blocks]. eapply Forall2_impl; [exact Hall |].
    intros old new (_ & H). exact H.
  - intros Hkeep0 Hname. unfold removeTrailingSpaces.
    rewrite (proj2 (bool_decide_eq_false _) Hname : isEmpty (getFileName (editor t)) = false).
    fold prog. rewrite (bool_decide_eq_false_2 (prog = str "diff") Hdiff), Hgen.
    cbn [negb andb].
    replace (mapM _ (blocks t)) with (mapM trim (blocks t)); [rewrite Hmap; reflexivity |].
    apply mapM_ext. intros b. unfold trim.
    destruct (trailingSpaces fuel b) as [n |]; [| reflexivity]. cbn [mbind option_bind].
    unfold keep in Hkeep0.
    destruct doubleSpace; [discriminate |]. destruct singleSpace; [discriminate |].
    destruct (Z.eqb_spec n 0) as [-> | Hne]; [reflexivity |].
    destruct (Z.gtb_spec n 0) as [Hpos | Hneg]; [reflexivity |].
    unfold removeLastCharacters. rewrite take_ge; [reflexivity |].
    unfold textLength. lia.
Qed.

Lemma saveAllTrailingSpaces_keeps_witness :
  exists t',
    saveAllTrailingSpaces 9 true
      (mkEditedText (mkTextEdit (str "/tmp/a.md") (str "markdown")) []
                    [str "line   "; str "x"]) = Some t'.
Proof.
  destruct (saveAllTrailingSpaces_keeps
              9 (mkEditedText (mkTextEdit (str "/tmp/a.md") (str "markdown")) []
                              [str "line   "; str "x"])) as (t' & Ht' & _).
  - repeat constructor.
  - discriminate.
  - reflexivity.
  - exists t'. exact Ht'.
Defined.

(** *** Line ends *)

Lemma startsWith_single (a c : ascii) (rest : QString) :
  startsWith (c :: rest) [a] = bool_decide (c = a).
Proof.
  unfold startsWith. apply bool_decide_ext. split.
  - intros [k Hk]. cbn [app] in Hk. congruence.
  - intros ->. exists rest. reflexivity.
Qed.

Lemma replace_single (a : ascii) (after s : QString) :
  replace [a] after s = flat_map (fun c => if bool_decide (c = a) then after else [c]) s.
Proof.
  unfold replace. induction s as [| c s IH]; [reflexivity |].
  cbn [replaceFrom flat_map length Nat.sub]. rewrite startsWith_single.
  destruct (bool_decide (c = a)); rewrite IH; reflexivity.
Qed.

Lemma replace_absent (before after s : QString) (x : ascii) :
  x ∈ before -> x ∉ s -> replace before after s = s.
Proof.
  intros Hx. unfold replace. induction s as [| c s IH]; intros Hno; [reflexivity |].
  cbn [replaceFrom].
  replace (startsWith (c :: s) before) with false.
  - rewrite IH; [reflexivity |]. intros H. apply Hno. apply list_elem_of_further. exact H.
  - symmetry. apply bool_decide_eq_false. intros [k Hk]. apply Hno. rewrite Hk.
    apply elem_of_app. left. exact Hx.
Qed.

Lemma replace_CR_absent (s : QString) : CR ∉ replace [CR] [LF] s.
Proof.
  rewrite replace_single. induction s as [| c s IH]; cbn [flat_map].
  - apply not_elem_of_nil.
  - intros H. apply elem_of_app in H as [H | H]; [| exact (IH H)].
    destruct (bool_decide (c = CR)) eqn:Hc.
    + apply list_elem_of_singleton in H. discriminate.
    + apply bool_decide_eq_false in Hc. apply list_elem_of_singleton in H. congruence.
Qed.

Lemma onlyCRLF_lineFeeds (s : QString) :
  CR ∉ s -> onlyCRLF (flat_map lineFeedToCRLF s) = true.
Proof.
  induction s as [| c s IH]; intros Hno; [reflexivity |].
  apply not_elem_of_cons in Hno as [Hc Hs].
  cbn [flat_map]. unfold lineFeedToCRLF at 1.
  destruct (bool_decide (c = LF)) eqn:Hlf.
  - cbn [app onlyCRLF]. rewrite !bool_decide_eq_true_2 by reflexivity.
    cbn [andb]. apply IH. exact Hs.
  - cbn [app onlyCRLF]. rewrite Hlf.
    rewrite (bool_decide_eq_false_2 (c = CR)) by congruence. apply IH. exact Hs.
Qed.

(** X22.  With [MSWinLineEnd] set, [writeToFile] hands on a text in
    which every line end is a carriage return followed by a line feed:
    after the four replacements no carriage return and no line feed
    stands alone.  A text without carriage returns is changed at its line
    feeds only, each of which gets a carriage return in front. *)
Theorem writeToFile_line_ends
        (writeEncodedFile : QString -> QString -> EncodingType -> bool)
        (encoding fname contents : QString) :
  onlyCRLF (msWinLineEnds contents) = true
  /\ (CR ∉ contents -> msWinLineEnds contents = flat_map lineFeedToCRLF contents)
  /\ (exists encType,
         writeToFile writeEncodedFile encoding fname contents true
         = writeEncodedFile fname (msWinLineEnds contents) encType)
  /\ (exists encType,
         writeToFile writeEncodedFile encoding fname contents false
         = writeEncodedFile fname contents encType).
Proof.
  split; [| split; [| split]].
  - unfold msWinLineEnds. rewrite (replace_single LF).
    apply (onlyCRLF_lineFeeds (replace [CR] [LF] _)). apply replace_CR_absent.
  - intros Hno. unfold msWinLineEnds.
    rewrite (replace_absent [CR; LF] [LF] contents CR) by (try exact Hno; apply list_elem_of_here).
    rewrite (replace_absent [LF; CR] [LF] contents CR)
      by (try exact Hno; apply list_elem_of_further, list_elem_of_here).
    rewrite (replace_absent [CR] [LF] contents CR) by (try exact Hno; apply list_elem_of_here).
    apply replace_single.
  - unfold writeToFile. destruct (bool_decide (encoding = str "UTF-16"));
      [| destruct (bool_decide (encoding = str "ISO-8859-1"))]; eexists; reflexivity.
  - unfold writeToFile. destruct (bool_decide (encoding = str "UTF-16"));
      [| destruct (bool_decide (encoding = str "ISO-8859-1"))]; eexists; reflexivity.
Qed.

(** X26.  [appendEmptyLine] leaves a document that ends in an empty
    block: it adds one empty block when the last block holds text and
    nothing otherwise, so calling it again changes nothing, and the blocks
    that were there are kept. *)
Theorem appendEmptyLine_ends_empty (bs : list QString) :
  bs <> [] ->
  last (appendEmptyLine bs) = Some []
  /\ (appendEmptyLine bs = bs \/ appendEmptyLine bs = bs ++ [[]])
  /\ (last bs = Some [] -> appendEmptyLine bs = bs)
  /\ appendEmptyLine (appendEmptyLine bs) = appendEmptyLine bs.
Proof.
  intros Hne. unfold appendEmptyLine.
  destruct (last bs) as [lastBlock |] eqn:Hlast.
  2: { apply last_None in Hlast. contradiction. }
  destruct (isEmpty lastBlock) eqn:Hempty.
  - apply bool_decide_eq_true in Hempty. subst lastBlock.
    rewrite Hlast. cbn [isEmpty]. split; [reflexivity |]. split; [left; reflexivity |].
    split; reflexivity.
  - rewrite last_snoc. split; [reflexivity |]. split; [right; reflexivity |].
    split; [| reflexivity].
    intros [= ->]. discriminate.
Qed.

Lemma appendEmptyLine_ends_empty_witness :
  last (appendEmptyLine [str "a"; str "b"]) = Some [].
Proof.
  apply (appendEmptyLine_ends_empty [str "a"; str "b"]). discriminate.
Defined.

(* ------------------------------------------------------------------- *)
(** ** Properties of FPwin::syntaxHighlighting                           *)
(* ------------------------------------------------------------------- *)

(** The loop takes as many selections off the end as there are bracket
    selections, or all of them. *)
Lemma removeBracketSelections_take (n : nat) :
  forall es : list Z, removeBracketSelections n es = take (length es - n) es.
Proof.
  induction n as [| n IH]; intros es; cbn [removeBracketSelections].
  - rewrite Nat.sub_0_r. symmetry. apply firstn_all.
  - destruct es as [| e es']; [reflexivity |].
    rewrite IH. rewrite removelast_firstn_len, length_take, take_take.
    cbn [length]. f_equal. lia.
Qed.

Lemma disconnect_all (cs : list Connection) :
  disconnect UpdateBracketMatching
    (disconnect BlockCountChanged
       (disconnect UpdateRect (disconnect Resized (disconnect ContentsChange cs)))) = [].
Proof.
  unfold disconnect. induction cs as [| c cs IH]; [reflexivity |].
  destruct c; repeat (rewrite filter_cons; case_decide; try congruence); exact IH.
Qed.

(** X23.  Turning highlighting off on an editable editor that has a
    highlighter deletes that highlighter object and nothing else, drops
    the bracket selections, which are the last extra selections, as many
    as [getRedSel] holds or all of them, empties [getRedSel], turns the
    indentation lines off and leaves none of the five connections.  On an
    editor without highlighter, or an uneditable one, nothing changes and
    nothing is deleted.  In no case is anything scheduled, and the file
    name, the languages, the text and its size are kept. *)
Theorem syntaxHighlighting_off (config : Config) (w : EditorWidget) (lang : QString) :
  let w' := fst (syntaxHighlighting config w false lang) in
  let effects := snd (syntaxHighlighting config w false lang) in
  edited w' = edited w /\ isUneditable w' = isUneditable w /\ getSize w' = getSize w
  /\ (SizeLimitWarning ∉ effects) /\ (ConnectSignals ∉ effects)
  /\ (forall hl, isUneditable w = false -> getHighlighter w = Some hl ->
                 effects = [HighlighterDeleted hl]
                 /\ extraSelections w'
                    = take (length (extraSelections w) - length (getRedSel w))
                           (extraSelections w)
                 /\ getRedSel w' = [] /\ drawIndetLines w' = false /\ vLineDistance w' = 0
                 /\ connections w' = [])
  /\ (isUneditable w = true \/ getHighlighter w = None -> w' = w /\ effects = []).
Proof.
  intros w' effects. subst w' effects. unfold syntaxHighlighting.
  destruct (isUneditable w) eqn:Hun; cbn [fst snd].
  { split; [reflexivity |]. split; [first [reflexivity | exact Hun] |]. split; [reflexivity |].
    split; [apply not_elem_of_nil |]. split; [apply not_elem_of_nil |].
    split; [intros hl H; discriminate |]. intros _. split; reflexivity. }
  destruct (getHighlighter w) as [hl0 |] eqn:Hhl; cbn [fst snd].
  - cbn [isUneditable edited getSize extraSelections getRedSel
         drawIndetLines vLineDistance connections].
    split; [reflexivity |]. split; [reflexivity |]. split; [reflexivity |].
    split; [intros H; apply list_elem_of_singleton in H; discriminate |].
    split; [intros H; apply list_elem_of_singleton in H; discriminate |].
    split.
    + intros hl _ [= <-]. rewrite removeBracketSelections_take, disconnect_all.
      split; [reflexivity |]. split; [reflexivity |]. split; [reflexivity |].
      split; [reflexivity |]. split; reflexivity.
    + intros [H | H]; discriminate.
  - split; [reflexivity |]. split; [first [reflexivity | exact Hun] |]. split; [reflexivity |].
    split; [apply not_elem_of_nil |]. split; [apply not_elem_of_nil |].
    split; [intros hl _ H; discriminate |]. intros _. split; reflexivity.
Qed.

(** X24.  Turning highlighting on never replaces a highlighter that is
    installed, whatever language is asked for.  Without one, a highlighter
    is installed exactly when the editor is editable, the language asked
    for (the editor's own when none is given) is neither empty nor [help],
    and the text is not larger than [getMaxSHSize] MiB; it is then made
    for that language.  Over the size limit only the warning is
    scheduled. *)
Theorem syntaxHighlighting_on (config : Config) (w : EditorWidget) (lang : QString) :
  let progLan := if isEmpty lang then getProg (editor (edited w)) else lang in
  let w' := fst (syntaxHighlighting config w true lang) in
  (getHighlighter w <> None -> w' = w)
  /\ (getHighlighter w = None ->
      (isUneditable w = false /\ progLan <> [] /\ progLan <> str "help"
       /\ getSize w <= getMaxSHSize config * 1024 * 1024)
      <-> exists hl, getHighlighter w' = Some hl)
  /\ (forall hl, getHighlighter w = None -> getHighlighter w' = Some hl ->
                 highlighterLang hl = progLan
                 /\ snd (syntaxHighlighting config w true lang) = [ConnectSignals])
  /\ (getHighlighter w' = None -> w' = w)
  /\ (isUneditable w = false -> progLan <> [] -> progLan <> str "help" ->
      getMaxSHSize config * 1024 * 1024 < getSize w ->
      syntaxHighlighting config w true lang = (w, [SizeLimitWarning]))
  /\ edited w' = edited w /\ extraSelections w' = extraSelections w
  /\ connections w' = connections w.
Proof.
  intros progLan w'. subst w'.
  assert (Hdef : syntaxHighlighting config w true lang
                 = if isUneditable w then (w, [])
                   else if isEmpty progLan || bool_decide (progLan = str "help") then (w, [])
                        else if getSize w >? getMaxSHSize config * 1024 * 1024
                             then (w, [SizeLimitWarning])
                             else snd (w, syntaxHighlighting config w true lang))
    by (unfold syntaxHighlighting; fold progLan;
        destruct (isUneditable w), (isEmpty progLan || bool_decide (progLan = str "help")),
          (getSize w >? getMaxSHSize config * 1024 * 1024); reflexivity).
  destruct (isUneditable w) eqn:Hun.
  { rewrite Hdef. cbn [fst snd].
    split_and!; try reflexivity; try (intros; first [congruence | contradiction | lia]).
    intros Hhl. split; [intros [H _]; discriminate |].
    intros [hl H]. congruence. }
  destruct (decide (progLan = [])) as [Hempty | Hempty].
  { unfold isEmpty in Hdef. rewrite (bool_decide_eq_true_2 _ Hempty) in Hdef.
    rewrite Hdef. cbn [orb fst snd].
    split_and!; try reflexivity; try (intros; first [congruence | contradiction | lia]).
    intros Hhl. split; [intros (_ & H & _); contradiction |].
    intros [hl H]. congruence. }
  unfold isEmpty in Hdef. rewrite (bool_decide_eq_false_2 _ Hempty) in Hdef.
  destruct (decide (progLan = str "help")) as [Hhelp | Hhelp].
  { rewrite (bool_decide_eq_true_2 _ Hhelp) in Hdef. rewrite Hdef. cbn [orb fst snd].
    split_and!; try reflexivity; try (intros; first [congruence | contradiction | lia]).
    intros Hhl. split; [intros (_ & _ & H & _); contradiction |].
    intros [hl H]. congruence. }
  destruct (Z.gtb_spec (getSize w) (getMaxSHSize config * 1024 * 1024)) as [Hbig | Hsmall].
  { rewrite (bool_decide_eq_false_2 _ Hhelp) in Hdef. rewrite Hdef. cbn [orb fst snd].
    split_and!; try reflexivity; try (intros; first [congruence | contradiction | lia]).
    intros Hhl. split; [intros (_ & _ & _ & H); lia |].
    intros [hl H]. congruence. }
  clear Hdef.
  assert (Hres : syntaxHighlighting config w true lang
                 = match getHighlighter w with
                   | None =>
                     (mkEditorWidget
                        (edited w) (isUneditable w) (getSize w) (hasDarkScheme w)
                        (topLeftCursor w) (bottomRightCursor w)
                        (Some (mkInstalledHighlighter
                                 progLan (topLeftCursor w) (bottomRightCursor w)
                                 (hasDarkScheme w) (getShowWhiteSpace config)
                                 (getShowEndings config) (getWhiteSpaceValue config)
                                 (if bool_decide (customSyntaxColors config = ∅)
                                  then (if hasDarkScheme w then darkSyntaxColors config
                                        else lightSyntaxColors config)
                                  else customSyntaxColors config)))
                        (extraSelections w) (getRedSel w)
                        (getShowWhiteSpace config) (getVLineDistance config)
                        (connections w),
                      [ConnectSignals])
                   | Some _ => (w, [ConnectSignals])
                   end).
  { unfold syntaxHighlighting. fold progLan. rewrite Hun. unfold isEmpty.
    rewrite (bool_decide_eq_false_2 _ Hempty), (bool_decide_eq_false_2 _ Hhelp).
    cbn [orb].
    destruct (Z.gtb_spec (getSize w) (getMaxSHSize config * 1024 * 1024)); [lia |].
    reflexivity. }
  rewrite Hres. clear Hres.
  destruct (getHighlighter w) as [hl0 |] eqn:Hhl; cbn [fst snd].
  - split_and!; try reflexivity; try (intros; first [congruence | contradiction | lia]).
  - cbn [getHighlighter edited extraSelections connections highlighterLang].
    split_and!; try reflexivity; try (intros; first [congruence | contradiction | lia]).
    + intros _. split; [intros _; eexists; reflexivity |].
      intros _. split_and!; [reflexivity | assumption | assumption | lia].
    + intros hl _ [= <-]. split; reflexivity.
Qed.

(** *** The further statements at concrete lines and editors *)

Lemma nest_count_follows_parentheses_witness :
  exists r,
    @substituteCommands sampleStates sampleHelpers (lineFuel lineEchoAbc) lineEchoAbc
                        newTextBlockData 0 ∅ (enterBlock 0 None lineEchoAbc) = Some r
    /\ inheritedNests (enterBlock 0 None lineEchoAbc) <= substNestCount r.
Proof.
  destruct (@nest_count_follows_parentheses
              sampleStates sampleHelpers sampleHelpers_sound lineEchoAbc
              (lineFuel lineEchoAbc) newTextBlockData 0 ∅ (enterBlock 0 None lineEchoAbc)
              (Nat.le_refl _)) as (r & Hr & Hup & _).
  exists r. split; [exact Hr |]. apply Hup.
  apply (bool_decide_eq_false_1 _). vm_compute. reflexivity.
Defined.

Lemma SH_CmndSubstVar_block_state_witness :
  exists r,
    @substituteCommands sampleStates sampleHelpers (lineFuel scenarioC1) scenarioC1
                        newTextBlockData 0 ∅
                        (@openHereDoc sampleStates (str "EOF") (enterBlock 0 None scenarioC1))
    = Some r.
Proof.
  destruct (@SH_CmndSubstVar_block_state
              sampleStates sampleHelpers sampleHelpers_sound scenarioC1
              (lineFuel scenarioC1) newTextBlockData 0 ∅
              (@openHereDoc sampleStates (str "EOF") (enterBlock 0 None scenarioC1))
              (Nat.le_refl _)) as (r & Hr & _).
  exists r. exact Hr.
Defined.

Lemma SH_MultiLineQuote_no_quote_witness :
  @SH_MultiLineQuote sampleStates sampleHelpers (lineFuel lineEchoAbc) lineEchoAbc
                     (enterBlock 0 None lineEchoAbc)
  = Some (enterBlock 0 None lineEchoAbc).
Proof.
  apply (@SH_MultiLineQuote_no_quote sampleStates sampleHelpers sampleHelpers_sound
           lineEchoAbc (lineFuel lineEchoAbc) (enterBlock 0 None lineEchoAbc)
           (Nat.le_refl _) eq_refl).
  - apply (bool_decide_eq_false_1 _). vm_compute. reflexivity.
  - apply (bool_decide_eq_false_1 _). vm_compute. reflexivity.
Defined.

Lemma SH_MultiLineQuote_keeps_block_data_witness :
  exists h',
    @SH_MultiLineQuote sampleStates sampleHelpers (lineFuel scenarioB) scenarioB
                       (enterBlock 0 None scenarioB) = Some h'
    /\ previousBlockData h' = None.
Proof.
  destruct (@SH_MultiLineQuote_keeps_block_data
              sampleStates sampleHelpers sampleHelpers_sound scenarioB (lineFuel scenarioB)
              (enterBlock 0 None scenarioB) (Nat.le_refl _))
    as (h' & Hr & _ & _ & Hprev & _).
  exists h'. split; [exact Hr | exact Hprev].
Defined.

Lemma single_quote_runs_on_witness :
  exists h',
    @SH_MultiLineQuote sampleStates sampleHelpers (lineFuel scenarioC2) scenarioC2
                       (enterBlock (@singleQuoteState sampleStates) None scenarioC2)
    = Some h'
    /\ currentBlockState h' = @singleQuoteState sampleStates.
Proof.
  destruct (@single_quote_runs_on
              sampleStates sampleHelpers sampleHelpers_sound scenarioC2 (lineFuel scenarioC2)
              (enterBlock (@singleQuoteState sampleStates) None scenarioC2)
              (Nat.le_refl _) eq_refl eq_refl) as (h' & Hr & Hstate & _).
  - apply (bool_decide_eq_false_1 _). vm_compute. reflexivity.
  - unfold enterBlock. cbn [formatChanges]. apply length_replicate.
  - exists h'. split; [exact Hr | exact Hstate].
Defined.

Lemma formatInsideCommand_keeps_left_witness :
  exists index' nests' qs' h',
    @formatInsideCommand sampleStates sampleHelpers (lineFuel lineEchoAbc) lineEchoAbc
                         0 1 ∅ false 2 (enterBlock 0 None lineEchoAbc)
    = Some (index', nests', qs', h')
    /\ 2 <= index'.
Proof.
  destruct (@formatInsideCommand_keeps_left
              sampleStates sampleHelpers sampleHelpers_sound lineEchoAbc
              (lineFuel lineEchoAbc) 0 1 ∅ false 2 (enterBlock 0 None lineEchoAbc)
              (Nat.le_refl _) ltac:(discriminate))
    as (index' & nests' & qs' & h' & Hr & Hi & _).
  exists index', nests', qs', h'. split; [exact Hr | exact Hi].
Defined.

Lemma closeOpenQuoteFromPreviousBlock_quoted_part_witness :
  exists index h',
    @closeOpenQuoteFromPreviousBlock
      sampleStates sampleHelpers (lineFuel lineEchoQuoteAbc) lineEchoQuoteAbc
      (@SH_SingleQuoteState sampleStates) false
      (enterBlock (@SH_SingleQuoteState sampleStates) None lineEchoQuoteAbc)
    = Some (index, h')
    /\ 0 <= index <= textLength lineEchoQuoteAbc.
Proof.
  destruct (@closeOpenQuoteFromPreviousBlock_quoted_part
              sampleStates sampleHelpers sampleHelpers_sound lineEchoQuoteAbc
              (lineFuel lineEchoQuoteAbc) (@SH_SingleQuoteState sampleStates) false
              (enterBlock (@SH_SingleQuoteState sampleStates) None lineEchoQuoteAbc)
              (Nat.le_refl _))
    as (index & h' & Hr & Hi & _).
  - unfold enterBlock. cbn [formatChanges]. apply length_replicate.
  - exists index, h'. split; [exact Hr | exact Hi].
Defined.
